(** * planck.js: narrow-phase circle collision and the distance, revolute,
      pulley and weld joints

    A shallow embedding of [collision/shape/CollideCircle],
    [dynamics/joint/DistanceJoint.ts], [dynamics/joint/RevoluteJoint.ts],
    [dynamics/joint/PulleyJoint.ts] and [dynamics/joint/WeldJoint.ts],
    with the properties their specification states about them and further
    properties of the code.

    Numbers.  A JavaScript [number] is an IEEE double.  In the embedding
    of the joints a finite number is a real ([R]): an operation of the
    code is the operation of the same name on reals, and the tests the
    code makes on numbers ([<], [>], [!=], ...) are the tests on reals.
    Rounding is not modelled there, so the properties of the joints are
    stated on the expressions the code computes, the tests it makes, the
    branches it takes and what it leaves alone, not on laws of the reals
    that rounding breaks (an exact inverse, an exact round trip, an exact
    cancellation).  [CollideCircles], whose specification
    compares a distance with a sum of radii, is embedded a second time on
    binary64 numbers ([Binary64]), where the comparison the code makes is
    the comparison of the rounded values.
    Where the code itself asks whether a value is a finite number
    ([Math.isFinite] on an optional constructor argument) the value is a
    [JsValue.t], which also has [undefined], [NaN] and the infinities.

    Division.  Every division of the embedded code is behind the test
    the source makes on its divisor ([length > linearSlop],
    [invMass != 0], [det !== 0], ...), so with positive tolerances no
    property here rests on the value the reals give to a division by
    zero.

    Objects.  Bodies are shared between joints, so they live in a table
    ([World]) and a joint holds the two keys ([m_bodyA], [m_bodyB]).  A
    [Vec2] held by a body and mutated in place ([vA.subMul(...)]) is
    mutated in the table, in the order of the source; a number read into a
    local ([let wA = ...]) is a copy. *)

From Stdlib Require Import Reals Lra Bool Arith ZArith.
From Corelib Require PrimFloat FloatOps SpecFloat.
Open Scope R_scope.

(** ** Numbers *)

(** Modelled from the spec: [common/Math] is not part of the sources (the
    spec assumes the math primitives available).  The tests of the
    language on numbers, as booleans, and the helpers of [Math] the joints
    call. *)
Module Math.

Definition ltb (a b : R) : bool := if Rlt_dec a b then true else false.
Definition leb (a b : R) : bool := if Rle_dec a b then true else false.
Definition gtb (a b : R) : bool := ltb b a.
Definition geb (a b : R) : bool := leb b a.
Definition eqb (a b : R) : bool := if Req_dec_T a b then true else false.
Definition neqb (a b : R) : bool := negb (eqb a b).

Definition abs (a : R) : R := Rabs a.

(** [clamp(num, min, max)]: [min] below [min], [max] above [max]. *)
Definition clamp (num min max : R) : R :=
  if ltb num min then min
  else if gtb num max then max
  else num.

End Math.

(** An optional or unchecked numeric argument, as the constructors
    receive it. *)
Module JsValue.

Inductive t : Type :=
| undefined
| NaN
| Infinity (negative : bool)
| Num (r : R).

(** Modelled from the spec: [Math.isFinite] is not part of the sources.
    True of a finite number only. *)
Definition isFinite (x : t) : bool :=
  match x with Num _ => true | _ => false end.

(** [x > e] for a finite [e]: false of [undefined] and [NaN], which
    compare false with everything. *)
Definition gtb (x : t) (e : R) : bool :=
  match x with
  | Num r => Math.gtb r e
  | Infinity negative => negb negative
  | undefined | NaN => false
  end.

(** [x < e] for a finite [e]. *)
Definition ltb (x : t) (e : R) : bool :=
  match x with
  | Num r => Math.ltb r e
  | Infinity negative => negative
  | undefined | NaN => false
  end.

End JsValue.

(** ** Vectors, rotations, transforms, matrices *)

(** Modelled from the spec: [common/Vec2] is not part of the sources (the
    spec assumes the math primitives available).  The operations the
    collision routine and the joints call, with their usual definitions. *)
Module Vec2.

Record t : Type := neo { x : R; y : R }.

Definition zero : t := neo 0 0.
Definition add (v w : t) : t := neo (x v + x w) (y v + y w).
Definition sub (v w : t) : t := neo (x v - x w) (y v - y w).
Definition neg (v : t) : t := neo (- x v) (- y v).
(** [Vec2.mul(a, v)], and [v.mul(a)] in place. *)
Definition mul (a : R) (v : t) : t := neo (a * x v) (a * y v).
Definition dot (v w : t) : R := x v * x w + y v * y w.
(** [Vec2.cross] of two vectors, of a vector and a number, of a number
    and a vector. *)
Definition cross (v w : t) : R := x v * y w - y v * x w.
Definition crossVec2Num (v : t) (s : R) : t := neo (s * y v) (- s * x v).
Definition crossNumVec2 (s : R) (v : t) : t := neo (- s * y v) (s * x v).
(** [v.addMul(a, w)], [v.subMul(a, w)]: the new value of [v]. *)
Definition addMul (v : t) (a : R) (w : t) : t := neo (x v + a * x w) (y v + a * y w).
Definition subMul (v : t) (a : R) (w : t) : t := neo (x v - a * x w) (y v - a * y w).
(** [Vec2.combine(a, v, b, w)]; [v.addCombine], [v.subCombine]. *)
Definition combine (a : R) (v : t) (b : R) (w : t) : t :=
  neo (a * x v + b * x w) (a * y v + b * y w).
Definition addCombine (u : t) (a : R) (v : t) (b : R) (w : t) : t :=
  neo (x u + (a * x v + b * x w)) (y u + (a * y v + b * y w)).
Definition subCombine (u : t) (a : R) (v : t) (b : R) (w : t) : t :=
  neo (x u - (a * x v + b * x w)) (y u - (a * y v + b * y w)).
Definition lengthSquared (v : t) : R := x v * x v + y v * y v.
Definition length (v : t) : R := sqrt (x v * x v + y v * y v).
Definition distanceSquared (v w : t) : R :=
  let dx := x v - x w in
  let dy := y v - y w in
  dx * dx + dy * dy.
Definition distance (v w : t) : R :=
  let dx := x v - x w in
  let dy := y v - y w in
  sqrt (dx * dx + dy * dy).

End Vec2.

(** Modelled from the spec: [common/Vec3] is not part of the sources. *)
Module Vec3.

Record t : Type := neo { x : R; y : R; z : R }.

Definition zero : t := neo 0 0 0.
Definition add (v w : t) : t := neo (x v + x w) (y v + y w) (z v + z w).
Definition neg (v : t) : t := neo (- x v) (- y v) (- z v).
Definition mul (m : R) (v : t) : t := neo (m * x v) (m * y v) (m * z v).
Definition dot (v w : t) : R := x v * x w + y v * y w + z v * z w.
Definition cross (v w : t) : t :=
  neo (y v * z w - z v * y w) (z v * x w - x v * z w) (x v * y w - y v * x w).

End Vec3.

(** Modelled from the spec: [common/Rot] is not part of the sources.  A
    rotation is the sine and cosine of its angle. *)
Module Rot.

Record t : Type := mk { s : R; c : R }.

(** [Rot.neo(angle)], and [q.set(angle)]. *)
Definition neo (angle : R) : t := mk (sin angle) (cos angle).
Definition mulVec2 (q : t) (v : Vec2.t) : Vec2.t :=
  Vec2.neo (c q * Vec2.x v - s q * Vec2.y v) (s q * Vec2.x v + c q * Vec2.y v).
(** [Rot.mulSub(q, v, w)] rotates [v - w]. *)
Definition mulSub (q : t) (v w : Vec2.t) : Vec2.t :=
  let vx := Vec2.x v - Vec2.x w in
  let vy := Vec2.y v - Vec2.y w in
  Vec2.neo (c q * vx - s q * vy) (s q * vx + c q * vy).
Definition mulTVec2 (q : t) (v : Vec2.t) : Vec2.t :=
  Vec2.neo (c q * Vec2.x v + s q * Vec2.y v) (- s q * Vec2.x v + c q * Vec2.y v).

End Rot.

(** Modelled from the spec: [common/Transform] is not part of the sources.
    A translation and a rotation, mapping the local frame to the world. *)
Module Transform.

Record t : Type := mk { p : Vec2.t; q : Rot.t }.

Definition mulVec2 (a : t) (b : Vec2.t) : Vec2.t :=
  Vec2.neo
    (Rot.c (q a) * Vec2.x b - Rot.s (q a) * Vec2.y b + Vec2.x (p a))
    (Rot.s (q a) * Vec2.x b + Rot.c (q a) * Vec2.y b + Vec2.y (p a)).
Definition mulTVec2 (a : t) (b : Vec2.t) : Vec2.t :=
  let px := Vec2.x b - Vec2.x (p a) in
  let py := Vec2.y b - Vec2.y (p a) in
  Vec2.neo
    (Rot.c (q a) * px + Rot.s (q a) * py)
    (- Rot.s (q a) * px + Rot.c (q a) * py).

End Transform.

(** Modelled from the spec: [common/Mat22] is not part of the sources.
    Columns [ex], [ey]; [solve] is Cramer's rule, with determinant 0 left
    as 0. *)
Module Mat22.

Record t : Type := mk { ex : Vec2.t; ey : Vec2.t }.

Definition solve (m : t) (v : Vec2.t) : Vec2.t :=
  let a11 := Vec2.x (ex m) in
  let a12 := Vec2.x (ey m) in
  let a21 := Vec2.y (ex m) in
  let a22 := Vec2.y (ey m) in
  let det := a11 * a22 - a12 * a21 in
  let det := if Math.neqb det 0 then 1 / det else det in
  Vec2.neo (det * (a22 * Vec2.x v - a12 * Vec2.y v))
           (det * (a11 * Vec2.y v - a21 * Vec2.x v)).

End Mat22.

(** Modelled from the spec: [common/Mat33] is not part of the sources.
    Columns [ex], [ey], [ez]; [solve33] solves the full system and
    [solve22] the upper 2-by-2 block, both by Cramer's rule. *)
Module Mat33.

Record t : Type := mk { ex : Vec3.t; ey : Vec3.t; ez : Vec3.t }.

Definition solve33 (m : t) (v : Vec3.t) : Vec3.t :=
  let det := Vec3.dot (ex m) (Vec3.cross (ey m) (ez m)) in
  let det := if Math.neqb det 0 then 1 / det else det in
  Vec3.neo (det * Vec3.dot v (Vec3.cross (ey m) (ez m)))
           (det * Vec3.dot (ex m) (Vec3.cross v (ez m)))
           (det * Vec3.dot (ex m) (Vec3.cross (ey m) v)).

Definition solve22 (m : t) (v : Vec2.t) : Vec2.t :=
  let a11 := Vec3.x (ex m) in
  let a12 := Vec3.x (ey m) in
  let a21 := Vec3.y (ex m) in
  let a22 := Vec3.y (ey m) in
  let det := a11 * a22 - a12 * a21 in
  let det := if Math.neqb det 0 then 1 / det else det in
  Vec2.neo (det * (a22 * Vec2.x v - a12 * Vec2.y v))
           (det * (a11 * Vec2.y v - a21 * Vec2.x v)).

(** [Mat33.mulVec3(a, b)] and [Mat33.mulVec2(a, b)]: the matrix, and its
    upper 2-by-2 block, times a vector. *)
Definition mulVec3 (a : t) (b : Vec3.t) : Vec3.t :=
  Vec3.neo
    (Vec3.x (ex a) * Vec3.x b + Vec3.x (ey a) * Vec3.y b + Vec3.x (ez a) * Vec3.z b)
    (Vec3.y (ex a) * Vec3.x b + Vec3.y (ey a) * Vec3.y b + Vec3.y (ez a) * Vec3.z b)
    (Vec3.z (ex a) * Vec3.x b + Vec3.z (ey a) * Vec3.y b + Vec3.z (ez a) * Vec3.z b).

Definition mulVec2 (a : t) (b : Vec2.t) : Vec2.t :=
  Vec2.neo (Vec3.x (ex a) * Vec2.x b + Vec3.x (ey a) * Vec2.y b)
           (Vec3.y (ex a) * Vec2.x b + Vec3.y (ey a) * Vec2.y b).

(** [m.getInverse22(M)]: the new value of [M], the inverse of the upper
    2-by-2 block with a zero third row and column. *)
Definition getInverse22 (m : t) : t :=
  let a := Vec3.x (ex m) in
  let b := Vec3.x (ey m) in
  let c := Vec3.y (ex m) in
  let d := Vec3.y (ey m) in
  let det := a * d - b * c in
  let det := if Math.neqb det 0 then 1 / det else det in
  mk (Vec3.neo (det * d) (- det * c) 0)
     (Vec3.neo (- det * b) (det * a) 0)
     (Vec3.neo 0 0 0).

(** [m.getSymInverse33(M)]: the new value of [M], the inverse of [m]
    taken as a symmetric matrix. *)
Definition getSymInverse33 (m : t) : t :=
  let det := Vec3.dot (ex m) (Vec3.cross (ey m) (ez m)) in
  let det := if Math.neqb det 0 then 1 / det else det in
  let a11 := Vec3.x (ex m) in
  let a12 := Vec3.x (ey m) in
  let a13 := Vec3.x (ez m) in
  let a22 := Vec3.y (ey m) in
  let a23 := Vec3.y (ez m) in
  let a33 := Vec3.z (ez m) in
  let ex_x := det * (a22 * a33 - a23 * a23) in
  let ex_y := det * (a13 * a23 - a12 * a33) in
  let ex_z := det * (a12 * a23 - a13 * a22) in
  let ey_x := ex_y in
  let ey_y := det * (a11 * a33 - a13 * a13) in
  let ey_z := det * (a13 * a12 - a11 * a23) in
  let ez_x := ex_z in
  let ez_y := ey_z in
  let ez_z := det * (a11 * a22 - a12 * a12) in
  mk (Vec3.neo ex_x ex_y ex_z) (Vec3.neo ey_x ey_y ey_z)
     (Vec3.neo ez_x ez_y ez_z).

End Mat33.

(** ** Narrow phase: two circles *)

(** Modelled from the spec: [collision/Manifold] is not part of the
    sources; the fields are those of its API page and of the spec's data
    model.  [points] is the fixed array of two points a manifold is
    created with. *)
Module Manifold.

Inductive ManifoldType : Type := e_circles | e_faceA | e_faceB.
Inductive ContactFeatureType : Type := e_vertex | e_face.

Record ContactFeature : Type := mkContactFeature {
  indexA : nat;
  indexB : nat;
  typeA : ContactFeatureType;
  typeB : ContactFeatureType
}.

Record ManifoldPoint : Type := mkManifoldPoint {
  mp_localPoint : Vec2.t;
  normalImpulse : R;
  tangentImpulse : R;
  id : ContactFeature
}.

Record t : Type := mk {
  type : ManifoldType;
  localNormal : Vec2.t;
  localPoint : Vec2.t;
  points : ManifoldPoint * ManifoldPoint;
  pointCount : nat
}.

Definition set_pointCount (n : nat) (m : t) : t :=
  mk (type m) (localNormal m) (localPoint m) (points m) n.

End Manifold.

(** The fields of a circle shape [CollideCircles] reads. *)
Module CircleShape.

Record t : Type := mk { m_p : Vec2.t; m_radius : R }.

End CircleShape.

(** [CollideCircles(manifold, circleA, xfA, circleB, xfB)]: the manifold
    after the call.  The numbers are reals here, which serves for what
    the routine leaves alone and for the symmetry of its test;
    [Binary64.CollideCircles] below is the routine on the numbers the
    engine computes with, where the test compares rounded values. *)
Definition CollideCircles (manifold : Manifold.t)
    (circleA : CircleShape.t) (xfA : Transform.t)
    (circleB : CircleShape.t) (xfB : Transform.t) : Manifold.t :=
  let manifold := Manifold.set_pointCount 0 manifold in
  let pA := Transform.mulVec2 xfA (CircleShape.m_p circleA) in
  let pB := Transform.mulVec2 xfB (CircleShape.m_p circleB) in
  let distSqr := Vec2.distanceSquared pB pA in
  let rA := CircleShape.m_radius circleA in
  let rB := CircleShape.m_radius circleB in
  let radius := rA + rB in
  if Math.gtb distSqr (radius * radius) then manifold
  else
    let p0 := fst (Manifold.points manifold) in
    let p0 :=
      Manifold.mkManifoldPoint (CircleShape.m_p circleB)
        (Manifold.normalImpulse p0) (Manifold.tangentImpulse p0)
        (Manifold.mkContactFeature 0 0 Manifold.e_vertex Manifold.e_vertex) in
    Manifold.mk Manifold.e_circles Vec2.zero (CircleShape.m_p circleA)
      (p0, snd (Manifold.points manifold)) 1.

(** ** Two circles, on the numbers the engine computes with

    A JavaScript number is an IEEE 754 binary64 value and its [+], [-]
    and [*] round to nearest, ties to even; these are the kernel's
    primitive floats and their operations.  [x > y] is false when either
    side is NaN.  This is [CollideCircles] again, operation for operation,
    on those numbers. *)
Module Binary64.

Import PrimFloat.
Local Open Scope float_scope.

(** [x > y]. *)
Definition gtb (x y : float) : bool := ltb y x.

(** The real number a finite binary64 value stands for. *)
Definition exact (x : float) : option R :=
  match FloatOps.Prim2SF x with
  | SpecFloat.S754_zero _ => Some 0%R
  | SpecFloat.S754_finite s m e =>
      Some ((if s then -1 else 1) * IZR (Zpos m) * powerRZ 2 e)%R
  | SpecFloat.S754_infinity _ | SpecFloat.S754_nan => None
  end.

(** Modelled from the spec: [common/Vec2] is not part of the sources.
    The two operations [CollideCircles] needs. *)
Module Vec2.

Record t : Type := neo { x : float; y : float }.

Definition zero : t := neo 0 0.
Definition distanceSquared (v w : t) : float :=
  let dx := x v - x w in
  let dy := y v - y w in
  dx * dx + dy * dy.
Definition distance (v w : t) : float :=
  let dx := x v - x w in
  let dy := y v - y w in
  sqrt (dx * dx + dy * dy).

End Vec2.

(** Modelled from the spec: [common/Rot] is not part of the sources.  A
    rotation is the sine and cosine of its angle. *)
Module Rot.
Record t : Type := mk { s : float; c : float }.
End Rot.

(** Modelled from the spec: [common/Transform] is not part of the sources.
    A translation and a rotation, mapping the local frame to the world;
    [mulVec2] rotates, then translates. *)
Module Transform.

Record t : Type := mk { p : Vec2.t; q : Rot.t }.

Definition mulVec2 (a : t) (b : Vec2.t) : Vec2.t :=
  Vec2.neo
    (Rot.c (q a) * Vec2.x b - Rot.s (q a) * Vec2.y b + Vec2.x (p a))
    (Rot.s (q a) * Vec2.x b + Rot.c (q a) * Vec2.y b + Vec2.y (p a)).

End Transform.

(** Modelled from the spec: [collision/Manifold] is not part of the
    sources; the fields are those of [Manifold] above, the numbers in
    binary64. *)
Module Manifold.

Inductive ManifoldType : Type := e_circles | e_faceA | e_faceB.
Inductive ContactFeatureType : Type := e_vertex | e_face.

Record ContactFeature : Type := mkContactFeature {
  indexA : nat;
  indexB : nat;
  typeA : ContactFeatureType;
  typeB : ContactFeatureType
}.

Record ManifoldPoint : Type := mkManifoldPoint {
  mp_localPoint : Vec2.t;
  normalImpulse : float;
  tangentImpulse : float;
  id : ContactFeature
}.

Record t : Type := mk {
  type : ManifoldType;
  localNormal : Vec2.t;
  localPoint : Vec2.t;
  points : ManifoldPoint * ManifoldPoint;
  pointCount : nat
}.

Definition set_pointCount (n : nat) (m : t) : t :=
  mk (type m) (localNormal m) (localPoint m) (points m) n.

End Manifold.

(** The fields of a circle shape [CollideCircles] reads. *)
Module CircleShape.
Record t : Type := mk { m_p : Vec2.t; m_radius : float }.
End CircleShape.

(** [CollideCircles(manifold, circleA, xfA, circleB, xfB)]: the manifold
    after the call. *)
Definition CollideCircles (manifold : Manifold.t)
    (circleA : CircleShape.t) (xfA : Transform.t)
    (circleB : CircleShape.t) (xfB : Transform.t) : Manifold.t :=
  let manifold := Manifold.set_pointCount 0 manifold in
  let pA := Transform.mulVec2 xfA (CircleShape.m_p circleA) in
  let pB := Transform.mulVec2 xfB (CircleShape.m_p circleB) in
  let distSqr := Vec2.distanceSquared pB pA in
  let rA := CircleShape.m_radius circleA in
  let rB := CircleShape.m_radius circleB in
  let radius := rA + rB in
  if gtb distSqr (radius * radius) then manifold
  else
    let p0 := fst (Manifold.points manifold) in
    let p0 :=
      Manifold.mkManifoldPoint (CircleShape.m_p circleB)
        (Manifold.normalImpulse p0) (Manifold.tangentImpulse p0)
        (Manifold.mkContactFeature 0 0 Manifold.e_vertex Manifold.e_vertex) in
    Manifold.mk Manifold.e_circles Vec2.zero (CircleShape.m_p circleA)
      (p0, snd (Manifold.points manifold)) 1.

(** Concrete values: the identity transform, a manifold a contact starts
    with, a circle of radius 1/2 at the origin, one at [(1, 2^-30)] and
    one at [(1, 2^-26)], a unit circle at the origin and one at
    [(1.5, 0)]. *)
Module Example.

Definition tiny : float := 0x1p-30.
Definition small : float := 0x1p-26.
Definition half : float := 0.5.
Definition one : float := 1.

Definition xf_identity : Transform.t :=
  Transform.mk (Vec2.neo 0 0) (Rot.mk 0 1).

Definition manifold : Manifold.t :=
  let p :=
    Manifold.mkManifoldPoint Vec2.zero 0 0
      (Manifold.mkContactFeature 0 0 Manifold.e_vertex Manifold.e_vertex) in
  Manifold.mk Manifold.e_faceA Vec2.zero Vec2.zero (p, p) 2.

Definition circleA : CircleShape.t := CircleShape.mk (Vec2.neo 0 0) half.
Definition circleB : CircleShape.t := CircleShape.mk (Vec2.neo one tiny) half.
Definition circleC : CircleShape.t := CircleShape.mk (Vec2.neo one small) half.

Definition unit_circle : CircleShape.t := CircleShape.mk (Vec2.neo 0 0) 1.
Definition unit_circle_near : CircleShape.t := CircleShape.mk (Vec2.neo 1.5 0) 1.

End Example.

End Binary64.

(** ** Bodies, the body table, the time step, the settings *)

(** The working position and velocity of a body during a step
    ([body.c_position], [body.c_velocity]) and the part of its sweep the
    joints read. *)
Module Position.
Record t : Type := mk { c : Vec2.t; a : R }.
End Position.

Module Velocity.
Record t : Type := mk { v : Vec2.t; w : R }.
End Velocity.

Module Sweep.
Record t : Type := mk { localCenter : Vec2.t; c : Vec2.t; a : R }.
End Sweep.

(** Modelled from the spec: [dynamics/Body] is not part of the sources.
    The fields are those the joints read and write; [getWorldPoint] and
    [getLocalPoint] map through the body's transform; [setAwake(true)]
    wakes the body. *)
Module Body.

Record t : Type := mk {
  m_awakeFlag : bool;
  m_xf : Transform.t;
  m_sweep : Sweep.t;
  m_invMass : R;
  m_invI : R;
  c_position : Position.t;
  c_velocity : Velocity.t
}.

Definition getWorldPoint (b : t) (localPoint : Vec2.t) : Vec2.t :=
  Transform.mulVec2 (m_xf b) localPoint.
Definition getLocalPoint (b : t) (worldPoint : Vec2.t) : Vec2.t :=
  Transform.mulTVec2 (m_xf b) worldPoint.

Definition setAwake (flag : bool) (b : t) : t :=
  mk flag (m_xf b) (m_sweep b) (m_invMass b) (m_invI b)
     (c_position b) (c_velocity b).

(** Writes to [c_velocity.v] (in place), [c_velocity.w],
    [c_position.c] (in place) and [c_position.a]. *)
Definition with_v (f : Vec2.t -> Vec2.t) (b : t) : t :=
  mk (m_awakeFlag b) (m_xf b) (m_sweep b) (m_invMass b) (m_invI b)
     (c_position b)
     (Velocity.mk (f (Velocity.v (c_velocity b))) (Velocity.w (c_velocity b))).
Definition set_w (w : R) (b : t) : t :=
  mk (m_awakeFlag b) (m_xf b) (m_sweep b) (m_invMass b) (m_invI b)
     (c_position b)
     (Velocity.mk (Velocity.v (c_velocity b)) w).
Definition with_c (f : Vec2.t -> Vec2.t) (b : t) : t :=
  mk (m_awakeFlag b) (m_xf b) (m_sweep b) (m_invMass b) (m_invI b)
     (Position.mk (f (Position.c (c_position b))) (Position.a (c_position b)))
     (c_velocity b).
Definition set_a (a : R) (b : t) : t :=
  mk (m_awakeFlag b) (m_xf b) (m_sweep b) (m_invMass b) (m_invI b)
     (Position.mk (Position.c (c_position b)) a)
     (c_velocity b).

(** [getAngle()]: the angle of the sweep. *)
Definition getAngle (b : t) : R := Sweep.a (m_sweep b).

End Body.

(** The bodies of the world, by key.  A joint refers to its two bodies by
    key, as the source does by reference: two joints, or the two ends of
    one joint, that name the same key share the body. *)
Definition World : Type := nat -> Body.t.

Definition update (W : World) (b : nat) (f : Body.t -> Body.t) : World :=
  fun b' => if Nat.eqb b' b then f (W b') else W b'.

(** Modelled from the spec: the time step of [dynamics/Solver], not part
    of the sources; the fields the joints read. *)
Module TimeStep.
Record t : Type := mk {
  dt : R;
  inv_dt : R;
  dtRatio : R;
  warmStarting : bool
}.
End TimeStep.

(** Modelled from the spec: [Settings] is not part of the sources (only
    its declaration file is); the tuning constants the joints read.  The
    joints below take them as a parameter. *)
Module Settings.
Record t : Type := mk {
  linearSlop : R;
  angularSlop : R;
  maxLinearCorrection : R;
  maxAngularCorrection : R
}.
End Settings.

(** What a call that can throw does: it returns, or it throws; or it
    returns with a field that is not a finite number ([undefined], [NaN],
    an infinity), which the reals of this model do not represent. *)
Inductive Error : Type := AssertionError | TypeError.

Inductive Outcome (A : Type) : Type :=
| Returns (a : A)
| Throws (e : Error)
| NotFinite.
Arguments Returns {A} a.
Arguments Throws {A} e.
Arguments NotFinite {A}.

Definition bind {A B : Type} (o : Outcome A) (k : A -> Outcome B) : Outcome B :=
  match o with
  | Returns a => k a
  | Throws e => Throws e
  | NotFinite => NotFinite
  end.

(** [_ASSERT && common.assert(statement)]: with the checks compiled in, a
    false statement throws; without them nothing is evaluated. *)
Definition common_assert (ASSERT : bool) (statement : bool) : Outcome unit :=
  if ASSERT then (if statement then Returns tt else Throws AssertionError)
  else Returns tt.

(** [Vec2.normalize()] in place: the length returned and the new value of
    the vector, which a length below [Math.EPSILON] leaves as it is. *)
Definition Vec2_normalize (EPSILON : R) (v : Vec2.t) : R * Vec2.t :=
  let length := Vec2.length v in
  if Math.ltb length EPSILON then (0, v)
  else
    let invLength := 1 / length in
    (length, Vec2.neo (Vec2.x v * invLength) (Vec2.y v * invLength)).

(** ** The distance joint *)

Module DistanceJoint.

(** [DistanceJointDef]: every field optional ([None] is [undefined]). *)
Record Def : Type := mkDef {
  frequencyHz : option R;
  dampingRatio : option R;
  length : JsValue.t;
  localAnchorA : option Vec2.t;
  localAnchorB : option Vec2.t
}.

(** The joint: the two bodies of the base class [Joint], the fields the
    solver shares across steps, and the fields [initVelocityConstraints]
    assigns for the step. *)
Record t : Type := mk {
  m_bodyA : nat;
  m_bodyB : nat;
  m_localAnchorA : Vec2.t;
  m_localAnchorB : Vec2.t;
  m_length : R;
  m_frequencyHz : R;
  m_dampingRatio : R;
  m_impulse : R;
  m_gamma : R;
  m_bias : R;
  m_u : Vec2.t;
  m_rA : Vec2.t;
  m_rB : Vec2.t;
  m_localCenterA : Vec2.t;
  m_localCenterB : Vec2.t;
  m_invMassA : R;
  m_invMassB : R;
  m_invIA : R;
  m_invIB : R;
  m_mass : R
}.

(** [const DEFAULTS]. *)
Definition DEFAULTS_frequencyHz : R := 0.
Definition DEFAULTS_dampingRatio : R := 0.

(** [new DistanceJoint(def, bodyA, bodyB, anchorA, anchorB)].  [bodyA]
    and [bodyB] are the bodies the base class (not part of the sources)
    has stored in [m_bodyA] and [m_bodyB]; the arguments are typed, so
    the swap of the pre-0.2 argument order does not apply.  The fields
    of the step, which the constructor leaves unassigned, are given as
    zero; [initVelocityConstraints] assigns them before the solvers read
    them, and no property below reads them off a joint fresh from the
    constructor. *)
Definition new (def : Def) (bodyA bodyB : nat)
    (anchorA anchorB : option Vec2.t) (W : World) : t :=
  let def_frequencyHz :=
    match frequencyHz def with Some f => f | None => DEFAULTS_frequencyHz end in
  let def_dampingRatio :=
    match dampingRatio def with Some d => d | None => DEFAULTS_dampingRatio end in
  let m_localAnchorA :=
    match anchorA with
    | Some anchorA => Body.getLocalPoint (W bodyA) anchorA
    | None => match localAnchorA def with Some l => l | None => Vec2.zero end
    end in
  let m_localAnchorB :=
    match anchorB with
    | Some anchorB => Body.getLocalPoint (W bodyB) anchorB
    | None => match localAnchorB def with Some l => l | None => Vec2.zero end
    end in
  let m_length :=
    match length def with
    | JsValue.Num l => l
    | _ => Vec2.distance (Body.getWorldPoint (W bodyA) m_localAnchorA)
                         (Body.getWorldPoint (W bodyB) m_localAnchorB)
    end in
  mk bodyA bodyB m_localAnchorA m_localAnchorB m_length
     def_frequencyHz def_dampingRatio 0 0 0
     Vec2.zero Vec2.zero Vec2.zero Vec2.zero Vec2.zero 0 0 0 0 0.

Definition getLength (j : t) : R := m_length j.

Definition getAnchorA (j : t) (W : World) : Vec2.t :=
  Body.getWorldPoint (W (m_bodyA j)) (m_localAnchorA j).

Definition getAnchorB (j : t) (W : World) : Vec2.t :=
  Body.getWorldPoint (W (m_bodyB j)) (m_localAnchorB j).

Section WithSettings.

Context (Settings : Settings.t) (EPSILON : R).

(** The sum [K] inverted into the effective mass. *)
Definition invMass_of (m_invMassA m_invIA m_invMassB m_invIB : R)
    (m_rA m_rB m_u : Vec2.t) : R :=
  let crAu := Vec2.cross m_rA m_u in
  let crBu := Vec2.cross m_rB m_u in
  m_invMassA + m_invIA * crAu * crAu + m_invMassB + m_invIB * crBu * crBu.

Definition initVelocityConstraints (step : TimeStep.t) (j : t) (W : World)
    : t * World :=
  let m_localCenterA := Sweep.localCenter (Body.m_sweep (W (m_bodyA j))) in
  let m_localCenterB := Sweep.localCenter (Body.m_sweep (W (m_bodyB j))) in
  let m_invMassA := Body.m_invMass (W (m_bodyA j)) in
  let m_invMassB := Body.m_invMass (W (m_bodyB j)) in
  let m_invIA := Body.m_invI (W (m_bodyA j)) in
  let m_invIB := Body.m_invI (W (m_bodyB j)) in

  let cA := Position.c (Body.c_position (W (m_bodyA j))) in
  let aA := Position.a (Body.c_position (W (m_bodyA j))) in
  let wA := Velocity.w (Body.c_velocity (W (m_bodyA j))) in

  let cB := Position.c (Body.c_position (W (m_bodyB j))) in
  let aB := Position.a (Body.c_position (W (m_bodyB j))) in
  let wB := Velocity.w (Body.c_velocity (W (m_bodyB j))) in

  let qA := Rot.neo aA in
  let qB := Rot.neo aB in

  let m_rA := Rot.mulVec2 qA (Vec2.sub (m_localAnchorA j) m_localCenterA) in
  let m_rB := Rot.mulVec2 qB (Vec2.sub (m_localAnchorB j) m_localCenterB) in
  let m_u := Vec2.sub (Vec2.add cB m_rB) (Vec2.add cA m_rA) in

  (* Handle singularity. *)
  let length := Vec2.length m_u in
  let m_u :=
    if Math.gtb length (Settings.linearSlop Settings)
    then Vec2.mul (1 / length) m_u
    else Vec2.neo 0 0 in

  let invMass := invMass_of m_invMassA m_invIA m_invMassB m_invIB m_rA m_rB m_u in

  (* Compute the effective mass matrix. *)
  let m_mass := if Math.neqb invMass 0 then 1 / invMass else 0 in

  let '(m_gamma, m_bias, m_mass) :=
    if Math.gtb (m_frequencyHz j) 0 then
      let C := length - m_length j in
      (* Frequency *)
      let omega := 2 * PI * m_frequencyHz j in
      (* Damping coefficient *)
      let d := 2 * m_mass * m_dampingRatio j * omega in
      (* Spring stiffness *)
      let k := m_mass * omega * omega in
      (* magic formulas *)
      let h := TimeStep.dt step in
      let m_gamma := h * (d + h * k) in
      let m_gamma := if Math.neqb m_gamma 0 then 1 / m_gamma else 0 in
      let m_bias := C * h * k * m_gamma in
      let invMass := invMass + m_gamma in
      (m_gamma, m_bias, if Math.neqb invMass 0 then 1 / invMass else 0)
    else (0, 0, m_mass) in

  let with_fields (m_impulse : R) : t :=
    mk (m_bodyA j) (m_bodyB j) (m_localAnchorA j) (m_localAnchorB j)
       (m_length j) (m_frequencyHz j) (m_dampingRatio j)
       m_impulse m_gamma m_bias m_u m_rA m_rB
       m_localCenterA m_localCenterB
       m_invMassA m_invMassB m_invIA m_invIB m_mass in

  if TimeStep.warmStarting step then
    (* Scale the impulse to support a variable time step. *)
    let m_impulse := m_impulse j * TimeStep.dtRatio step in
    let P := Vec2.mul m_impulse m_u in
    let W := update W (m_bodyA j) (Body.with_v (fun vA => Vec2.subMul vA m_invMassA P)) in
    let wA := wA - m_invIA * Vec2.cross m_rA P in
    let W := update W (m_bodyB j) (Body.with_v (fun vB => Vec2.addMul vB m_invMassB P)) in
    let wB := wB + m_invIB * Vec2.cross m_rB P in
    let W := update W (m_bodyA j) (Body.set_w wA) in
    let W := update W (m_bodyB j) (Body.set_w wB) in
    (with_fields m_impulse, W)
  else
    let m_impulse := 0 in
    let W := update W (m_bodyA j) (Body.set_w wA) in
    let W := update W (m_bodyB j) (Body.set_w wB) in
    (with_fields m_impulse, W).

(** The error the position solver corrects: the distance between the
    anchors at the working positions less the length of the joint,
    clamped. *)
Definition positionError (j : t) (W : World) : R :=
  let cA := Position.c (Body.c_position (W (m_bodyA j))) in
  let aA := Position.a (Body.c_position (W (m_bodyA j))) in
  let cB := Position.c (Body.c_position (W (m_bodyB j))) in
  let aB := Position.a (Body.c_position (W (m_bodyB j))) in
  let qA := Rot.neo aA in
  let qB := Rot.neo aB in
  let rA := Rot.mulSub qA (m_localAnchorA j) (m_localCenterA j) in
  let rB := Rot.mulSub qB (m_localAnchorB j) (m_localCenterB j) in
  let u := Vec2.sub (Vec2.add cB rB) (Vec2.add cA rA) in
  let length := fst (Vec2_normalize EPSILON u) in
  let C := length - m_length j in
  Math.clamp C (- Settings.maxLinearCorrection Settings)
               (Settings.maxLinearCorrection Settings).

(** Returns whether the position errors are within tolerance. *)
Definition solvePositionConstraints (step : TimeStep.t) (j : t) (W : World)
    : bool * World :=
  if Math.gtb (m_frequencyHz j) 0 then
    (* There is no position correction for soft distance constraints. *)
    (true, W)
  else
    let cA := Position.c (Body.c_position (W (m_bodyA j))) in
    let aA := Position.a (Body.c_position (W (m_bodyA j))) in
    let cB := Position.c (Body.c_position (W (m_bodyB j))) in
    let aB := Position.a (Body.c_position (W (m_bodyB j))) in

    let qA := Rot.neo aA in
    let qB := Rot.neo aB in

    let rA := Rot.mulSub qA (m_localAnchorA j) (m_localCenterA j) in
    let rB := Rot.mulSub qB (m_localAnchorB j) (m_localCenterB j) in
    let u := Vec2.sub (Vec2.add cB rB) (Vec2.add cA rA) in

    let u := snd (Vec2_normalize EPSILON u) in
    let C := positionError j W in

    let impulse := - m_mass j * C in
    let P := Vec2.mul impulse u in

    let W := update W (m_bodyA j) (Body.with_c (fun cA => Vec2.subMul cA (m_invMassA j) P)) in
    let aA := aA - m_invIA j * Vec2.cross rA P in
    let W := update W (m_bodyB j) (Body.with_c (fun cB => Vec2.addMul cB (m_invMassB j) P)) in
    let aB := aB + m_invIB j * Vec2.cross rB P in

    let W := update W (m_bodyA j) (Body.set_a aA) in
    let W := update W (m_bodyB j) (Body.set_a aB) in

    (Math.ltb (Math.abs C) (Settings.linearSlop Settings), W).

(** The arms of the two anchors at the working angles, and the unit
    axis from the anchor on A to the anchor on B at the working
    positions, as [solvePositionConstraints] computes them. *)
Definition positionArms (j : t) (W : World) : Vec2.t * Vec2.t :=
  let aA := Position.a (Body.c_position (W (m_bodyA j))) in
  let aB := Position.a (Body.c_position (W (m_bodyB j))) in
  (Rot.mulSub (Rot.neo aA) (m_localAnchorA j) (m_localCenterA j),
   Rot.mulSub (Rot.neo aB) (m_localAnchorB j) (m_localCenterB j)).


End WithSettings.

(** The assignment to [m_impulse]. *)
Definition set_impulse (impulse : R) (j : t) : t :=
  mk (m_bodyA j) (m_bodyB j) (m_localAnchorA j) (m_localAnchorB j)
     (m_length j) (m_frequencyHz j) (m_dampingRatio j)
     impulse (m_gamma j) (m_bias j) (m_u j) (m_rA j) (m_rB j)
     (m_localCenterA j) (m_localCenterB j)
     (m_invMassA j) (m_invMassB j) (m_invIA j) (m_invIB j) (m_mass j).

(** The assignments of [_setAnchors] and [setLength]. *)
Definition set_anchors (localAnchorA localAnchorB : Vec2.t) (length : R)
    (j : t) : t :=
  mk (m_bodyA j) (m_bodyB j) localAnchorA localAnchorB
     length (m_frequencyHz j) (m_dampingRatio j)
     (m_impulse j) (m_gamma j) (m_bias j) (m_u j) (m_rA j) (m_rB j)
     (m_localCenterA j) (m_localCenterB j)
     (m_invMassA j) (m_invMassB j) (m_invIA j) (m_invIB j) (m_mass j).

(** The argument of [_setAnchors]. *)
Record AnchorsDef : Type := mkAnchorsDef {
  def_anchorA : option Vec2.t;
  def_localAnchorA : option Vec2.t;
  def_anchorB : option Vec2.t;
  def_localAnchorB : option Vec2.t;
  def_length : JsValue.t
}.

(** [_setAnchors(def)].  The last test of the source names [def.anchorA]
    four times. *)
Definition _setAnchors (def : AnchorsDef) (j : t) (W : World) : Outcome t :=
  let localAnchorA :=
    match def_anchorA def with
    | Some anchorA => Body.getLocalPoint (W (m_bodyA j)) anchorA
    | None =>
        match def_localAnchorA def with
        | Some l => l
        | None => m_localAnchorA j
        end
    end in
  let localAnchorB :=
    match def_anchorB def with
    | Some anchorB => Body.getLocalPoint (W (m_bodyB j)) anchorB
    | None =>
        match def_localAnchorB def with
        | Some l => l
        | None => m_localAnchorB j
        end
    end in
  if JsValue.gtb (def_length def) 0 then
    match def_length def with
    | JsValue.Num l => Returns (set_anchors localAnchorA localAnchorB l j)
    | _ => NotFinite
    end
  else if JsValue.ltb (def_length def) 0 then
    (* don't change length *)
    Returns (set_anchors localAnchorA localAnchorB (m_length j) j)
  else
    match def_anchorA def with
    | Some _ =>
        Returns
          (set_anchors localAnchorA localAnchorB
             (Vec2.distance
                (Body.getWorldPoint (W (m_bodyA j)) localAnchorA)
                (Body.getWorldPoint (W (m_bodyB j)) localAnchorB)) j)
    | None => Returns (set_anchors localAnchorA localAnchorB (m_length j) j)
    end.

Definition setLength (length : R) (j : t) : t :=
  set_anchors (m_localAnchorA j) (m_localAnchorB j) length j.

(** Get the reaction force on bodyB at the joint anchor in Newtons. *)
Definition getReactionForce (inv_dt : R) (j : t) : Vec2.t :=
  Vec2.mul inv_dt (Vec2.mul (m_impulse j) (m_u j)).

(** Get the reaction torque on bodyB in N*m. *)
Definition getReactionTorque (inv_dt : R) (j : t) : R := 0.

(** [Cdot = dot(u, v + cross(w, r))] of B less that of A: the velocity
    at which the two anchors part along the axis, at the working
    velocities. *)
Definition Cdot (j : t) (W : World) : R :=
  let vA := Velocity.v (Body.c_velocity (W (m_bodyA j))) in
  let wA := Velocity.w (Body.c_velocity (W (m_bodyA j))) in
  let vB := Velocity.v (Body.c_velocity (W (m_bodyB j))) in
  let wB := Velocity.w (Body.c_velocity (W (m_bodyB j))) in
  let vpA := Vec2.add vA (Vec2.crossNumVec2 wA (m_rA j)) in
  let vpB := Vec2.add vB (Vec2.crossNumVec2 wB (m_rB j)) in
  Vec2.dot (m_u j) vpB - Vec2.dot (m_u j) vpA.

Definition solveVelocityConstraints (step : TimeStep.t) (j : t) (W : World)
    : t * World :=
  let wA := Velocity.w (Body.c_velocity (W (m_bodyA j))) in
  let wB := Velocity.w (Body.c_velocity (W (m_bodyB j))) in

  (* Cdot = dot(u, v + cross(w, r)) *)
  let Cdot := Cdot j W in

  let impulse := - m_mass j * (Cdot + m_bias j + m_gamma j * m_impulse j) in
  let m_impulse := m_impulse j + impulse in

  let P := Vec2.mul impulse (m_u j) in
  let W := update W (m_bodyA j) (Body.with_v (fun vA => Vec2.subMul vA (m_invMassA j) P)) in
  let wA := wA - m_invIA j * Vec2.cross (m_rA j) P in
  let W := update W (m_bodyB j) (Body.with_v (fun vB => Vec2.addMul vB (m_invMassB j) P)) in
  let wB := wB + m_invIB j * Vec2.cross (m_rB j) P in

  let W := update W (m_bodyA j) (Body.set_w wA) in
  let W := update W (m_bodyB j) (Body.set_w wB) in
  (set_impulse m_impulse j, W).

End DistanceJoint.

(** ** The revolute joint *)

Module RevoluteJoint.

(** [const inactiveLimit = 0], [atLowerLimit = 1], [atUpperLimit = 2],
    [equalLimits = 3]. *)
Inductive LimitState : Type :=
| inactiveLimit
| atLowerLimit
| atUpperLimit
| equalLimits.

Definition LimitState_eqb (s s' : LimitState) : bool :=
  match s, s' with
  | inactiveLimit, inactiveLimit
  | atLowerLimit, atLowerLimit
  | atUpperLimit, atUpperLimit
  | equalLimits, equalLimits => true
  | _, _ => false
  end.

Record t : Type := mk {
  m_bodyA : nat;
  m_bodyB : nat;
  m_localAnchorA : Vec2.t;
  m_localAnchorB : Vec2.t;
  m_referenceAngle : R;
  m_impulse : Vec3.t;
  m_motorImpulse : R;
  m_lowerAngle : R;
  m_upperAngle : R;
  m_maxMotorTorque : R;
  m_motorSpeed : R;
  m_enableLimit : bool;
  m_enableMotor : bool;
  m_rA : Vec2.t;
  m_rB : Vec2.t;
  m_localCenterA : Vec2.t;
  m_localCenterB : Vec2.t;
  m_invMassA : R;
  m_invMassB : R;
  m_invIA : R;
  m_invIB : R;
  m_mass : Mat33.t;
  m_motorMass : R;
  m_limitState : LimitState
}.

(** The assignments to the fields that persist across steps. *)
Definition set_limit (enableLimit : bool) (lower upper impulse_z : R) (j : t) : t :=
  mk (m_bodyA j) (m_bodyB j) (m_localAnchorA j) (m_localAnchorB j)
     (m_referenceAngle j)
     (Vec3.neo (Vec3.x (m_impulse j)) (Vec3.y (m_impulse j)) impulse_z)
     (m_motorImpulse j) lower upper (m_maxMotorTorque j) (m_motorSpeed j)
     enableLimit (m_enableMotor j) (m_rA j) (m_rB j)
     (m_localCenterA j) (m_localCenterB j)
     (m_invMassA j) (m_invMassB j) (m_invIA j) (m_invIB j)
     (m_mass j) (m_motorMass j) (m_limitState j).

Definition set_impulses (impulse : Vec3.t) (motorImpulse : R) (j : t) : t :=
  mk (m_bodyA j) (m_bodyB j) (m_localAnchorA j) (m_localAnchorB j)
     (m_referenceAngle j) impulse motorImpulse
     (m_lowerAngle j) (m_upperAngle j) (m_maxMotorTorque j) (m_motorSpeed j)
     (m_enableLimit j) (m_enableMotor j) (m_rA j) (m_rB j)
     (m_localCenterA j) (m_localCenterB j)
     (m_invMassA j) (m_invMassB j) (m_invIA j) (m_invIB j)
     (m_mass j) (m_motorMass j) (m_limitState j).

Definition isLimitEnabled (j : t) : bool := m_enableLimit j.
Definition getLowerLimit (j : t) : R := m_lowerAngle j.
Definition getUpperLimit (j : t) : R := m_upperAngle j.

(** Enable/disable the joint limit. *)
Definition enableLimit (flag : bool) (j : t) (W : World) : t * World :=
  if negb (Bool.eqb flag (m_enableLimit j)) then
    let W := update W (m_bodyA j) (Body.setAwake true) in
    let W := update W (m_bodyB j) (Body.setAwake true) in
    (set_limit flag (m_lowerAngle j) (m_upperAngle j) 0 j, W)
  else (j, W).

Section WithSettings.

Context (Settings : Settings.t) (ASSERT : bool).

(** Set the joint limits in radians. *)
Definition setLimits (lower upper : R) (j : t) (W : World)
    : Outcome (t * World) :=
  bind (common_assert ASSERT (Math.leb lower upper)) (fun _ =>
  if Math.neqb lower (m_lowerAngle j) || Math.neqb upper (m_upperAngle j) then
    let W := update W (m_bodyA j) (Body.setAwake true) in
    let W := update W (m_bodyB j) (Body.setAwake true) in
    Returns (set_limit (m_enableLimit j) lower upper 0 j, W)
  else Returns (j, W)).

(** The limit state and the limit impulse [m_impulse.z] that
    [initVelocityConstraints] leaves, from the joint angle. *)
Definition limitState_of (j : t) (fixedRotation : bool) (aA aB : R)
    : LimitState * R :=
  if m_enableLimit j && Bool.eqb fixedRotation false then
    let jointAngle := aB - aA - m_referenceAngle j in
    if Math.ltb (Math.abs (m_upperAngle j - m_lowerAngle j))
                (2 * Settings.angularSlop Settings) then
      (equalLimits, Vec3.z (m_impulse j))
    else if Math.leb jointAngle (m_lowerAngle j) then
      (atLowerLimit,
       if negb (LimitState_eqb (m_limitState j) atLowerLimit) then 0
       else Vec3.z (m_impulse j))
    else if Math.geb jointAngle (m_upperAngle j) then
      (atUpperLimit,
       if negb (LimitState_eqb (m_limitState j) atUpperLimit) then 0
       else Vec3.z (m_impulse j))
    else (inactiveLimit, 0)
  else (inactiveLimit, Vec3.z (m_impulse j)).

(** The motor impulse [initVelocityConstraints] leaves before it
    warm starts. *)
Definition motorImpulse_of (j : t) (fixedRotation : bool) : R :=
  if Bool.eqb (m_enableMotor j) false || fixedRotation then 0
  else m_motorImpulse j.

Definition initVelocityConstraints (step : TimeStep.t) (j : t) (W : World)
    : t * World :=
  let m_localCenterA := Sweep.localCenter (Body.m_sweep (W (m_bodyA j))) in
  let m_localCenterB := Sweep.localCenter (Body.m_sweep (W (m_bodyB j))) in
  let m_invMassA := Body.m_invMass (W (m_bodyA j)) in
  let m_invMassB := Body.m_invMass (W (m_bodyB j)) in
  let m_invIA := Body.m_invI (W (m_bodyA j)) in
  let m_invIB := Body.m_invI (W (m_bodyB j)) in

  let aA := Position.a (Body.c_position (W (m_bodyA j))) in
  let wA := Velocity.w (Body.c_velocity (W (m_bodyA j))) in

  let aB := Position.a (Body.c_position (W (m_bodyB j))) in
  let wB := Velocity.w (Body.c_velocity (W (m_bodyB j))) in

  let qA := Rot.neo aA in
  let qB := Rot.neo aB in

  let m_rA := Rot.mulVec2 qA (Vec2.sub (m_localAnchorA j) m_localCenterA) in
  let m_rB := Rot.mulVec2 qB (Vec2.sub (m_localAnchorB j) m_localCenterB) in

  let mA := m_invMassA in
  let mB := m_invMassB in
  let iA := m_invIA in
  let iB := m_invIB in

  let fixedRotation := Math.eqb (iA + iB) 0 in

  let ex_x := mA + mB + Vec2.y m_rA * Vec2.y m_rA * iA
              + Vec2.y m_rB * Vec2.y m_rB * iB in
  let ey_x := - Vec2.y m_rA * Vec2.x m_rA * iA
              - Vec2.y m_rB * Vec2.x m_rB * iB in
  let ez_x := - Vec2.y m_rA * iA - Vec2.y m_rB * iB in
  let ex_y := ey_x in
  let ey_y := mA + mB + Vec2.x m_rA * Vec2.x m_rA * iA
              + Vec2.x m_rB * Vec2.x m_rB * iB in
  let ez_y := Vec2.x m_rA * iA + Vec2.x m_rB * iB in
  let ex_z := ez_x in
  let ey_z := ez_y in
  let ez_z := iA + iB in
  let m_mass :=
    Mat33.mk (Vec3.neo ex_x ex_y ex_z) (Vec3.neo ey_x ey_y ey_z)
             (Vec3.neo ez_x ez_y ez_z) in

  let m_motorMass := iA + iB in
  let m_motorMass :=
    if Math.gtb m_motorMass 0 then 1 / m_motorMass else m_motorMass in

  let m_motorImpulse := motorImpulse_of j fixedRotation in

  let '(m_limitState, impulse_z) := limitState_of j fixedRotation aA aB in
  let m_impulse :=
    Vec3.neo (Vec3.x (m_impulse j)) (Vec3.y (m_impulse j)) impulse_z in

  let with_fields (m_impulse : Vec3.t) (m_motorImpulse : R) : t :=
    mk (m_bodyA j) (m_bodyB j) (m_localAnchorA j) (m_localAnchorB j)
       (m_referenceAngle j) m_impulse m_motorImpulse
       (m_lowerAngle j) (m_upperAngle j) (m_maxMotorTorque j) (m_motorSpeed j)
       (m_enableLimit j) (m_enableMotor j) m_rA m_rB
       m_localCenterA m_localCenterB
       m_invMassA m_invMassB m_invIA m_invIB
       m_mass m_motorMass m_limitState in

  if TimeStep.warmStarting step then
    (* Scale impulses to support a variable time step. *)
    let m_impulse := Vec3.mul (TimeStep.dtRatio step) m_impulse in
    let m_motorImpulse := m_motorImpulse * TimeStep.dtRatio step in

    let P := Vec2.neo (Vec3.x m_impulse) (Vec3.y m_impulse) in

    let W := update W (m_bodyA j) (Body.with_v (fun vA => Vec2.subMul vA mA P)) in
    let wA := wA - iA * (Vec2.cross m_rA P + m_motorImpulse + Vec3.z m_impulse) in

    let W := update W (m_bodyB j) (Body.with_v (fun vB => Vec2.addMul vB mB P)) in
    let wB := wB + iB * (Vec2.cross m_rB P + m_motorImpulse + Vec3.z m_impulse) in

    let W := update W (m_bodyA j) (Body.set_w wA) in
    let W := update W (m_bodyB j) (Body.set_w wB) in
    (with_fields m_impulse m_motorImpulse, W)
  else
    let W := update W (m_bodyA j) (Body.set_w wA) in
    let W := update W (m_bodyB j) (Body.set_w wB) in
    (with_fields Vec3.zero 0, W).

(** "Solve motor constraint": the motor impulse and the two angular
    velocities after it. *)
Definition solveMotor (step : TimeStep.t) (j : t) (fixedRotation : bool)
    (wA wB : R) : R * R * R :=
  if m_enableMotor j && negb (LimitState_eqb (m_limitState j) equalLimits)
     && Bool.eqb fixedRotation false then
    let Cdot := wB - wA - m_motorSpeed j in
    let impulse := - m_motorMass j * Cdot in
    let oldImpulse := m_motorImpulse j in
    let maxImpulse := TimeStep.dt step * m_maxMotorTorque j in
    let m_motorImpulse :=
      Math.clamp (m_motorImpulse j + impulse) (- maxImpulse) maxImpulse in
    let impulse := m_motorImpulse - oldImpulse in
    (m_motorImpulse, wA - m_invIA j * impulse, wB + m_invIB j * impulse)
  else (m_motorImpulse j, wA, wB).

(** The velocity of the anchor on B relative to the anchor on A. *)
Definition pointCdot (j : t) (vA : Vec2.t) (wA : R) (vB : Vec2.t) (wB : R)
    : Vec2.t :=
  let Cdot := Vec2.zero in
  let Cdot := Vec2.addCombine Cdot 1 vB 1 (Vec2.crossNumVec2 wB (m_rB j)) in
  Vec2.subCombine Cdot 1 vA 1 (Vec2.crossNumVec2 wA (m_rA j)).

(** The branch of "Solve limit constraint" that gives up the limit
    impulse: the point impulse from the 2-by-2 block, the limit
    impulse cancelled. *)
Definition reducedImpulse (j : t) (Cdot1 : Vec2.t) : Vec3.t * Vec3.t :=
  let rhs :=
    Vec2.combine (-1) Cdot1 (Vec3.z (m_impulse j))
      (Vec2.neo (Vec3.x (Mat33.ez (m_mass j))) (Vec3.y (Mat33.ez (m_mass j)))) in
  let reduced := Mat33.solve22 (m_mass j) rhs in
  (Vec3.neo (Vec2.x reduced) (Vec2.y reduced) (- Vec3.z (m_impulse j)),
   Vec3.neo (Vec3.x (m_impulse j) + Vec2.x reduced)
            (Vec3.y (m_impulse j) + Vec2.y reduced) 0).

(** "Solve limit constraint": the impulse to apply and the new
    accumulated impulse. *)
Definition solveLimit (j : t) (Cdot1 : Vec2.t) (Cdot2 : R)
    : Vec3.t * Vec3.t :=
  let Cdot := Vec3.neo (Vec2.x Cdot1) (Vec2.y Cdot1) Cdot2 in
  let impulse := Vec3.neg (Mat33.solve33 (m_mass j) Cdot) in
  match m_limitState j with
  | equalLimits => (impulse, Vec3.add (m_impulse j) impulse)
  | atLowerLimit =>
      let newImpulse := Vec3.z (m_impulse j) + Vec3.z impulse in
      if Math.ltb newImpulse 0 then reducedImpulse j Cdot1
      else (impulse, Vec3.add (m_impulse j) impulse)
  | atUpperLimit =>
      let newImpulse := Vec3.z (m_impulse j) + Vec3.z impulse in
      if Math.gtb newImpulse 0 then reducedImpulse j Cdot1
      else (impulse, Vec3.add (m_impulse j) impulse)
  | inactiveLimit => (impulse, m_impulse j)
  end.

(** "Solve point-to-point constraint": the impulse to apply. *)
Definition solvePoint (j : t) (Cdot : Vec2.t) : Vec2.t :=
  Mat33.solve22 (m_mass j) (Vec2.neg Cdot).

Definition solveVelocityConstraints (step : TimeStep.t) (j : t) (W : World)
    : t * World :=
  let vA := Velocity.v (Body.c_velocity (W (m_bodyA j))) in
  let wA := Velocity.w (Body.c_velocity (W (m_bodyA j))) in
  let vB := Velocity.v (Body.c_velocity (W (m_bodyB j))) in
  let wB := Velocity.w (Body.c_velocity (W (m_bodyB j))) in

  let mA := m_invMassA j in
  let mB := m_invMassB j in
  let iA := m_invIA j in
  let iB := m_invIB j in

  let fixedRotation := Math.eqb (iA + iB) 0 in

  (* Solve motor constraint. *)
  let '(m_motorImpulse, wA, wB) := solveMotor step j fixedRotation wA wB in

  (* Solve limit constraint. *)
  if m_enableLimit j && negb (LimitState_eqb (m_limitState j) inactiveLimit)
     && Bool.eqb fixedRotation false then
    let Cdot1 := pointCdot j vA wA vB wB in
    let Cdot2 := wB - wA in
    let '(impulse, m_impulse) := solveLimit j Cdot1 Cdot2 in

    let P := Vec2.neo (Vec3.x impulse) (Vec3.y impulse) in

    let W := update W (m_bodyA j) (Body.with_v (fun vA => Vec2.subMul vA mA P)) in
    let wA := wA - iA * (Vec2.cross (m_rA j) P + Vec3.z impulse) in

    let W := update W (m_bodyB j) (Body.with_v (fun vB => Vec2.addMul vB mB P)) in
    let wB := wB + iB * (Vec2.cross (m_rB j) P + Vec3.z impulse) in

    let W := update W (m_bodyA j) (Body.set_w wA) in
    let W := update W (m_bodyB j) (Body.set_w wB) in
    (set_impulses m_impulse m_motorImpulse j, W)
  else
    (* Solve point-to-point constraint *)
    let Cdot := pointCdot j vA wA vB wB in
    let impulse := solvePoint j Cdot in

    let m_impulse :=
      Vec3.neo (Vec3.x (m_impulse j) + Vec2.x impulse)
               (Vec3.y (m_impulse j) + Vec2.y impulse)
               (Vec3.z (m_impulse j)) in

    let W := update W (m_bodyA j) (Body.with_v (fun vA => Vec2.subMul vA mA impulse)) in
    let wA := wA - iA * Vec2.cross (m_rA j) impulse in

    let W := update W (m_bodyB j) (Body.with_v (fun vB => Vec2.addMul vB mB impulse)) in
    let wB := wB + iB * Vec2.cross (m_rB j) impulse in

    let W := update W (m_bodyA j) (Body.set_w wA) in
    let W := update W (m_bodyB j) (Body.set_w wB) in
    (set_impulses m_impulse m_motorImpulse j, W).

(** The angular error [C] the limit corrects, after its clamp, and the
    [angularError] reported, from the joint angle. *)
Definition angularCorrection (j : t) (angle : R) : R * R :=
  match m_limitState j with
  | equalLimits =>
      (* Prevent large angular corrections *)
      let C :=
        Math.clamp (angle - m_lowerAngle j)
          (- Settings.maxAngularCorrection Settings)
          (Settings.maxAngularCorrection Settings) in
      (C, Math.abs C)
  | atLowerLimit =>
      let C := angle - m_lowerAngle j in
      let angularError := - C in
      (* Prevent large angular corrections and allow some slop. *)
      let C :=
        Math.clamp (C + Settings.angularSlop Settings)
          (- Settings.maxAngularCorrection Settings) 0 in
      (C, angularError)
  | atUpperLimit =>
      let C := angle - m_upperAngle j in
      let angularError := C in
      (* Prevent large angular corrections and allow some slop. *)
      let C :=
        Math.clamp (C - Settings.angularSlop Settings) 0
          (Settings.maxAngularCorrection Settings) in
      (C, angularError)
  | inactiveLimit => (0, 0)
  end.

(** "Solve angular limit constraint": the two angles after it and the
    angular error. *)
Definition solveAngularLimit (j : t) (aA aB : R) : R * R * R :=
  let fixedRotation := Math.eqb (m_invIA j + m_invIB j) 0 in
  if m_enableLimit j && negb (LimitState_eqb (m_limitState j) inactiveLimit)
     && Bool.eqb fixedRotation false then
    let angle := aB - aA - m_referenceAngle j in
    let '(C, angularError) := angularCorrection j angle in
    let limitImpulse := - m_motorMass j * C in
    (aA - m_invIA j * limitImpulse, aB + m_invIB j * limitImpulse, angularError)
  else (aA, aB, 0).

(** Returns whether the position errors are within tolerance. *)
Definition solvePositionConstraints (step : TimeStep.t) (j : t) (W : World)
    : bool * World :=
  let cA := Position.c (Body.c_position (W (m_bodyA j))) in
  let aA := Position.a (Body.c_position (W (m_bodyA j))) in
  let cB := Position.c (Body.c_position (W (m_bodyB j))) in
  let aB := Position.a (Body.c_position (W (m_bodyB j))) in

  (* Solve angular limit constraint. *)
  let '(aA, aB, angularError) := solveAngularLimit j aA aB in

  (* Solve point-to-point constraint. *)
  let qA := Rot.neo aA in
  let qB := Rot.neo aB in
  let rA := Rot.mulVec2 qA (Vec2.sub (m_localAnchorA j) (m_localCenterA j)) in
  let rB := Rot.mulVec2 qB (Vec2.sub (m_localAnchorB j) (m_localCenterB j)) in

  let C := Vec2.zero in
  let C := Vec2.addCombine C 1 cB 1 rB in
  let C := Vec2.subCombine C 1 cA 1 rA in
  let positionError := Vec2.length C in

  let mA := m_invMassA j in
  let mB := m_invMassB j in
  let iA := m_invIA j in
  let iB := m_invIB j in

  let K_ex_x := mA + mB + iA * Vec2.y rA * Vec2.y rA + iB * Vec2.y rB * Vec2.y rB in
  let K_ex_y := - iA * Vec2.x rA * Vec2.y rA - iB * Vec2.x rB * Vec2.y rB in
  let K_ey_x := K_ex_y in
  let K_ey_y := mA + mB + iA * Vec2.x rA * Vec2.x rA + iB * Vec2.x rB * Vec2.x rB in
  let K := Mat22.mk (Vec2.neo K_ex_x K_ex_y) (Vec2.neo K_ey_x K_ey_y) in

  let impulse := Vec2.neg (Mat22.solve K C) in

  let W := update W (m_bodyA j) (Body.with_c (fun cA => Vec2.subMul cA mA impulse)) in
  let aA := aA - iA * Vec2.cross rA impulse in

  let W := update W (m_bodyB j) (Body.with_c (fun cB => Vec2.addMul cB mB impulse)) in
  let aB := aB + iB * Vec2.cross rB impulse in

  let W := update W (m_bodyA j) (Body.set_a aA) in
  let W := update W (m_bodyB j) (Body.set_a aB) in

  (Math.leb positionError (Settings.linearSlop Settings)
   && Math.leb angularError (Settings.angularSlop Settings), W).

End WithSettings.

(** [RevoluteJointDef]: every field optional. *)
Record Def : Type := mkDef {
  lowerAngle : option R;
  upperAngle : option R;
  maxMotorTorque : option R;
  motorSpeed : option R;
  def_enableLimit : option bool;
  def_enableMotor : option bool;
  localAnchorA : option Vec2.t;
  localAnchorB : option Vec2.t;
  referenceAngle : JsValue.t
}.

(** [const DEFAULTS]. *)
Definition DEFAULTS_lowerAngle : R := 0.
Definition DEFAULTS_upperAngle : R := 0.
Definition DEFAULTS_maxMotorTorque : R := 0.
Definition DEFAULTS_motorSpeed : R := 0.
Definition DEFAULTS_enableLimit : bool := false.
Definition DEFAULTS_enableMotor : bool := false.

(** [new RevoluteJoint(def, bodyA, bodyB, anchor)].  [bodyA] and [bodyB]
    are the bodies the base class has stored in [m_bodyA] and [m_bodyB].
    The fields of the step, which the constructor leaves unassigned, are
    given as zero; [initVelocityConstraints] assigns them before the
    solvers read them, and no property below reads them off a joint fresh
    from the constructor. *)
Definition new (def : Def) (bodyA bodyB : nat) (anchor : option Vec2.t)
    (W : World) : t :=
  let or_default {A : Type} (o : option A) (d : A) : A :=
    match o with Some a => a | None => d end in
  let m_localAnchorA :=
    match anchor with
    | Some anchor => Body.getLocalPoint (W bodyA) anchor
    | None => or_default (localAnchorA def) Vec2.zero
    end in
  let m_localAnchorB :=
    match anchor with
    | Some anchor => Body.getLocalPoint (W bodyB) anchor
    | None => or_default (localAnchorB def) Vec2.zero
    end in
  let m_referenceAngle :=
    match referenceAngle def with
    | JsValue.Num a => a
    | _ => Body.getAngle (W bodyB) - Body.getAngle (W bodyA)
    end in
  mk bodyA bodyB m_localAnchorA m_localAnchorB m_referenceAngle
     Vec3.zero 0
     (or_default (lowerAngle def) DEFAULTS_lowerAngle)
     (or_default (upperAngle def) DEFAULTS_upperAngle)
     (or_default (maxMotorTorque def) DEFAULTS_maxMotorTorque)
     (or_default (motorSpeed def) DEFAULTS_motorSpeed)
     (or_default (def_enableLimit def) DEFAULTS_enableLimit)
     (or_default (def_enableMotor def) DEFAULTS_enableMotor)
     Vec2.zero Vec2.zero Vec2.zero Vec2.zero 0 0 0 0
     (Mat33.mk Vec3.zero Vec3.zero Vec3.zero) 0 inactiveLimit.

Definition getReferenceAngle (j : t) : R := m_referenceAngle j.

(** Get the current joint angle in radians. *)
Definition getJointAngle (j : t) (W : World) : R :=
  Sweep.a (Body.m_sweep (W (m_bodyB j)))
  - Sweep.a (Body.m_sweep (W (m_bodyA j)))
  - m_referenceAngle j.

Definition getAnchorA (j : t) (W : World) : Vec2.t :=
  Body.getWorldPoint (W (m_bodyA j)) (m_localAnchorA j).

Definition getAnchorB (j : t) (W : World) : Vec2.t :=
  Body.getWorldPoint (W (m_bodyB j)) (m_localAnchorB j).

(** The assignments to the motor fields. *)
Definition set_motor (enableMotor : bool) (motorSpeed maxMotorTorque : R)
    (j : t) : t :=
  mk (m_bodyA j) (m_bodyB j) (m_localAnchorA j) (m_localAnchorB j)
     (m_referenceAngle j) (m_impulse j) (m_motorImpulse j)
     (m_lowerAngle j) (m_upperAngle j) maxMotorTorque motorSpeed
     (m_enableLimit j) enableMotor (m_rA j) (m_rB j)
     (m_localCenterA j) (m_localCenterB j)
     (m_invMassA j) (m_invMassB j) (m_invIA j) (m_invIB j)
     (m_mass j) (m_motorMass j) (m_limitState j).

Definition isMotorEnabled (j : t) : bool := m_enableMotor j.

(** Enable/disable the joint motor. *)
Definition enableMotor (flag : bool) (j : t) (W : World) : t * World :=
  let W := update W (m_bodyA j) (Body.setAwake true) in
  let W := update W (m_bodyB j) (Body.setAwake true) in
  (set_motor flag (m_motorSpeed j) (m_maxMotorTorque j) j, W).

(** Get the current motor torque given the inverse time step. *)
Definition getMotorTorque (inv_dt : R) (j : t) : R :=
  inv_dt * m_motorImpulse j.

(** Set the motor speed in radians per second. *)
Definition setMotorSpeed (speed : R) (j : t) (W : World) : t * World :=
  let W := update W (m_bodyA j) (Body.setAwake true) in
  let W := update W (m_bodyB j) (Body.setAwake true) in
  (set_motor (m_enableMotor j) speed (m_maxMotorTorque j) j, W).

Definition getMotorSpeed (j : t) : R := m_motorSpeed j.

(** Set the maximum motor torque, usually in N-m. *)
Definition setMaxMotorTorque (torque : R) (j : t) (W : World) : t * World :=
  let W := update W (m_bodyA j) (Body.setAwake true) in
  let W := update W (m_bodyB j) (Body.setAwake true) in
  (set_motor (m_enableMotor j) (m_motorSpeed j) torque j, W).

Definition getMaxMotorTorque (j : t) : R := m_maxMotorTorque j.

(** Get the reaction force given the inverse time step. *)
Definition getReactionForce (inv_dt : R) (j : t) : Vec2.t :=
  Vec2.mul inv_dt (Vec2.neo (Vec3.x (m_impulse j)) (Vec3.y (m_impulse j))).

(** Get the reaction torque due to the joint limit given the inverse
    time step. *)
Definition getReactionTorque (inv_dt : R) (j : t) : R :=
  inv_dt * Vec3.z (m_impulse j).

End RevoluteJoint.

(** ** The pulley joint *)

Module PulleyJoint.

(** [PulleyJointDef]: every field optional ([None] and
    [JsValue.undefined] are [undefined]). *)
Record Def : Type := mkDef {
  groundAnchorA : option Vec2.t;
  groundAnchorB : option Vec2.t;
  localAnchorA : option Vec2.t;
  localAnchorB : option Vec2.t;
  lengthA : JsValue.t;
  lengthB : JsValue.t;
  ratio : JsValue.t
}.

Record t : Type := mk {
  m_bodyA : nat;
  m_bodyB : nat;
  m_groundAnchorA : Vec2.t;
  m_groundAnchorB : Vec2.t;
  m_localAnchorA : Vec2.t;
  m_localAnchorB : Vec2.t;
  m_lengthA : R;
  m_lengthB : R;
  m_ratio : R;
  m_constant : R;
  m_impulse : R;
  m_uA : Vec2.t;
  m_uB : Vec2.t;
  m_rA : Vec2.t;
  m_rB : Vec2.t;
  m_localCenterA : Vec2.t;
  m_localCenterB : Vec2.t;
  m_invMassA : R;
  m_invMassB : R;
  m_invIA : R;
  m_invIB : R;
  m_mass : R
}.

(** [Vec2.distance(v, w)] of two optional arguments: reading a
    coordinate of [undefined] throws. *)
Definition distance_opt (v w : option Vec2.t) : Outcome R :=
  match v, w with
  | Some v, Some w => Returns (Vec2.distance v w)
  | _, _ => Throws TypeError
  end.

(** A value stored in a field of the joint that holds a number. *)
Definition finite (x : JsValue.t) : Outcome R :=
  match x with
  | JsValue.Num r => Returns r
  | _ => NotFinite
  end.

Section WithSettings.

Context (Settings : Settings.t) (EPSILON : R) (ASSERT : bool).

(** [new PulleyJoint(def, bodyA, bodyB, groundA, groundB, anchorA,
    anchorB, ratio)].  [bodyA] and [bodyB] are the bodies the base
    class (not part of the sources) has stored in [m_bodyA] and
    [m_bodyB].  The fields of the step, which the constructor leaves
    unassigned, are given as zero; [initVelocityConstraints] assigns them
    before the solvers read them, and no property below reads them off a
    joint fresh from the constructor. *)
Definition new (def : Def) (bodyA bodyB : nat)
    (groundA groundB anchorA anchorB : option Vec2.t) (ratio : JsValue.t)
    (W : World) : Outcome t :=
  let m_groundAnchorA :=
    match groundA with
    | Some groundA => groundA
    | None => match groundAnchorA def with Some g => g | None => Vec2.neo (-1) 1 end
    end in
  let m_groundAnchorB :=
    match groundB with
    | Some groundB => groundB
    | None => match groundAnchorB def with Some g => g | None => Vec2.neo 1 1 end
    end in
  let m_localAnchorA :=
    match anchorA with
    | Some anchorA => Body.getLocalPoint (W bodyA) anchorA
    | None => match localAnchorA def with Some l => l | None => Vec2.neo (-1) 0 end
    end in
  let m_localAnchorB :=
    match anchorB with
    | Some anchorB => Body.getLocalPoint (W bodyB) anchorB
    | None => match localAnchorB def with Some l => l | None => Vec2.neo 1 0 end
    end in
  bind (if JsValue.isFinite (lengthA def) then finite (lengthA def)
        else distance_opt anchorA groundA) (fun m_lengthA =>
  bind (if JsValue.isFinite (lengthB def) then finite (lengthB def)
        else distance_opt anchorB groundB) (fun m_lengthB =>
  let m_ratio := if JsValue.isFinite ratio then ratio else PulleyJoint.ratio def in

  bind (common_assert ASSERT (JsValue.gtb ratio EPSILON)) (fun _ =>

  bind (finite m_ratio) (fun m_ratio =>
  let m_constant := m_lengthA + m_ratio * m_lengthB in
  Returns
    (mk bodyA bodyB m_groundAnchorA m_groundAnchorB
        m_localAnchorA m_localAnchorB m_lengthA m_lengthB m_ratio m_constant
        0 Vec2.zero Vec2.zero Vec2.zero Vec2.zero Vec2.zero Vec2.zero
        0 0 0 0 0))))).

Definition getRatio (j : t) : R := m_ratio j.

(** A pulley axis: the segment normalised, or zero when it is
    shorter than ten slops. *)
Definition axis (u : Vec2.t) : Vec2.t :=
  let length := Vec2.length u in
  if Math.gtb length (10 * Settings.linearSlop Settings)
  then Vec2.mul (1 / length) u
  else Vec2.zero.

(** "Compute effective mass": the sum, and the mass it gives. *)
Definition massSum (m_invMassA m_invIA m_invMassB m_invIB m_ratio : R)
    (rA rB uA uB : Vec2.t) : R :=
  let ruA := Vec2.cross rA uA in
  let ruB := Vec2.cross rB uB in
  let mA := m_invMassA + m_invIA * ruA * ruA in
  let mB := m_invMassB + m_invIB * ruB * ruB in
  mA + m_ratio * m_ratio * mB.

Definition massOf (sum : R) : R :=
  if Math.gtb sum 0 then 1 / sum else sum.

Definition initVelocityConstraints (step : TimeStep.t) (j : t) (W : World)
    : t * World :=
  let m_localCenterA := Sweep.localCenter (Body.m_sweep (W (m_bodyA j))) in
  let m_localCenterB := Sweep.localCenter (Body.m_sweep (W (m_bodyB j))) in
  let m_invMassA := Body.m_invMass (W (m_bodyA j)) in
  let m_invMassB := Body.m_invMass (W (m_bodyB j)) in
  let m_invIA := Body.m_invI (W (m_bodyA j)) in
  let m_invIB := Body.m_invI (W (m_bodyB j)) in

  let cA := Position.c (Body.c_position (W (m_bodyA j))) in
  let aA := Position.a (Body.c_position (W (m_bodyA j))) in
  let wA := Velocity.w (Body.c_velocity (W (m_bodyA j))) in

  let cB := Position.c (Body.c_position (W (m_bodyB j))) in
  let aB := Position.a (Body.c_position (W (m_bodyB j))) in
  let wB := Velocity.w (Body.c_velocity (W (m_bodyB j))) in

  let qA := Rot.neo aA in
  let qB := Rot.neo aB in

  let m_rA := Rot.mulVec2 qA (Vec2.sub (m_localAnchorA j) m_localCenterA) in
  let m_rB := Rot.mulVec2 qB (Vec2.sub (m_localAnchorB j) m_localCenterB) in

  (* Get the pulley axes. *)
  let m_uA := axis (Vec2.sub (Vec2.add cA m_rA) (m_groundAnchorA j)) in
  let m_uB := axis (Vec2.sub (Vec2.add cB m_rB) (m_groundAnchorB j)) in

  (* Compute effective mass. *)
  let m_mass :=
    massOf (massSum m_invMassA m_invIA m_invMassB m_invIB (m_ratio j)
                    m_rA m_rB m_uA m_uB) in

  let with_fields (m_impulse : R) : t :=
    mk (m_bodyA j) (m_bodyB j) (m_groundAnchorA j) (m_groundAnchorB j)
       (m_localAnchorA j) (m_localAnchorB j) (m_lengthA j) (m_lengthB j)
       (m_ratio j) (m_constant j) m_impulse m_uA m_uB m_rA m_rB
       m_localCenterA m_localCenterB
       m_invMassA m_invMassB m_invIA m_invIB m_mass in

  if TimeStep.warmStarting step then
    (* Scale impulses to support variable time steps. *)
    let m_impulse := m_impulse j * TimeStep.dtRatio step in

    (* Warm starting. *)
    let PA := Vec2.mul (- m_impulse) m_uA in
    let PB := Vec2.mul (- m_ratio j * m_impulse) m_uB in

    let W := update W (m_bodyA j) (Body.with_v (fun vA => Vec2.addMul vA m_invMassA PA)) in
    let wA := wA + m_invIA * Vec2.cross m_rA PA in

    let W := update W (m_bodyB j) (Body.with_v (fun vB => Vec2.addMul vB m_invMassB PB)) in
    let wB := wB + m_invIB * Vec2.cross m_rB PB in

    let W := update W (m_bodyA j) (Body.set_w wA) in
    let W := update W (m_bodyB j) (Body.set_w wB) in
    (with_fields m_impulse, W)
  else
    let W := update W (m_bodyA j) (Body.set_w wA) in
    let W := update W (m_bodyB j) (Body.set_w wB) in
    (with_fields 0, W).

(** The error the position solver corrects: the constant of the
    pulley less the two segment lengths at the working positions (the
    arms are those [initVelocityConstraints] stored). *)
Definition positionError (j : t) (W : World) : R :=
  let cA := Position.c (Body.c_position (W (m_bodyA j))) in
  let cB := Position.c (Body.c_position (W (m_bodyB j))) in
  let uA := Vec2.sub (Vec2.add cA (m_rA j)) (m_groundAnchorA j) in
  let uB := Vec2.sub (Vec2.add cB (m_rB j)) (m_groundAnchorB j) in
  let lengthA := Vec2.length uA in
  let lengthB := Vec2.length uB in
  m_constant j - lengthA - m_ratio j * lengthB.

(** Returns whether the position errors are within tolerance. *)
Definition solvePositionConstraints (step : TimeStep.t) (j : t) (W : World)
    : bool * World :=
  let cA := Position.c (Body.c_position (W (m_bodyA j))) in
  let aA := Position.a (Body.c_position (W (m_bodyA j))) in
  let cB := Position.c (Body.c_position (W (m_bodyB j))) in
  let aB := Position.a (Body.c_position (W (m_bodyB j))) in

  let qA := Rot.neo aA in
  let qB := Rot.neo aB in

  let rA := Rot.mulVec2 qA (Vec2.sub (m_localAnchorA j) (m_localCenterA j)) in
  let rB := Rot.mulVec2 qB (Vec2.sub (m_localAnchorB j) (m_localCenterB j)) in

  (* Get the pulley axes. *)
  let uA := axis (Vec2.sub (Vec2.add cA (m_rA j)) (m_groundAnchorA j)) in
  let uB := axis (Vec2.sub (Vec2.add cB (m_rB j)) (m_groundAnchorB j)) in

  (* Compute effective mass. *)
  let mass :=
    massOf (massSum (m_invMassA j) (m_invIA j) (m_invMassB j) (m_invIB j)
                    (m_ratio j) rA rB uA uB) in

  let C := positionError j W in
  let linearError := Math.abs C in

  let impulse := - mass * C in

  let PA := Vec2.mul (- impulse) uA in
  let PB := Vec2.mul (- m_ratio j * impulse) uB in

  let W := update W (m_bodyA j) (Body.with_c (fun cA => Vec2.addMul cA (m_invMassA j) PA)) in
  let aA := aA + m_invIA j * Vec2.cross rA PA in
  let W := update W (m_bodyB j) (Body.with_c (fun cB => Vec2.addMul cB (m_invMassB j) PB)) in
  let aB := aB + m_invIB j * Vec2.cross rB PB in

  let W := update W (m_bodyA j) (Body.set_a aA) in
  let W := update W (m_bodyB j) (Body.set_a aB) in

  (Math.ltb linearError (Settings.linearSlop Settings), W).

(** The arms at the working angles, the two pulley axes at the
    working positions and the effective mass, as
    [solvePositionConstraints] computes them. *)
Definition positionArms (j : t) (W : World) : Vec2.t * Vec2.t :=
  let aA := Position.a (Body.c_position (W (m_bodyA j))) in
  let aB := Position.a (Body.c_position (W (m_bodyB j))) in
  (Rot.mulVec2 (Rot.neo aA) (Vec2.sub (m_localAnchorA j) (m_localCenterA j)),
   Rot.mulVec2 (Rot.neo aB) (Vec2.sub (m_localAnchorB j) (m_localCenterB j))).



End WithSettings.

(** The assignment to [m_impulse]. *)
Definition set_impulse (impulse : R) (j : t) : t :=
  mk (m_bodyA j) (m_bodyB j) (m_groundAnchorA j) (m_groundAnchorB j)
     (m_localAnchorA j) (m_localAnchorB j) (m_lengthA j) (m_lengthB j)
     (m_ratio j) (m_constant j) impulse (m_uA j) (m_uB j) (m_rA j) (m_rB j)
     (m_localCenterA j) (m_localCenterB j)
     (m_invMassA j) (m_invMassB j) (m_invIA j) (m_invIB j) (m_mass j).

Definition getLengthA (j : t) : R := m_lengthA j.
Definition getLengthB (j : t) : R := m_lengthB j.

(** Get the current length of the segment attached to bodyA. *)
Definition getCurrentLengthA (j : t) (W : World) : R :=
  let p := Body.getWorldPoint (W (m_bodyA j)) (m_localAnchorA j) in
  let s := m_groundAnchorA j in
  Vec2.distance p s.

(** Get the current length of the segment attached to bodyB. *)
Definition getCurrentLengthB (j : t) (W : World) : R :=
  let p := Body.getWorldPoint (W (m_bodyB j)) (m_localAnchorB j) in
  let s := m_groundAnchorB j in
  Vec2.distance p s.

(** Get the reaction force on bodyB at the joint anchor in Newtons. *)
Definition getReactionForce (inv_dt : R) (j : t) : Vec2.t :=
  Vec2.mul inv_dt (Vec2.mul (m_impulse j) (m_uB j)).

(** [Cdot]: minus the rate at which [lengthA + ratio * lengthB] grows, at
    the working velocities. *)
Definition Cdot (j : t) (W : World) : R :=
  let vA := Velocity.v (Body.c_velocity (W (m_bodyA j))) in
  let wA := Velocity.w (Body.c_velocity (W (m_bodyA j))) in
  let vB := Velocity.v (Body.c_velocity (W (m_bodyB j))) in
  let wB := Velocity.w (Body.c_velocity (W (m_bodyB j))) in
  let vpA := Vec2.add vA (Vec2.crossNumVec2 wA (m_rA j)) in
  let vpB := Vec2.add vB (Vec2.crossNumVec2 wB (m_rB j)) in
  - Vec2.dot (m_uA j) vpA - m_ratio j * Vec2.dot (m_uB j) vpB.

Definition solveVelocityConstraints (step : TimeStep.t) (j : t) (W : World)
    : t * World :=
  let wA := Velocity.w (Body.c_velocity (W (m_bodyA j))) in
  let wB := Velocity.w (Body.c_velocity (W (m_bodyB j))) in

  let Cdot := Cdot j W in
  let impulse := - m_mass j * Cdot in
  let m_impulse := m_impulse j + impulse in

  let PA := Vec2.mul (- impulse) (m_uA j) in
  let PB := Vec2.mul (- m_ratio j * impulse) (m_uB j) in
  let W := update W (m_bodyA j) (Body.with_v (fun vA => Vec2.addMul vA (m_invMassA j) PA)) in
  let wA := wA + m_invIA j * Vec2.cross (m_rA j) PA in
  let W := update W (m_bodyB j) (Body.with_v (fun vB => Vec2.addMul vB (m_invMassB j) PB)) in
  let wB := wB + m_invIB j * Vec2.cross (m_rB j) PB in

  let W := update W (m_bodyA j) (Body.set_w wA) in
  let W := update W (m_bodyB j) (Body.set_w wB) in
  (set_impulse m_impulse j, W).

End PulleyJoint.

(** ** The weld joint *)

Module WeldJoint.

Record t : Type := mk {
  m_bodyA : nat;
  m_bodyB : nat;
  m_localAnchorA : Vec2.t;
  m_localAnchorB : Vec2.t;
  m_referenceAngle : R;
  m_frequencyHz : R;
  m_dampingRatio : R;
  m_impulse : Vec3.t;
  m_bias : R;
  m_gamma : R;
  m_rA : Vec2.t;
  m_rB : Vec2.t;
  m_localCenterA : Vec2.t;
  m_localCenterB : Vec2.t;
  m_invMassA : R;
  m_invMassB : R;
  m_invIA : R;
  m_invIB : R;
  m_mass : Mat33.t
}.

Definition getReferenceAngle (j : t) : R := m_referenceAngle j.

Definition getAnchorA (j : t) (W : World) : Vec2.t :=
  Body.getWorldPoint (W (m_bodyA j)) (m_localAnchorA j).

Definition getAnchorB (j : t) (W : World) : Vec2.t :=
  Body.getWorldPoint (W (m_bodyB j)) (m_localAnchorB j).

(** Get the reaction force on bodyB at the joint anchor in Newtons. *)
Definition getReactionForce (inv_dt : R) (j : t) : Vec2.t :=
  Vec2.mul inv_dt (Vec2.neo (Vec3.x (m_impulse j)) (Vec3.y (m_impulse j))).

(** Get the reaction torque on bodyB in N*m. *)
Definition getReactionTorque (inv_dt : R) (j : t) : R :=
  inv_dt * Vec3.z (m_impulse j).

(** The assignment to [m_impulse]. *)
Definition set_impulse (impulse : Vec3.t) (j : t) : t :=
  mk (m_bodyA j) (m_bodyB j) (m_localAnchorA j) (m_localAnchorB j)
     (m_referenceAngle j) (m_frequencyHz j) (m_dampingRatio j)
     impulse (m_bias j) (m_gamma j) (m_rA j) (m_rB j)
     (m_localCenterA j) (m_localCenterB j)
     (m_invMassA j) (m_invMassB j) (m_invIA j) (m_invIB j) (m_mass j).

(** The matrix [K] of the point and angle constraints, from the arms and
    the inverse masses. *)
Definition K_of (mA mB iA iB : R) (rA rB : Vec2.t) : Mat33.t :=
  let ex_x := mA + mB + Vec2.y rA * Vec2.y rA * iA + Vec2.y rB * Vec2.y rB * iB in
  let ey_x := - Vec2.y rA * Vec2.x rA * iA - Vec2.y rB * Vec2.x rB * iB in
  let ez_x := - Vec2.y rA * iA - Vec2.y rB * iB in
  let ex_y := ey_x in
  let ey_y := mA + mB + Vec2.x rA * Vec2.x rA * iA + Vec2.x rB * Vec2.x rB * iB in
  let ez_y := Vec2.x rA * iA + Vec2.x rB * iB in
  let ex_z := ez_x in
  let ey_z := ez_y in
  let ez_z := iA + iB in
  Mat33.mk (Vec3.neo ex_x ex_y ex_z) (Vec3.neo ey_x ey_y ey_z)
           (Vec3.neo ez_x ez_y ez_z).

(** The effective mass, the softness and the bias
    [initVelocityConstraints] derives from [K]. *)
Definition mass_of (step : TimeStep.t) (j : t) (K : Mat33.t) (iA iB aA aB : R)
    : Mat33.t * R * R :=
  if Math.gtb (m_frequencyHz j) 0 then
    let m_mass := Mat33.getInverse22 K in

    let invM := iA + iB in
    let m := if Math.gtb invM 0 then 1 / invM else 0 in

    let C := aB - aA - m_referenceAngle j in

    (* Frequency *)
    let omega := 2 * PI * m_frequencyHz j in

    (* Damping coefficient *)
    let d := 2 * m * m_dampingRatio j * omega in

    (* Spring stiffness *)
    let k := m * omega * omega in

    (* magic formulas *)
    let h := TimeStep.dt step in
    let m_gamma := h * (d + h * k) in
    let m_gamma := if Math.neqb m_gamma 0 then 1 / m_gamma else 0 in
    let m_bias := C * h * k * m_gamma in

    let invM := invM + m_gamma in
    let ez_z := if Math.neqb invM 0 then 1 / invM else 0 in
    (Mat33.mk (Mat33.ex m_mass) (Mat33.ey m_mass)
       (Vec3.neo (Vec3.x (Mat33.ez m_mass)) (Vec3.y (Mat33.ez m_mass)) ez_z),
     m_gamma, m_bias)
  else if Math.eqb (Vec3.z (Mat33.ez K)) 0 then
    (Mat33.getInverse22 K, 0, 0)
  else
    (Mat33.getSymInverse33 K, 0, 0).

Definition initVelocityConstraints (step : TimeStep.t) (j : t) (W : World)
    : t * World :=
  let m_localCenterA := Sweep.localCenter (Body.m_sweep (W (m_bodyA j))) in
  let m_localCenterB := Sweep.localCenter (Body.m_sweep (W (m_bodyB j))) in
  let m_invMassA := Body.m_invMass (W (m_bodyA j)) in
  let m_invMassB := Body.m_invMass (W (m_bodyB j)) in
  let m_invIA := Body.m_invI (W (m_bodyA j)) in
  let m_invIB := Body.m_invI (W (m_bodyB j)) in

  let aA := Position.a (Body.c_position (W (m_bodyA j))) in
  let wA := Velocity.w (Body.c_velocity (W (m_bodyA j))) in

  let aB := Position.a (Body.c_position (W (m_bodyB j))) in
  let wB := Velocity.w (Body.c_velocity (W (m_bodyB j))) in

  let qA := Rot.neo aA in
  let qB := Rot.neo aB in

  let m_rA := Rot.mulVec2 qA (Vec2.sub (m_localAnchorA j) m_localCenterA) in
  let m_rB := Rot.mulVec2 qB (Vec2.sub (m_localAnchorB j) m_localCenterB) in

  let mA := m_invMassA in
  let mB := m_invMassB in
  let iA := m_invIA in
  let iB := m_invIB in

  let K := K_of mA mB iA iB m_rA m_rB in

  let '(m_mass, m_gamma, m_bias) := mass_of step j K iA iB aA aB in

  let with_fields (m_impulse : Vec3.t) : t :=
    mk (m_bodyA j) (m_bodyB j) (m_localAnchorA j) (m_localAnchorB j)
       (m_referenceAngle j) (m_frequencyHz j) (m_dampingRatio j)
       m_impulse m_bias m_gamma m_rA m_rB
       m_localCenterA m_localCenterB
       m_invMassA m_invMassB m_invIA m_invIB m_mass in

  if TimeStep.warmStarting step then
    (* Scale impulses to support a variable time step. *)
    let m_impulse := Vec3.mul (TimeStep.dtRatio step) (m_impulse j) in

    let P := Vec2.neo (Vec3.x m_impulse) (Vec3.y m_impulse) in

    let W := update W (m_bodyA j) (Body.with_v (fun vA => Vec2.subMul vA mA P)) in
    let wA := wA - iA * (Vec2.cross m_rA P + Vec3.z m_impulse) in

    let W := update W (m_bodyB j) (Body.with_v (fun vB => Vec2.addMul vB mB P)) in
    let wB := wB + iB * (Vec2.cross m_rB P + Vec3.z m_impulse) in

    let W := update W (m_bodyA j) (Body.set_w wA) in
    let W := update W (m_bodyB j) (Body.set_w wB) in
    (with_fields m_impulse, W)
  else
    let W := update W (m_bodyA j) (Body.set_w wA) in
    let W := update W (m_bodyB j) (Body.set_w wB) in
    (with_fields Vec3.zero, W).

(** The velocity of the anchor on B relative to the anchor on A. *)
Definition pointCdot (j : t) (vA : Vec2.t) (wA : R) (vB : Vec2.t) (wB : R)
    : Vec2.t :=
  let Cdot1 := Vec2.zero in
  let Cdot1 := Vec2.addCombine Cdot1 1 vB 1 (Vec2.crossNumVec2 wB (m_rB j)) in
  Vec2.subCombine Cdot1 1 vA 1 (Vec2.crossNumVec2 wA (m_rA j)).

Definition solveVelocityConstraints (step : TimeStep.t) (j : t) (W : World)
    : t * World :=
  let vA := Velocity.v (Body.c_velocity (W (m_bodyA j))) in
  let wA := Velocity.w (Body.c_velocity (W (m_bodyA j))) in
  let vB := Velocity.v (Body.c_velocity (W (m_bodyB j))) in
  let wB := Velocity.w (Body.c_velocity (W (m_bodyB j))) in

  let mA := m_invMassA j in
  let mB := m_invMassB j in
  let iA := m_invIA j in
  let iB := m_invIB j in

  if Math.gtb (m_frequencyHz j) 0 then
    let Cdot2 := wB - wA in

    let impulse2 :=
      - Vec3.z (Mat33.ez (m_mass j))
        * (Cdot2 + m_bias j + m_gamma j * Vec3.z (m_impulse j)) in
    let impulse_z := Vec3.z (m_impulse j) + impulse2 in

    let wA := wA - iA * impulse2 in
    let wB := wB + iB * impulse2 in

    let Cdot1 := pointCdot j vA wA vB wB in

    let impulse1 := Vec2.neg (Mat33.mulVec2 (m_mass j) Cdot1) in
    let m_impulse :=
      Vec3.neo (Vec3.x (m_impulse j) + Vec2.x impulse1)
               (Vec3.y (m_impulse j) + Vec2.y impulse1) impulse_z in

    let P := impulse1 in

    let W := update W (m_bodyA j) (Body.with_v (fun vA => Vec2.subMul vA mA P)) in
    let wA := wA - iA * Vec2.cross (m_rA j) P in

    let W := update W (m_bodyB j) (Body.with_v (fun vB => Vec2.addMul vB mB P)) in
    let wB := wB + iB * Vec2.cross (m_rB j) P in

    let W := update W (m_bodyA j) (Body.set_w wA) in
    let W := update W (m_bodyB j) (Body.set_w wB) in
    (set_impulse m_impulse j, W)
  else
    let Cdot1 := pointCdot j vA wA vB wB in
    let Cdot2 := wB - wA in
    let Cdot := Vec3.neo (Vec2.x Cdot1) (Vec2.y Cdot1) Cdot2 in

    let impulse := Vec3.neg (Mat33.mulVec3 (m_mass j) Cdot) in
    let m_impulse := Vec3.add (m_impulse j) impulse in

    let P := Vec2.neo (Vec3.x impulse) (Vec3.y impulse) in

    let W := update W (m_bodyA j) (Body.with_v (fun vA => Vec2.subMul vA mA P)) in
    let wA := wA - iA * (Vec2.cross (m_rA j) P + Vec3.z impulse) in

    let W := update W (m_bodyB j) (Body.with_v (fun vB => Vec2.addMul vB mB P)) in
    let wB := wB + iB * (Vec2.cross (m_rB j) P + Vec3.z impulse) in

    let W := update W (m_bodyA j) (Body.set_w wA) in
    let W := update W (m_bodyB j) (Body.set_w wB) in
    (set_impulse m_impulse j, W).

Section WithSettings.

Context (Settings : Settings.t).

(** Returns whether the position errors are within tolerance. *)
Definition solvePositionConstraints (step : TimeStep.t) (j : t) (W : World)
    : bool * World :=
  let cA := Position.c (Body.c_position (W (m_bodyA j))) in
  let aA := Position.a (Body.c_position (W (m_bodyA j))) in
  let cB := Position.c (Body.c_position (W (m_bodyB j))) in
  let aB := Position.a (Body.c_position (W (m_bodyB j))) in

  let qA := Rot.neo aA in
  let qB := Rot.neo aB in

  let mA := m_invMassA j in
  let mB := m_invMassB j in
  let iA := m_invIA j in
  let iB := m_invIB j in

  let rA := Rot.mulVec2 qA (Vec2.sub (m_localAnchorA j) (m_localCenterA j)) in
  let rB := Rot.mulVec2 qB (Vec2.sub (m_localAnchorB j) (m_localCenterB j)) in

  let K := K_of mA mB iA iB rA rB in

  let C1 := Vec2.zero in
  let C1 := Vec2.addCombine C1 1 cB 1 rB in
  let C1 := Vec2.subCombine C1 1 cA 1 rA in

  if Math.gtb (m_frequencyHz j) 0 then
    let positionError := Vec2.length C1 in
    let angularError := 0 in

    let P := Vec2.neg (Mat33.solve22 K C1) in

    let W := update W (m_bodyA j) (Body.with_c (fun cA => Vec2.subMul cA mA P)) in
    let aA := aA - iA * Vec2.cross rA P in

    let W := update W (m_bodyB j) (Body.with_c (fun cB => Vec2.addMul cB mB P)) in
    let aB := aB + iB * Vec2.cross rB P in

    let W := update W (m_bodyA j) (Body.set_a aA) in
    let W := update W (m_bodyB j) (Body.set_a aB) in
    (Math.leb positionError (Settings.linearSlop Settings)
     && Math.leb angularError (Settings.angularSlop Settings), W)
  else
    let C2 := aB - aA - m_referenceAngle j in

    let positionError := Vec2.length C1 in
    let angularError := Math.abs C2 in

    let C := Vec3.neo (Vec2.x C1) (Vec2.y C1) C2 in

    let impulse :=
      if Math.gtb (Vec3.z (Mat33.ez K)) 0 then
        Vec3.neg (Mat33.solve33 K C)
      else
        let impulse2 := Vec2.neg (Mat33.solve22 K C1) in
        Vec3.neo (Vec2.x impulse2) (Vec2.y impulse2) 0 in

    let P := Vec2.neo (Vec3.x impulse) (Vec3.y impulse) in

    let W := update W (m_bodyA j) (Body.with_c (fun cA => Vec2.subMul cA mA P)) in
    let aA := aA - iA * (Vec2.cross rA P + Vec3.z impulse) in

    let W := update W (m_bodyB j) (Body.with_c (fun cB => Vec2.addMul cB mB P)) in
    let aB := aB + iB * (Vec2.cross rB P + Vec3.z impulse) in

    let W := update W (m_bodyA j) (Body.set_a aA) in
    let W := update W (m_bodyB j) (Body.set_a aB) in
    (Math.leb positionError (Settings.linearSlop Settings)
     && Math.leb angularError (Settings.angularSlop Settings), W).

End WithSettings.

End WeldJoint.

(** ** Vocabulary of the properties *)

(** A body after an impulse: the linear impulse [P] applied at the arm
    [r] from its centre of mass, and the angular impulse [L], move its
    working velocity by [invMass * P] and [invI * (r x P + L)]. *)
Definition applyImpulse (r P : Vec2.t) (L : R) (b : Body.t) : Body.t :=
  Body.set_w
    (Velocity.w (Body.c_velocity b) + Body.m_invI b * (Vec2.cross r P + L))
    (Body.with_v (fun v => Vec2.addMul v (Body.m_invMass b) P) b).

(** The body table [W'] is [W] after body [bA] received [PA] at [rA] with
    [LA], body [bB] received [PB] at [rB] with [LB], and no other body
    changed. *)
Definition transfers (W W' : World) (bA bB : nat)
    (rA PA : Vec2.t) (LA : R) (rB PB : Vec2.t) (LB : R) : Prop :=
  W' bA = applyImpulse rA PA LA (W bA) /\
  W' bB = applyImpulse rB PB LB (W bB) /\
  forall b, b <> bA -> b <> bB -> W' b = W b.



(** The body table [W'] differs from [W] in the working velocities of
    the bodies [bA] and [bB] only, and the two linear velocities changed
    by one and the same impulse [P], taken from [bA] and given to [bB]:
    [vA' = vA - mA * P] and [vB' = vB + mB * P], as the code writes
    them, for the inverse masses [mA] and [mB]. *)
Definition opposite_impulses (W W' : World) (bA bB : nat) (mA mB : R) : Prop :=
  (forall b, b <> bA -> b <> bB -> W' b = W b) /\
  (forall b,
     Body.m_awakeFlag (W' b) = Body.m_awakeFlag (W b) /\
     Body.m_xf (W' b) = Body.m_xf (W b) /\
     Body.m_sweep (W' b) = Body.m_sweep (W b) /\
     Body.m_invMass (W' b) = Body.m_invMass (W b) /\
     Body.m_invI (W' b) = Body.m_invI (W b) /\
     Body.c_position (W' b) = Body.c_position (W b)) /\
  exists P : Vec2.t,
    Velocity.v (Body.c_velocity (W' bA))
      = Vec2.subMul (Velocity.v (Body.c_velocity (W bA))) mA P /\
    Velocity.v (Body.c_velocity (W' bB))
      = Vec2.addMul (Velocity.v (Body.c_velocity (W bB))) mB P.

(** The body table [W'] differs from [W] in the working positions of the
    bodies [bA] and [bB] only, and the two centres moved by one and the
    same impulse [P], taken from [bA] and given to [bB]:
    [cA' = cA - mA * P] and [cB' = cB + mB * P], as the code writes
    them. *)
Definition opposite_corrections (W W' : World) (bA bB : nat) (mA mB : R) : Prop :=
  (forall b, b <> bA -> b <> bB -> W' b = W b) /\
  (forall b,
     Body.m_awakeFlag (W' b) = Body.m_awakeFlag (W b) /\
     Body.m_xf (W' b) = Body.m_xf (W b) /\
     Body.m_sweep (W' b) = Body.m_sweep (W b) /\
     Body.m_invMass (W' b) = Body.m_invMass (W b) /\
     Body.m_invI (W' b) = Body.m_invI (W b) /\
     Body.c_velocity (W' b) = Body.c_velocity (W b)) /\
  exists P : Vec2.t,
    Position.c (Body.c_position (W' bA))
      = Vec2.subMul (Position.c (Body.c_position (W bA))) mA P /\
    Position.c (Body.c_position (W' bB))
      = Vec2.addMul (Position.c (Body.c_position (W bB))) mB P.

(** The reciprocal of a sum that is not zero, and zero of zero; the
    reciprocal of a sum that is positive, and the sum left as it is
    otherwise.  Neither divides by zero. *)
Definition inverse_or_zero (K : R) : R :=
  if Math.neqb K 0 then 1 / K else 0.

Definition inverse_if_positive (K : R) : R :=
  if Math.gtb K 0 then 1 / K else K.

(** ** Concrete values *)

(** Modelled from the spec: the values of the tuning constants, which the
    sources do not contain, as upstream sets them: a linear slop of 5 mm,
    an angular slop of 2 degrees, corrections of at most 0.2 m and 8
    degrees; and [Math.EPSILON]. *)
Module Example.

Definition Settings : Settings.t :=
  Settings.mk (5 / 1000) (2 / 180 * PI) (2 / 10) (8 / 180 * PI).

Definition EPSILON : R := 1 / 1000000000.

Definition xf_identity : Transform.t := Transform.mk Vec2.zero (Rot.mk 0 1).

(** A body of unit mass and unit inertia, at [c] with angle 0, at rest
    with angular velocity [w]. *)
Definition body (c : Vec2.t) (w : R) : Body.t :=
  Body.mk true (Transform.mk c (Rot.mk 0 1)) (Sweep.mk Vec2.zero c 0) 1 1
    (Position.mk c 0) (Velocity.mk Vec2.zero w).

(** A table whose bodies are all [body c w]. *)
Definition world (c : Vec2.t) (w : R) : World := fun _ => body c w.

(** Bodies at the origin at rest, body 0 not turning and the others
    turning at -1. *)
Definition spinning : World :=
  fun b => body Vec2.zero (if Nat.eqb b 0 then 0 else -1).

(** The effective mass of a revolute joint between two bodies of unit
    mass and inertia, anchored at their centres. *)
Definition K : Mat33.t :=
  Mat33.mk (Vec3.neo 2 0 0) (Vec3.neo 0 2 0) (Vec3.neo 0 0 2).

Definition step (warmStarting : bool) : TimeStep.t :=
  TimeStep.mk (1 / 60) 60 1 warmStarting.

Definition manifold : Manifold.t :=
  let p :=
    Manifold.mkManifoldPoint Vec2.zero 0 0
      (Manifold.mkContactFeature 0 0 Manifold.e_vertex Manifold.e_vertex) in
  Manifold.mk Manifold.e_faceA Vec2.zero Vec2.zero (p, p) 2.

Definition unit_circle : CircleShape.t := CircleShape.mk Vec2.zero 1.

(** A rigid distance joint of length 1 between bodies 0 and 1, with an
    accumulated impulse of 1. *)
Definition distance : DistanceJoint.t :=
  DistanceJoint.mk 0 1 Vec2.zero Vec2.zero 1 0 0 1 0 0
    Vec2.zero Vec2.zero Vec2.zero Vec2.zero Vec2.zero 1 1 1 1 (1 / 2).

Definition zero33 : Mat33.t := Mat33.mk Vec3.zero Vec3.zero Vec3.zero.

(** A revolute joint between bodies 0 and 1 with the limit [-1, 1]
    enabled, in state [st], with accumulated impulse [(0, 0, z)] and
    effective mass [K]. *)
Definition revolute (st : RevoluteJoint.LimitState) (z : R) (K : Mat33.t)
    : RevoluteJoint.t :=
  RevoluteJoint.mk 0 1 Vec2.zero Vec2.zero 0 (Vec3.neo 0 0 z) 0
    (-1) 1 0 0 true false Vec2.zero Vec2.zero Vec2.zero Vec2.zero
    1 1 1 1 K (1 / 2) st.

(** A pulley joint of ratio [ratio] between bodies 0 and 1, with both
    ground anchors 10 below the origin and segments of length 11. *)
Definition pulley (ratio : R) : PulleyJoint.t :=
  PulleyJoint.mk 0 1 (Vec2.neo 0 (-10)) (Vec2.neo 0 (-10))
    Vec2.zero Vec2.zero 11 11 ratio (11 + ratio * 11) 1
    Vec2.zero Vec2.zero Vec2.zero Vec2.zero Vec2.zero Vec2.zero
    1 1 1 1 0.

(** A pulley definition that gives every field, with the ratio 2. *)
Definition pulleyDef : PulleyJoint.Def :=
  PulleyJoint.mkDef (Some (Vec2.neo (-1) 1)) (Some (Vec2.neo 1 1))
    (Some (Vec2.neo (-1) 0)) (Some (Vec2.neo 1 0))
    (JsValue.Num 1) (JsValue.Num 1) (JsValue.Num 2).

End Example.

(** Further concrete values. *)
Module Sample.

(** Body 0 at the origin and the other bodies at [(3, 0)], all of unit
    mass and inertia, body 0 at rest and the others moving at [(1, 0)]
    and turning at 1. *)
Definition apart : World :=
  fun b =>
    if Nat.eqb b 0 then Example.body Vec2.zero 0
    else
      Body.mk true (Transform.mk (Vec2.neo 3 0) (Rot.mk 0 1))
        (Sweep.mk Vec2.zero (Vec2.neo 3 0) 0) 1 1
        (Position.mk (Vec2.neo 3 0) 0) (Velocity.mk (Vec2.neo 1 0) 1).


(** A rigid distance joint of length 3 between bodies 0 and 1, anchored
    at their centres, as [initVelocityConstraints] leaves it in [apart]. *)
Definition distance : DistanceJoint.t :=
  DistanceJoint.mk 0 1 Vec2.zero Vec2.zero 3 0 0 0 0 0
    (Vec2.neo 1 0) Vec2.zero Vec2.zero Vec2.zero Vec2.zero 1 1 1 1 (1 / 2).

(** A revolute joint between bodies 0 and 1 anchored at their centres,
    with no limit and a motor of speed 1 and largest torque 10. *)
Definition motor : RevoluteJoint.t :=
  RevoluteJoint.mk 0 1 Vec2.zero Vec2.zero 0 (Vec3.neo 0 0 0) 0
    (-1) 1 10 1 false true Vec2.zero Vec2.zero Vec2.zero Vec2.zero
    1 1 1 1 Example.K (1 / 2) RevoluteJoint.inactiveLimit.

(** A pulley of ratio 1 between bodies 0 and 1 with both ground anchors
    at the origin, where the bodies of [Example.world Vec2.zero 0] are:
    both segments have length 0. *)
Definition slack : PulleyJoint.t :=
  PulleyJoint.mk 0 1 Vec2.zero Vec2.zero Vec2.zero Vec2.zero 1 1 1 2 0
    Vec2.zero Vec2.zero Vec2.zero Vec2.zero Vec2.zero Vec2.zero
    1 1 1 1 0.

(** A pulley of ratio 1 between bodies 0 and 1 with both ground anchors
    10 below the origin and a rope of 20. *)
Definition taut : PulleyJoint.t :=
  PulleyJoint.mk 0 1 (Vec2.neo 0 (-10)) (Vec2.neo 0 (-10))
    Vec2.zero Vec2.zero 10 10 1 20 0
    Vec2.zero Vec2.zero Vec2.zero Vec2.zero Vec2.zero Vec2.zero
    1 1 1 1 0.



(** A rigid weld joint between bodies 0 and 1 anchored at their centres,
    with an accumulated impulse of [(1, 0, 1)]; its solver fields are as
    [initVelocityConstraints] leaves them between two bodies of unit mass
    and inertia: arms zero, [K] twice the identity, [m_mass] its
    inverse. *)
Definition weld_loaded : WeldJoint.t :=
  WeldJoint.mk 0 1 Vec2.zero Vec2.zero 0 0 0 (Vec3.neo 1 0 1) 0 0
    Vec2.zero Vec2.zero Vec2.zero Vec2.zero 1 1 1 1
    (Mat33.mk (Vec3.neo (1 / 2) 0 0) (Vec3.neo 0 (1 / 2) 0)
              (Vec3.neo 0 0 (1 / 2))).

End Sample.

(** * Properties *)

(** ** The tests on numbers *)

Module MathFacts.
Import Math.

Lemma ltb_true a b : a < b -> ltb a b = true.
Proof. unfold ltb; destruct (Rlt_dec a b); intuition. Qed.

Lemma ltb_false a b : ~ a < b -> ltb a b = false.
Proof. unfold ltb; destruct (Rlt_dec a b); intuition. Qed.

Lemma leb_true a b : a <= b -> leb a b = true.
Proof. unfold leb; destruct (Rle_dec a b); intuition. Qed.

Lemma leb_false a b : ~ a <= b -> leb a b = false.
Proof. unfold leb; destruct (Rle_dec a b); intuition. Qed.

Lemma eqb_true a b : a = b -> eqb a b = true.
Proof. unfold eqb; destruct (Req_dec_T a b); intuition. Qed.

Lemma eqb_false a b : a <> b -> eqb a b = false.
Proof. unfold eqb; destruct (Req_dec_T a b); intuition. Qed.

Lemma ltb_iff a b : ltb a b = true <-> a < b.
Proof. unfold ltb; destruct (Rlt_dec a b); intuition discriminate. Qed.

Lemma leb_iff a b : leb a b = true <-> a <= b.
Proof. unfold leb; destruct (Rle_dec a b); intuition discriminate. Qed.

Lemma eqb_iff a b : eqb a b = true <-> a = b.
Proof. unfold eqb; destruct (Req_dec_T a b); intuition discriminate. Qed.

Lemma gtb_true a b : a > b -> gtb a b = true.
Proof. intro; apply ltb_true; assumption. Qed.

Lemma gtb_false a b : ~ a > b -> gtb a b = false.
Proof. intro; apply ltb_false; assumption. Qed.

Lemma geb_true a b : a >= b -> geb a b = true.
Proof. intro; apply leb_true; lra. Qed.

Lemma geb_false a b : ~ a >= b -> geb a b = false.
Proof. intro; apply leb_false; lra. Qed.

Lemma neqb_true a b : a <> b -> neqb a b = true.
Proof. intro; unfold neqb; rewrite eqb_false; trivial. Qed.

Lemma neqb_false a b : a = b -> neqb a b = false.
Proof. intro; unfold neqb; rewrite eqb_true; trivial. Qed.

(** A clamp between ordered bounds lands between them. *)
Lemma clamp_bounds num min max :
  min <= max -> min <= clamp num min max <= max.
Proof.
  intro Hmm. unfold clamp, gtb, ltb.
  destruct (Rlt_dec num min); [lra|].
  destruct (Rlt_dec max num); lra.
Qed.

Lemma clamp_inside num min max :
  min <= num <= max -> clamp num min max = num.
Proof.
  intros [H1 H2]. unfold clamp, gtb, ltb.
  destruct (Rlt_dec num min); [lra|].
  destruct (Rlt_dec max num); lra.
Qed.

End MathFacts.

(** Evaluates the tests on numbers whose outcome linear arithmetic
    decides. *)
Ltac decide_tests :=
  repeat first
    [ rewrite MathFacts.ltb_true by lra
    | rewrite MathFacts.ltb_false by lra
    | rewrite MathFacts.leb_true by lra
    | rewrite MathFacts.leb_false by lra
    | rewrite MathFacts.gtb_true by lra
    | rewrite MathFacts.gtb_false by lra
    | rewrite MathFacts.geb_true by lra
    | rewrite MathFacts.geb_false by lra
    | rewrite MathFacts.eqb_true by lra
    | rewrite MathFacts.eqb_false by lra
    | rewrite MathFacts.neqb_true by lra
    | rewrite MathFacts.neqb_false by lra ].


(** ** The body table *)

Lemma update_eq (W : World) (b : nat) (f : Body.t -> Body.t) :
  update W b f b = f (W b).
Proof. unfold update; rewrite Nat.eqb_refl; reflexivity. Qed.

Lemma update_neq (W : World) (b b' : nat) (f : Body.t -> Body.t) :
  b' <> b -> update W b f b' = W b'.
Proof.
  intro Hne; unfold update.
  destruct (Nat.eqb_spec b' b); [contradiction | reflexivity].
Qed.

(** ** Two circles *)

Section CollideCirclesFacts.

Variables (manifold : Manifold.t) (circleA circleB : CircleShape.t)
          (xfA xfB : Transform.t).

Let pA := Transform.mulVec2 xfA (CircleShape.m_p circleA).
Let pB := Transform.mulVec2 xfB (CircleShape.m_p circleB).
Let radius := CircleShape.m_radius circleA + CircleShape.m_radius circleB.

(** The test of the code, on squares. *)
Lemma CollideCircles_touching :
  Vec2.distanceSquared pB pA <= radius * radius ->
  CollideCircles manifold circleA xfA circleB xfB =
  Manifold.mk Manifold.e_circles Vec2.zero (CircleShape.m_p circleA)
    (Manifold.mkManifoldPoint (CircleShape.m_p circleB)
       (Manifold.normalImpulse (fst (Manifold.points manifold)))
       (Manifold.tangentImpulse (fst (Manifold.points manifold)))
       (Manifold.mkContactFeature 0 0 Manifold.e_vertex Manifold.e_vertex),
     snd (Manifold.points manifold)) 1.
Proof.
  intro Hle. unfold CollideCircles; cbv zeta.
  fold pA pB radius.
  rewrite MathFacts.gtb_false by lra.
  reflexivity.
Qed.

Lemma CollideCircles_apart :
  Vec2.distanceSquared pB pA > radius * radius ->
  CollideCircles manifold circleA xfA circleB xfB =
  Manifold.set_pointCount 0 manifold.
Proof.
  intro Hgt. unfold CollideCircles; cbv zeta.
  fold pA pB radius.
  rewrite MathFacts.gtb_true by lra.
  reflexivity.
Qed.

End CollideCirclesFacts.

(** C1 (amended).  On the numbers the engine computes with,
    [CollideCircles] leaves no manifold point when the squared distance
    of the two world centres, as it computes it, is greater than the
    square of the sum of the radii, as it computes them; it leaves one
    point otherwise, which includes every case where the test meets a NaN.
    With one point, the manifold has type [e_circles] and the point's
    local point is the local centre of the second circle.  Both sides of
    the test are rounded, so the test is not the comparison of the exact
    distance with the exact sum of the radii. *)
Theorem C1_CollideCircles_point_count
    (manifold : Binary64.Manifold.t)
    (circleA circleB : Binary64.CircleShape.t)
    (xfA xfB : Binary64.Transform.t) :
  let pA := Binary64.Transform.mulVec2 xfA (Binary64.CircleShape.m_p circleA) in
  let pB := Binary64.Transform.mulVec2 xfB (Binary64.CircleShape.m_p circleB) in
  let distSqr := Binary64.Vec2.distanceSquared pB pA in
  let radius :=
    PrimFloat.add (Binary64.CircleShape.m_radius circleA)
                  (Binary64.CircleShape.m_radius circleB) in
  let manifold' := Binary64.CollideCircles manifold circleA xfA circleB xfB in
  (Binary64.gtb distSqr (PrimFloat.mul radius radius) = true ->
     Binary64.Manifold.pointCount manifold' = 0%nat) /\
  (Binary64.gtb distSqr (PrimFloat.mul radius radius) = false ->
     Binary64.Manifold.pointCount manifold' = 1%nat /\
     Binary64.Manifold.type manifold' = Binary64.Manifold.e_circles /\
     Binary64.Manifold.mp_localPoint (fst (Binary64.Manifold.points manifold')) =
       Binary64.CircleShape.m_p circleB).
Proof.
  intros pA pB distSqr radius manifold'. subst manifold'.
  unfold Binary64.CollideCircles; cbv zeta.
  fold pA pB. fold distSqr. fold radius.
  split; intro Htest; rewrite Htest.
  - reflexivity.
  - repeat split.
Qed.

(** Two unit circles whose centres are 1.5 apart touch. *)
Lemma C1_CollideCircles_point_count_witness :
  Binary64.Manifold.pointCount
    (Binary64.CollideCircles Binary64.Example.manifold
       Binary64.Example.unit_circle Binary64.Example.xf_identity
       Binary64.Example.unit_circle_near Binary64.Example.xf_identity) = 1%nat.
Proof.
  refine (proj1 (proj2
    (C1_CollideCircles_point_count Binary64.Example.manifold
       Binary64.Example.unit_circle Binary64.Example.unit_circle_near
       Binary64.Example.xf_identity Binary64.Example.xf_identity) _)).
  vm_compute. reflexivity.
Defined.

(** The values of [2^-30], [1/2] and [1]. *)
Lemma Binary64_exact_values :
  Binary64.exact Binary64.Example.tiny = Some (/ 2 ^ 30) /\
  Binary64.exact Binary64.Example.half = Some (/ 2) /\
  Binary64.exact Binary64.Example.one = Some 1.
Proof.
  unfold Binary64.exact.
  replace (FloatOps.Prim2SF Binary64.Example.tiny)
    with (SpecFloat.S754_finite false 4503599627370496 (-82))
    by (vm_compute; reflexivity).
  replace (FloatOps.Prim2SF Binary64.Example.half)
    with (SpecFloat.S754_finite false 4503599627370496 (-53))
    by (vm_compute; reflexivity).
  replace (FloatOps.Prim2SF Binary64.Example.one)
    with (SpecFloat.S754_finite false 4503599627370496 (-52))
    by (vm_compute; reflexivity).
  repeat split; f_equal; simpl powerRZ; field.
Qed.

(** C1, as the specification states it, fails: for circles of radius 1/2
    with centres at [(0, 0)] and [(1, 2^-30)] the distance
    [sqrt (1 + 2^-60)] of the centres is greater than the sum 1 of the
    radii, and [CollideCircles] leaves one point: the squared distance it
    computes is [1 + 2^-60] rounded, which is 1 and not greater than 1.
    Read on the distance the engine would compute it fails the other way:
    with the second centre at [(1, 2^-26)] the computed distance, the
    square root of [1 + 2^-52] rounded, is 1 and not greater than the sum
    of the radii, and [CollideCircles] leaves no point, the squared
    distance [1 + 2^-52] being greater than 1. *)
Lemma C1_counterexample :
  let d := Vec2.distance (Vec2.neo 1 (/ 2 ^ 30)) (Vec2.neo 0 0) in
  let rA := / 2 in
  let rB := / 2 in
  Binary64.exact Binary64.Example.tiny = Some (/ 2 ^ 30) /\
  Binary64.exact Binary64.Example.half = Some rA /\
  Binary64.exact Binary64.Example.one = Some 1 /\
  ~ d <= rA + rB /\
  Binary64.Manifold.pointCount
    (Binary64.CollideCircles Binary64.Example.manifold
       Binary64.Example.circleA Binary64.Example.xf_identity
       Binary64.Example.circleB Binary64.Example.xf_identity) = 1%nat /\
  PrimFloat.leb
    (Binary64.Vec2.distance
       (Binary64.Transform.mulVec2 Binary64.Example.xf_identity
          (Binary64.CircleShape.m_p Binary64.Example.circleC))
       (Binary64.Transform.mulVec2 Binary64.Example.xf_identity
          (Binary64.CircleShape.m_p Binary64.Example.circleA)))
    (PrimFloat.add (Binary64.CircleShape.m_radius Binary64.Example.circleA)
                   (Binary64.CircleShape.m_radius Binary64.Example.circleC))
  = true /\
  Binary64.Manifold.pointCount
    (Binary64.CollideCircles Binary64.Example.manifold
       Binary64.Example.circleA Binary64.Example.xf_identity
       Binary64.Example.circleC Binary64.Example.xf_identity) = 0%nat.
Proof.
  intros d rA rB.
  destruct Binary64_exact_values as [Htiny [Hhalf Hone]].
  split; [exact Htiny|]. split; [exact Hhalf|]. split; [exact Hone|].
  split; [|split; [|split]].
  - subst d rA rB. unfold Vec2.distance; cbv zeta. cbn [Vec2.x Vec2.y].
    apply Rlt_not_le.
    replace (/ 2 + / 2) with (sqrt 1) by (rewrite sqrt_1; lra).
    apply sqrt_lt_1_alt. split; [lra|].
    assert (0 < / 2 ^ 30) by (apply Rinv_0_lt_compat; apply pow_lt; lra).
    nra.
  - vm_compute. reflexivity.
  - vm_compute. reflexivity.
  - vm_compute. reflexivity.
Qed.

(** Two unit circles whose centres are 3 apart do not touch. *)
Example CollideCircles_three_apart :
  Manifold.pointCount
    (CollideCircles Example.manifold Example.unit_circle Example.xf_identity
       (CircleShape.mk (Vec2.neo 3 0) 1) Example.xf_identity) = 0%nat.
Proof.
  rewrite CollideCircles_apart; [reflexivity|].
  unfold Vec2.distanceSquared, Transform.mulVec2; simpl. lra.
Qed.

(** ** The revolute joint: limit state at the start of a step *)

Section RevoluteLimitState.

Import RevoluteJoint.
Variable Settings : Settings.t.

(** The limit state is the first component of [limitState_of]. *)
Lemma initVelocityConstraints_limitState step j W :
  m_limitState (fst (initVelocityConstraints Settings step j W)) =
  fst (limitState_of Settings j
         (Math.eqb (Body.m_invI (W (m_bodyA j)) + Body.m_invI (W (m_bodyB j))) 0)
         (Position.a (Body.c_position (W (m_bodyA j))))
         (Position.a (Body.c_position (W (m_bodyB j))))).
Proof.
  unfold initVelocityConstraints; cbv zeta.
  destruct (limitState_of _ _ _ _ _) as [st z].
  destruct (TimeStep.warmStarting step); reflexivity.
Qed.

Lemma limitState_of_equal j aA aB :
  m_enableLimit j = true ->
  Rabs (m_upperAngle j - m_lowerAngle j) < 2 * Settings.angularSlop Settings ->
  limitState_of Settings j false aA aB = (equalLimits, Vec3.z (m_impulse j)).
Proof.
  intros Hen Hband. unfold limitState_of.
  rewrite Hen; simpl.
  unfold Math.abs. rewrite MathFacts.ltb_true by exact Hband.
  reflexivity.
Qed.

End RevoluteLimitState.

(** C2.  A revolute joint with its limit enabled and a body that can
    rotate ([invIA + invIB > 0]) whose bounds are closer than twice the
    angular slop is in state [equalLimits] after
    [initVelocityConstraints], whatever the joint angle, so neither in
    [atLowerLimit] nor in [atUpperLimit]. *)
Theorem C2_revolute_close_limits_are_equal
    (Settings : Settings.t) (step : TimeStep.t)
    (j : RevoluteJoint.t) (W : World) :
  RevoluteJoint.m_enableLimit j = true ->
  Body.m_invI (W (RevoluteJoint.m_bodyA j))
    + Body.m_invI (W (RevoluteJoint.m_bodyB j)) > 0 ->
  Rabs (RevoluteJoint.m_upperAngle j - RevoluteJoint.m_lowerAngle j)
    < 2 * Settings.angularSlop Settings ->
  let j' := fst (RevoluteJoint.initVelocityConstraints Settings step j W) in
  RevoluteJoint.m_limitState j' = RevoluteJoint.equalLimits /\
  RevoluteJoint.m_limitState j' <> RevoluteJoint.atLowerLimit /\
  RevoluteJoint.m_limitState j' <> RevoluteJoint.atUpperLimit.
Proof.
  intros Hen Hrot Hband j'.
  assert (Heq : RevoluteJoint.m_limitState j' = RevoluteJoint.equalLimits).
  { subst j'. rewrite initVelocityConstraints_limitState.
    rewrite MathFacts.eqb_false by lra.
    rewrite limitState_of_equal by assumption.
    reflexivity. }
  rewrite Heq. repeat split; discriminate.
Qed.

Lemma C2_revolute_close_limits_are_equal_witness :
  RevoluteJoint.m_limitState
    (fst (RevoluteJoint.initVelocityConstraints Example.Settings
            (Example.step true)
            (RevoluteJoint.set_limit true 0 0 0
               (Example.revolute RevoluteJoint.atLowerLimit 1 Example.zero33))
            (Example.world Vec2.zero 0)))
  = RevoluteJoint.equalLimits.
Proof.
  refine (proj1
    (C2_revolute_close_limits_are_equal Example.Settings (Example.step true)
       (RevoluteJoint.set_limit true 0 0 0
          (Example.revolute RevoluteJoint.atLowerLimit 1 Example.zero33))
       (Example.world Vec2.zero 0) _ _ _)).
  - reflexivity.
  - simpl; lra.
  - simpl. rewrite Rminus_diag, Rabs_R0.
    pose proof PI_RGT_0; lra.
Defined.

(** ** The distance joint: soft mode, construction *)

(** C4.  A soft distance joint ([frequencyHz > 0]) returns [true] from
    [solvePositionConstraints] at once and leaves the body table, so the
    working positions and angles of both bodies, as they were. *)
Theorem C4_distance_soft_no_position_correction
    (Settings : Settings.t) (EPSILON : R) (step : TimeStep.t)
    (j : DistanceJoint.t) (W : World) :
  DistanceJoint.m_frequencyHz j > 0 ->
  DistanceJoint.solvePositionConstraints Settings EPSILON step j W = (true, W).
Proof.
  intro Hsoft. unfold DistanceJoint.solvePositionConstraints.
  rewrite MathFacts.gtb_true by exact Hsoft.
  reflexivity.
Qed.

Lemma C4_distance_soft_no_position_correction_witness :
  let soft :=
    DistanceJoint.mk 0 1 Vec2.zero Vec2.zero 1 4 (1 / 2) 0 0 0
      Vec2.zero Vec2.zero Vec2.zero Vec2.zero Vec2.zero 1 1 1 1 (1 / 2) in
  DistanceJoint.solvePositionConstraints Example.Settings Example.EPSILON
    (Example.step true) soft (Example.world Vec2.zero 0)
  = (true, Example.world Vec2.zero 0).
Proof.
  intro soft.
  apply (C4_distance_soft_no_position_correction Example.Settings
           Example.EPSILON (Example.step true) soft (Example.world Vec2.zero 0)).
  simpl; lra.
Defined.


(** ** The revolute joint: changing the limit *)

Section RevoluteLimitSetters.

Import RevoluteJoint.

Lemma awake_after_wake_both (W : World) (bA bB b : nat) :
  b = bA \/ b = bB ->
  Body.m_awakeFlag
    (update (update W bA (Body.setAwake true)) bB (Body.setAwake true) b) = true.
Proof.
  intro Hb. unfold update.
  destruct (Nat.eqb_spec b bB) as [-> | HneB]; [reflexivity|].
  destruct (Nat.eqb_spec b bA) as [-> | HneA]; [reflexivity|].
  destruct Hb; contradiction.
Qed.

Lemma enableLimit_changed flag j W :
  flag <> m_enableLimit j ->
  enableLimit flag j W =
  (set_limit flag (m_lowerAngle j) (m_upperAngle j) 0 j,
   update (update W (m_bodyA j) (Body.setAwake true))
          (m_bodyB j) (Body.setAwake true)).
Proof.
  intro Hne. unfold enableLimit.
  destruct flag, (m_enableLimit j); simpl; congruence.
Qed.

Lemma enableLimit_same flag j W :
  flag = m_enableLimit j -> enableLimit flag j W = (j, W).
Proof.
  intro He. unfold enableLimit. rewrite <- He.
  destruct flag; reflexivity.
Qed.

Lemma setLimits_changed ASSERT lower upper j W :
  (ASSERT = true -> lower <= upper) ->
  lower <> m_lowerAngle j \/ upper <> m_upperAngle j ->
  setLimits ASSERT lower upper j W =
  Returns
    (set_limit (m_enableLimit j) lower upper 0 j,
     update (update W (m_bodyA j) (Body.setAwake true))
            (m_bodyB j) (Body.setAwake true)).
Proof.
  intros Hpre Hne. unfold setLimits, common_assert.
  assert (Hck : (if ASSERT
                 then if Math.leb lower upper then Returns tt
                      else Throws AssertionError
                 else Returns tt) = Returns tt).
  { destruct ASSERT; [|reflexivity].
    rewrite MathFacts.leb_true by (apply Hpre; reflexivity). reflexivity. }
  rewrite Hck; simpl.
  destruct Hne as [Hl | Hu].
  - rewrite (MathFacts.neqb_true _ _ Hl). reflexivity.
  - rewrite (MathFacts.neqb_true _ _ Hu). rewrite orb_true_r. reflexivity.
Qed.

Lemma setLimits_same ASSERT lower upper j W :
  (ASSERT = true -> lower <= upper) ->
  lower = m_lowerAngle j -> upper = m_upperAngle j ->
  setLimits ASSERT lower upper j W = Returns (j, W).
Proof.
  intros Hpre Hl Hu. unfold setLimits, common_assert.
  assert (Hck : (if ASSERT
                 then if Math.leb lower upper then Returns tt
                      else Throws AssertionError
                 else Returns tt) = Returns tt).
  { destruct ASSERT; [|reflexivity].
    rewrite MathFacts.leb_true by (apply Hpre; reflexivity). reflexivity. }
  rewrite Hck; simpl.
  rewrite (MathFacts.neqb_false _ _ Hl), (MathFacts.neqb_false _ _ Hu).
  reflexivity.
Qed.

End RevoluteLimitSetters.

(** C10.  On a revolute joint, [enableLimit] with a flag other than the
    current one, and [setLimits] with bounds other than the current ones,
    zero the accumulated limit impulse [m_impulse.z] and wake both bodies;
    with the current flag, or the current bounds, they leave the joint
    (its impulses and limit fields) and the body table (the awake state of
    both bodies) as they were.  [setLimits] is called within its asserted
    precondition [lower <= upper] where the checks are compiled in. *)
Theorem C10_revolute_limit_setters
    (ASSERT : bool) (j : RevoluteJoint.t) (W : World)
    (flag : bool) (lower upper : R) :
  (ASSERT = true -> lower <= upper) ->
  (flag <> RevoluteJoint.m_enableLimit j ->
     let (j', W') := RevoluteJoint.enableLimit flag j W in
     Vec3.z (RevoluteJoint.m_impulse j') = 0 /\
     RevoluteJoint.m_enableLimit j' = flag /\
     Body.m_awakeFlag (W' (RevoluteJoint.m_bodyA j)) = true /\
     Body.m_awakeFlag (W' (RevoluteJoint.m_bodyB j)) = true) /\
  (flag = RevoluteJoint.m_enableLimit j ->
     RevoluteJoint.enableLimit flag j W = (j, W)) /\
  (lower <> RevoluteJoint.m_lowerAngle j \/ upper <> RevoluteJoint.m_upperAngle j ->
     exists j' W',
       RevoluteJoint.setLimits ASSERT lower upper j W = Returns (j', W') /\
       Vec3.z (RevoluteJoint.m_impulse j') = 0 /\
       RevoluteJoint.m_lowerAngle j' = lower /\
       RevoluteJoint.m_upperAngle j' = upper /\
       Body.m_awakeFlag (W' (RevoluteJoint.m_bodyA j)) = true /\
       Body.m_awakeFlag (W' (RevoluteJoint.m_bodyB j)) = true) /\
  (lower = RevoluteJoint.m_lowerAngle j /\ upper = RevoluteJoint.m_upperAngle j ->
     RevoluteJoint.setLimits ASSERT lower upper j W = Returns (j, W)).
Proof.
  intro Hpre. split; [|split; [|split]].
  - intro Hne. rewrite (enableLimit_changed flag j W Hne).
    repeat split.
    + apply awake_after_wake_both; left; reflexivity.
    + apply awake_after_wake_both; right; reflexivity.
  - apply enableLimit_same.
  - intro Hne. eexists; eexists. split.
    + apply setLimits_changed; assumption.
    + repeat split.
      * apply awake_after_wake_both; left; reflexivity.
      * apply awake_after_wake_both; right; reflexivity.
  - intros [Hl Hu]. apply setLimits_same; assumption.
Qed.

Lemma C10_revolute_limit_setters_witness :
  RevoluteJoint.setLimits true (-1) 1
    (Example.revolute RevoluteJoint.atLowerLimit 1 Example.zero33)
    (Example.world Vec2.zero 0)
  = Returns (Example.revolute RevoluteJoint.atLowerLimit 1 Example.zero33,
             Example.world Vec2.zero 0).
Proof.
  refine (proj2 (proj2 (proj2
    (C10_revolute_limit_setters true
       (Example.revolute RevoluteJoint.atLowerLimit 1 Example.zero33)
       (Example.world Vec2.zero 0) true (-1) 1 _))) _).
  - intros _; lra.
  - split; reflexivity.
Defined.

(** ** Warm starting *)

Lemma Body_eta (b : Body.t) :
  Body.mk (Body.m_awakeFlag b) (Body.m_xf b) (Body.m_sweep b) (Body.m_invMass b)
          (Body.m_invI b) (Body.c_position b) (Body.c_velocity b) = b.
Proof. destruct b; reflexivity. Qed.

Lemma set_w_same (b : Body.t) :
  Body.set_w (Velocity.w (Body.c_velocity b)) b = b.
Proof. destruct b as [aw xf sw m i p [v w]]; reflexivity. Qed.

Lemma set_a_same (b : Body.t) :
  Body.set_a (Position.a (Body.c_position b)) b = b.
Proof. destruct b as [aw xf sw m i [c a] v]; reflexivity. Qed.

(** Writing back the angular velocities read, with nothing between,
    changes no body. *)
Lemma write_back_w (W : World) (bA bB b : nat) :
  update (update W bA (Body.set_w (Velocity.w (Body.c_velocity (W bA)))))
         bB (Body.set_w (Velocity.w (Body.c_velocity (W bB)))) b = W b.
Proof.
  unfold update.
  destruct (Nat.eqb_spec b bB) as [-> | HneB];
    destruct (Nat.eqb_spec bB bA) as [-> | HneA];
    try destruct (Nat.eqb_spec b bA) as [-> | HneA'];
    rewrite ?set_w_same; reflexivity.
Qed.

(** The four writes of a step on two distinct bodies. *)
Lemma four_writes_A (W : World) (bA bB : nat) (f g h k : Body.t -> Body.t) :
  bA <> bB ->
  update (update (update (update W bA f) bB g) bA h) bB k bA = h (f (W bA)).
Proof.
  intro Hne. unfold update.
  rewrite Nat.eqb_refl.
  destruct (Nat.eqb_spec bA bB); [contradiction | reflexivity].
Qed.

Lemma four_writes_B (W : World) (bA bB : nat) (f g h k : Body.t -> Body.t) :
  bA <> bB ->
  update (update (update (update W bA f) bB g) bA h) bB k bB = k (g (W bB)).
Proof.
  intro Hne. unfold update.
  rewrite Nat.eqb_refl.
  destruct (Nat.eqb_spec bB bA); [symmetry in e; contradiction | reflexivity].
Qed.

Lemma four_writes_other (W : World) (bA bB b : nat) (f g h k : Body.t -> Body.t) :
  b <> bA -> b <> bB ->
  update (update (update (update W bA f) bB g) bA h) bB k b = W b.
Proof.
  intros HA HB. unfold update.
  destruct (Nat.eqb_spec b bB); [contradiction|].
  destruct (Nat.eqb_spec b bA); [contradiction | reflexivity].
Qed.

(** The two writes of a velocity and the write of an angular velocity are
    [applyImpulse]. *)
Lemma subMul_is_applyImpulse (b : Body.t) (r P : Vec2.t) (L w' : R) :
  w' = Velocity.w (Body.c_velocity b) - Body.m_invI b * (Vec2.cross r P - L) ->
  Body.set_w w' (Body.with_v (fun v => Vec2.subMul v (Body.m_invMass b) P) b) =
  applyImpulse r (Vec2.neg P) L b.
Proof.
  intros ->. unfold applyImpulse, Body.set_w, Body.with_v; simpl.
  f_equal. f_equal.
  - unfold Vec2.subMul, Vec2.addMul, Vec2.neg; simpl. f_equal; ring.
  - unfold Vec2.cross, Vec2.neg; simpl. ring.
Qed.

Lemma addMul_is_applyImpulse (b : Body.t) (r P : Vec2.t) (L w' : R) :
  w' = Velocity.w (Body.c_velocity b) + Body.m_invI b * (Vec2.cross r P + L) ->
  Body.set_w w' (Body.with_v (fun v => Vec2.addMul v (Body.m_invMass b) P) b) =
  applyImpulse r P L b.
Proof. intros ->. reflexivity. Qed.

Section DistanceWarmStart.

Import DistanceJoint.
Variables (Settings : Settings.t) (step : TimeStep.t) (j : t) (W : World).

Let j' := fst (initVelocityConstraints Settings step j W).
Let W' := snd (initVelocityConstraints Settings step j W).



End DistanceWarmStart.

Section RevoluteWarmStart.

Import RevoluteJoint.
Variables (Settings : Settings.t) (step : TimeStep.t) (j : t) (W : World).

Let j' := fst (initVelocityConstraints Settings step j W).
Let W' := snd (initVelocityConstraints Settings step j W).
Let fixedRotation :=
  Math.eqb (Body.m_invI (W (m_bodyA j)) + Body.m_invI (W (m_bodyB j))) 0.
Let aA := Position.a (Body.c_position (W (m_bodyA j))).
Let aB := Position.a (Body.c_position (W (m_bodyB j))).



End RevoluteWarmStart.

Section PulleyWarmStart.

Import PulleyJoint.
Variables (Settings : Settings.t) (step : TimeStep.t) (j : t) (W : World).

Let j' := fst (initVelocityConstraints Settings step j W).
Let W' := snd (initVelocityConstraints Settings step j W).



End PulleyWarmStart.








(** ** Effective masses *)

Lemma inverse_or_zero_pos K : K > 0 -> inverse_or_zero K = 1 / K.
Proof. intro H; unfold inverse_or_zero; decide_tests; reflexivity. Qed.

Lemma inverse_or_zero_zero K : K = 0 -> inverse_or_zero K = 0.
Proof. intro H; unfold inverse_or_zero; decide_tests; reflexivity. Qed.

Lemma inverse_if_positive_pos K : K > 0 -> inverse_if_positive K = 1 / K.
Proof. intro H; unfold inverse_if_positive; decide_tests; reflexivity. Qed.

Lemma inverse_if_positive_zero K : K = 0 -> inverse_if_positive K = 0.
Proof. intro H; unfold inverse_if_positive; decide_tests; assumption. Qed.

Section EffectiveMass.

Variables (Settings : Settings.t) (step : TimeStep.t) (W : World).

(** The distance joint inverts its sum, with the softness [m_gamma]
    added to it; a rigid joint has [m_gamma = 0]. *)
Lemma Distance_init_mass (j : DistanceJoint.t) :
  let j' := fst (DistanceJoint.initVelocityConstraints Settings step j W) in
  let K :=
    DistanceJoint.invMass_of
      (Body.m_invMass (W (DistanceJoint.m_bodyA j)))
      (Body.m_invI (W (DistanceJoint.m_bodyA j)))
      (Body.m_invMass (W (DistanceJoint.m_bodyB j)))
      (Body.m_invI (W (DistanceJoint.m_bodyB j)))
      (DistanceJoint.m_rA j') (DistanceJoint.m_rB j') (DistanceJoint.m_u j') in
  DistanceJoint.m_mass j' = inverse_or_zero (K + DistanceJoint.m_gamma j') /\
  (~ DistanceJoint.m_frequencyHz j > 0 -> DistanceJoint.m_gamma j' = 0).
Proof.
  unfold DistanceJoint.initVelocityConstraints; cbv zeta.
  destruct (Rlt_dec 0 (DistanceJoint.m_frequencyHz j)) as [Hsoft | Hrigid].
  - rewrite (MathFacts.gtb_true _ _ Hsoft).
    destruct (TimeStep.warmStarting step);
      cbn [fst DistanceJoint.m_mass DistanceJoint.m_gamma DistanceJoint.m_rA
           DistanceJoint.m_rB DistanceJoint.m_u];
      (split; [reflexivity | intro Hn; contradiction]).
  - rewrite (MathFacts.gtb_false _ _ Hrigid).
    destruct (TimeStep.warmStarting step);
      cbn [fst DistanceJoint.m_mass DistanceJoint.m_gamma DistanceJoint.m_rA
           DistanceJoint.m_rB DistanceJoint.m_u];
      rewrite Rplus_0_r; (split; [reflexivity | intros _; reflexivity]).
Qed.

Lemma Pulley_init_mass (j : PulleyJoint.t) :
  let j' := fst (PulleyJoint.initVelocityConstraints Settings step j W) in
  PulleyJoint.m_mass j' =
  inverse_if_positive
    (PulleyJoint.massSum
       (Body.m_invMass (W (PulleyJoint.m_bodyA j)))
       (Body.m_invI (W (PulleyJoint.m_bodyA j)))
       (Body.m_invMass (W (PulleyJoint.m_bodyB j)))
       (Body.m_invI (W (PulleyJoint.m_bodyB j)))
       (PulleyJoint.m_ratio j)
       (PulleyJoint.m_rA j') (PulleyJoint.m_rB j')
       (PulleyJoint.m_uA j') (PulleyJoint.m_uB j')).
Proof.
  unfold PulleyJoint.initVelocityConstraints; cbv zeta.
  destruct (TimeStep.warmStarting step); reflexivity.
Qed.

Lemma Revolute_init_motorMass (j : RevoluteJoint.t) :
  let j' := fst (RevoluteJoint.initVelocityConstraints Settings step j W) in
  RevoluteJoint.m_motorMass j' =
  inverse_if_positive
    (Body.m_invI (W (RevoluteJoint.m_bodyA j))
     + Body.m_invI (W (RevoluteJoint.m_bodyB j))).
Proof.
  unfold RevoluteJoint.initVelocityConstraints; cbv zeta.
  destruct (RevoluteJoint.limitState_of _ _ _ _ _) as [st z].
  destruct (TimeStep.warmStarting step); reflexivity.
Qed.

End EffectiveMass.

(** C6 (amended).  Each scalar effective mass [initVelocityConstraints]
    computes is the reciprocal of the joint's own sum [K] when [K > 0] and
    is 0 when [K = 0], and no sum that is zero is inverted.  The sum is
    [invMassA + invIA*(rA x u)^2 + invMassB + invIB*(rB x u)^2] for the
    distance joint (plus the softness [gamma], zero for a rigid joint),
    [invMassA + invIA*(rA x uA)^2 + ratio^2*(invMassB + invIB*(rB x uB)^2)]
    for the pulley joint, and [invIA + invIB] for the motor mass of the
    revolute joint. *)
Theorem C6_effective_mass
    (Settings : Settings.t) (step : TimeStep.t) (W : World)
    (dj : DistanceJoint.t) (rj : RevoluteJoint.t) (pj : PulleyJoint.t) :
  let dj' := fst (DistanceJoint.initVelocityConstraints Settings step dj W) in
  let rj' := fst (RevoluteJoint.initVelocityConstraints Settings step rj W) in
  let pj' := fst (PulleyJoint.initVelocityConstraints Settings step pj W) in
  (let mA := Body.m_invMass (W (DistanceJoint.m_bodyA dj)) in
   let iA := Body.m_invI (W (DistanceJoint.m_bodyA dj)) in
   let mB := Body.m_invMass (W (DistanceJoint.m_bodyB dj)) in
   let iB := Body.m_invI (W (DistanceJoint.m_bodyB dj)) in
   let crAu := Vec2.cross (DistanceJoint.m_rA dj') (DistanceJoint.m_u dj') in
   let crBu := Vec2.cross (DistanceJoint.m_rB dj') (DistanceJoint.m_u dj') in
   let K := mA + iA * crAu * crAu + mB + iB * crBu * crBu
            + DistanceJoint.m_gamma dj' in
   DistanceJoint.m_mass dj' = inverse_or_zero K /\
   (K > 0 -> DistanceJoint.m_mass dj' = 1 / K) /\
   (K = 0 -> DistanceJoint.m_mass dj' = 0) /\
   (~ DistanceJoint.m_frequencyHz dj > 0 -> DistanceJoint.m_gamma dj' = 0)) /\
  (let mA := Body.m_invMass (W (PulleyJoint.m_bodyA pj)) in
   let iA := Body.m_invI (W (PulleyJoint.m_bodyA pj)) in
   let mB := Body.m_invMass (W (PulleyJoint.m_bodyB pj)) in
   let iB := Body.m_invI (W (PulleyJoint.m_bodyB pj)) in
   let ruA := Vec2.cross (PulleyJoint.m_rA pj') (PulleyJoint.m_uA pj') in
   let ruB := Vec2.cross (PulleyJoint.m_rB pj') (PulleyJoint.m_uB pj') in
   let ratio := PulleyJoint.m_ratio pj in
   let K := mA + iA * ruA * ruA + ratio * ratio * (mB + iB * ruB * ruB) in
   PulleyJoint.m_mass pj' = inverse_if_positive K /\
   (K > 0 -> PulleyJoint.m_mass pj' = 1 / K) /\
   (K = 0 -> PulleyJoint.m_mass pj' = 0)) /\
  (let K := Body.m_invI (W (RevoluteJoint.m_bodyA rj))
            + Body.m_invI (W (RevoluteJoint.m_bodyB rj)) in
   RevoluteJoint.m_motorMass rj' = inverse_if_positive K /\
   (K > 0 -> RevoluteJoint.m_motorMass rj' = 1 / K) /\
   (K = 0 -> RevoluteJoint.m_motorMass rj' = 0)).
Proof.
  intros dj' rj' pj'. split; [|split].
  - destruct (Distance_init_mass Settings step W dj) as [Hm Hg].
    fold dj' in Hm, Hg. unfold DistanceJoint.invMass_of in Hm.
    cbv zeta. rewrite Hm.
    split; [reflexivity|]. split; [|split].
    + apply inverse_or_zero_pos.
    + apply inverse_or_zero_zero.
    + exact Hg.
  - pose proof (Pulley_init_mass Settings step W pj) as Hm.
    fold pj' in Hm. unfold PulleyJoint.massSum in Hm.
    cbv zeta. cbv zeta in Hm. rewrite Hm.
    split; [reflexivity|]. split.
    + apply inverse_if_positive_pos.
    + apply inverse_if_positive_zero.
  - pose proof (Revolute_init_motorMass Settings step W rj) as Hm.
    fold rj' in Hm. cbv zeta. cbv zeta in Hm. rewrite Hm.
    split; [reflexivity|]. split.
    + apply inverse_if_positive_pos.
    + apply inverse_if_positive_zero.
Qed.

(** The arms [initVelocityConstraints] stores. *)
Lemma Pulley_init_arms (Settings : Settings.t) (step : TimeStep.t)
    (j : PulleyJoint.t) (W : World) :
  let j' := fst (PulleyJoint.initVelocityConstraints Settings step j W) in
  PulleyJoint.m_rA j' =
    Rot.mulVec2 (Rot.neo (Position.a (Body.c_position (W (PulleyJoint.m_bodyA j)))))
      (Vec2.sub (PulleyJoint.m_localAnchorA j)
         (Sweep.localCenter (Body.m_sweep (W (PulleyJoint.m_bodyA j))))) /\
  PulleyJoint.m_rB j' =
    Rot.mulVec2 (Rot.neo (Position.a (Body.c_position (W (PulleyJoint.m_bodyB j)))))
      (Vec2.sub (PulleyJoint.m_localAnchorB j)
         (Sweep.localCenter (Body.m_sweep (W (PulleyJoint.m_bodyB j))))).
Proof.
  unfold PulleyJoint.initVelocityConstraints; cbv zeta.
  destruct (TimeStep.warmStarting step); split; reflexivity.
Qed.

Lemma rotate_zero (q : Rot.t) : Rot.mulVec2 q (Vec2.sub Vec2.zero Vec2.zero) = Vec2.zero.
Proof. unfold Rot.mulVec2, Vec2.sub, Vec2.zero; simpl. f_equal; ring. Qed.

Lemma cross_zero_l (u : Vec2.t) : Vec2.cross Vec2.zero u = 0.
Proof. unfold Vec2.cross, Vec2.zero; simpl. ring. Qed.

(** The pulley of ratio 2 on two bodies of unit mass has the sum
    [1 + 2 * 2 * 1 = 5]. *)
Lemma Example_pulley_mass :
  let j' :=
    fst (PulleyJoint.initVelocityConstraints Example.Settings (Example.step true)
           (Example.pulley 2) (Example.world Vec2.zero 0)) in
  Vec2.cross (PulleyJoint.m_rA j') (PulleyJoint.m_uA j') = 0 /\
  Vec2.cross (PulleyJoint.m_rB j') (PulleyJoint.m_uB j') = 0 /\
  PulleyJoint.m_mass j' = 1 / 5.
Proof.
  intro j'.
  destruct (Pulley_init_arms Example.Settings (Example.step true)
              (Example.pulley 2) (Example.world Vec2.zero 0)) as [HrA HrB].
  fold j' in HrA, HrB.
  cbn [Example.pulley Example.world Example.body PulleyJoint.m_localAnchorA
       PulleyJoint.m_localAnchorB PulleyJoint.m_bodyA PulleyJoint.m_bodyB
       Body.m_sweep Sweep.localCenter] in HrA, HrB.
  rewrite rotate_zero in HrA, HrB.
  assert (HcA : Vec2.cross (PulleyJoint.m_rA j') (PulleyJoint.m_uA j') = 0)
    by (rewrite HrA; apply cross_zero_l).
  assert (HcB : Vec2.cross (PulleyJoint.m_rB j') (PulleyJoint.m_uB j') = 0)
    by (rewrite HrB; apply cross_zero_l).
  split; [exact HcA|]. split; [exact HcB|].
  pose proof (Pulley_init_mass Example.Settings (Example.step true)
                (Example.world Vec2.zero 0) (Example.pulley 2)) as Hm.
  fold j' in Hm. cbv zeta in Hm. rewrite Hm.
  unfold PulleyJoint.massSum. rewrite HcA, HcB.
  cbn [Example.pulley Example.world Example.body PulleyJoint.m_ratio
       Body.m_invMass Body.m_invI].
  unfold inverse_if_positive. decide_tests. f_equal; ring.
Qed.

Lemma C6_effective_mass_witness :
  PulleyJoint.m_mass
    (fst (PulleyJoint.initVelocityConstraints Example.Settings (Example.step true)
            (Example.pulley 2) (Example.world Vec2.zero 0)))
  = 1 / (1 + 1 * 0 * 0 + 2 * 2 * (1 + 1 * 0 * 0)).
Proof.
  destruct Example_pulley_mass as [HcA [HcB _]].
  pose proof
    (proj1 (proj2 (proj1 (proj2
       (C6_effective_mass Example.Settings (Example.step true)
          (Example.world Vec2.zero 0) Example.distance
          (Example.revolute RevoluteJoint.atLowerLimit 1 Example.zero33)
          (Example.pulley 2)))))) as Hpos.
  cbv zeta in Hpos. rewrite HcA, HcB in Hpos.
  apply Hpos. simpl; lra.
Defined.

(** C6, as the specification states it, fails on the pulley joint: with
    ratio 2, unit masses and the anchors at the centres of mass, the sum
    the specification gives is [1 + 1 = 2] but the effective mass is
    [1/5], the reciprocal of [1 + 2*2*1]. *)
Lemma C6_counterexample :
  let W := Example.world Vec2.zero 0 in
  let j := Example.pulley 2 in
  let j' :=
    fst (PulleyJoint.initVelocityConstraints Example.Settings (Example.step true) j W) in
  let ruA := Vec2.cross (PulleyJoint.m_rA j') (PulleyJoint.m_uA j') in
  let ruB := Vec2.cross (PulleyJoint.m_rB j') (PulleyJoint.m_uB j') in
  let sum :=
    Body.m_invMass (W (PulleyJoint.m_bodyA j))
    + Body.m_invMass (W (PulleyJoint.m_bodyB j))
    + Body.m_invI (W (PulleyJoint.m_bodyA j)) * (ruA * ruA)
    + Body.m_invI (W (PulleyJoint.m_bodyB j)) * (ruB * ruB) in
  sum > 0 /\ PulleyJoint.m_mass j' <> 1 / sum.
Proof.
  intros W j j' ruA ruB sum.
  destruct Example_pulley_mass as [HcA [HcB Hm]].
  fold W j j' in HcA, HcB, Hm. fold ruA in HcA. fold ruB in HcB.
  assert (Hsum : sum = 2).
  { subst sum. rewrite HcA, HcB. simpl. ring. }
  rewrite Hsum, Hm. split; lra.
Qed.

(** ** Position correction *)



Section DistancePosition.

Import DistanceJoint.
Variables (Settings : Settings.t) (EPSILON : R) (step : TimeStep.t)
          (j : t) (W : World).



End DistancePosition.

Section RevolutePosition.

Import RevoluteJoint.
Variables (Settings : Settings.t) (j : t).





End RevolutePosition.

Section PulleyPosition.

Import PulleyJoint.
Variables (Settings : Settings.t) (step : TimeStep.t) (j : t) (W : World).


End PulleyPosition.



Lemma length_0_10 : Vec2.length (Vec2.neo 0 10) = 10.
Proof.
  unfold Vec2.length; simpl.
  replace (0 * 0 + 10 * 10) with (10 * 10) by ring.
  apply sqrt_square; lra.
Qed.






(** ** The revolute joint: which system the velocity solver solves *)

Section RevoluteVelocity.

Import RevoluteJoint.
Variables (step : TimeStep.t) (j : t) (W : World).

Let vA := Velocity.v (Body.c_velocity (W (m_bodyA j))).
Let wA0 := Velocity.w (Body.c_velocity (W (m_bodyA j))).
Let vB := Velocity.v (Body.c_velocity (W (m_bodyB j))).
Let wB0 := Velocity.w (Body.c_velocity (W (m_bodyB j))).
Let fixedRotation := Math.eqb (m_invIA j + m_invIB j) 0.
Let motor := solveMotor step j fixedRotation wA0 wB0.
Let wA := snd (fst motor).
Let wB := snd motor.
Let Cdot1 := pointCdot j vA wA vB wB.
Let j' := fst (solveVelocityConstraints step j W).

(** The accumulated impulses after the call, by the branch taken. *)
Lemma Revolute_solveVelocity_impulses :
  m_motorImpulse j' = fst (fst motor) /\
  m_impulse j' =
    if m_enableLimit j && negb (LimitState_eqb (m_limitState j) inactiveLimit)
       && negb fixedRotation
    then snd (solveLimit j Cdot1 (wB - wA))
    else
      let impulse := solvePoint j Cdot1 in
      Vec3.neo (Vec3.x (m_impulse j) + Vec2.x impulse)
               (Vec3.y (m_impulse j) + Vec2.y impulse)
               (Vec3.z (m_impulse j)).
Proof.
  subst j' Cdot1 wA wB motor.
  unfold solveVelocityConstraints; cbv zeta.
  fold vA wA0 vB wB0 fixedRotation.
  destruct (solveMotor step j fixedRotation wA0 wB0) as [[mi a] b].
  cbn [fst snd].
  replace (Bool.eqb fixedRotation false) with (negb fixedRotation)
    by (destruct fixedRotation; reflexivity).
  destruct (m_enableLimit j && negb (LimitState_eqb (m_limitState j) inactiveLimit)
            && negb fixedRotation).
  - destruct (solveLimit j _ _) as [imp acc]. split; reflexivity.
  - split; reflexivity.
Qed.

(** The limit block adds the full 3-by-3 solution in state
    [equalLimits]; at a bound it adds it as long as the limit impulse
    keeps its sign, and otherwise falls back on the 2-by-2 block. *)
Lemma solveLimit_cases (C1 : Vec2.t) (C2 : R) :
  let full :=
    Vec3.neg (Mat33.solve33 (m_mass j)
                (Vec3.neo (Vec2.x C1) (Vec2.y C1) C2)) in
  let newImpulse := Vec3.z (m_impulse j) + Vec3.z full in
  (m_limitState j = equalLimits ->
     snd (solveLimit j C1 C2) = Vec3.add (m_impulse j) full) /\
  (m_limitState j = atLowerLimit -> ~ newImpulse < 0 ->
     snd (solveLimit j C1 C2) = Vec3.add (m_impulse j) full) /\
  (m_limitState j = atLowerLimit -> newImpulse < 0 ->
     snd (solveLimit j C1 C2) = snd (reducedImpulse j C1)) /\
  (m_limitState j = atUpperLimit -> ~ newImpulse > 0 ->
     snd (solveLimit j C1 C2) = Vec3.add (m_impulse j) full) /\
  (m_limitState j = atUpperLimit -> newImpulse > 0 ->
     snd (solveLimit j C1 C2) = snd (reducedImpulse j C1)).
Proof.
  intros full newImpulse. unfold solveLimit; cbv zeta.
  fold full. fold newImpulse.
  repeat split; intro Hst; rewrite Hst; try reflexivity; intro Hn.
  - rewrite (MathFacts.ltb_false _ _ Hn); reflexivity.
  - rewrite (MathFacts.ltb_true _ _ Hn); reflexivity.
  - rewrite (MathFacts.gtb_false _ _ Hn); reflexivity.
  - rewrite (MathFacts.gtb_true _ _ Hn); reflexivity.
Qed.

End RevoluteVelocity.

(** The motor block, written out: when the motor is on, the state is not
    [equalLimits] and a body can rotate, the motor impulse grows by
    [- m_motorMass * (wB - wA - m_motorSpeed)] and is clamped to the
    largest impulse of the step, and the two angular velocities move by
    the impulse actually added; otherwise nothing changes. *)
Lemma solveMotor_cases (step : TimeStep.t) (j : RevoluteJoint.t)
    (fixedRotation : bool) (wA wB : R) :
  let motorOn :=
    RevoluteJoint.m_enableMotor j
    && negb (RevoluteJoint.LimitState_eqb (RevoluteJoint.m_limitState j)
               RevoluteJoint.equalLimits)
    && negb fixedRotation in
  let maxImpulse := TimeStep.dt step * RevoluteJoint.m_maxMotorTorque j in
  let motorImpulse :=
    if motorOn then
      Math.clamp
        (RevoluteJoint.m_motorImpulse j
         + - RevoluteJoint.m_motorMass j
           * (wB - wA - RevoluteJoint.m_motorSpeed j))
        (- maxImpulse) maxImpulse
    else RevoluteJoint.m_motorImpulse j in
  RevoluteJoint.solveMotor step j fixedRotation wA wB =
  (motorImpulse,
   if motorOn then
     wA - RevoluteJoint.m_invIA j
          * (motorImpulse - RevoluteJoint.m_motorImpulse j)
   else wA,
   if motorOn then
     wB + RevoluteJoint.m_invIB j
          * (motorImpulse - RevoluteJoint.m_motorImpulse j)
   else wB).
Proof.
  cbv zeta. unfold RevoluteJoint.solveMotor; cbv zeta.
  replace (Bool.eqb fixedRotation false) with (negb fixedRotation)
    by (destruct fixedRotation; reflexivity).
  destruct (RevoluteJoint.m_enableMotor j
            && negb (RevoluteJoint.LimitState_eqb (RevoluteJoint.m_limitState j)
                       RevoluteJoint.equalLimits)
            && negb fixedRotation); reflexivity.
Qed.

(** C7 (amended).  [RevoluteJoint.solveVelocityConstraints] first runs
    the motor: when the motor is enabled, the limit state is not
    [equalLimits] and a body can rotate, the motor impulse grows by
    [- m_motorMass * (wB - wA - m_motorSpeed)], for the scalar motor mass,
    and is clamped into [[- dt * m_maxMotorTorque, dt * m_maxMotorTorque]],
    and the angular velocities move by the impulse added; otherwise the
    motor impulse stays.  It then solves the full 3-by-3 system whenever
    the limit is enabled, the limit state is not [inactiveLimit] and a
    body can rotate.  In state [equalLimits] it adds the solution to the
    accumulated impulse; in state [atLowerLimit] (resp. [atUpperLimit])
    it adds it too unless the limit impulse would become negative (resp.
    positive), in which case it solves the 2-by-2 block for the point
    impulse and zeroes the limit impulse.  Otherwise (limit off,
    inactive, or no body rotating) it solves the 2-by-2 point-to-point
    block and leaves the limit impulse. *)
Theorem C7_revolute_velocity_solver
    (step : TimeStep.t) (j : RevoluteJoint.t) (W : World) :
  let vA := Velocity.v (Body.c_velocity (W (RevoluteJoint.m_bodyA j))) in
  let wA0 := Velocity.w (Body.c_velocity (W (RevoluteJoint.m_bodyA j))) in
  let vB := Velocity.v (Body.c_velocity (W (RevoluteJoint.m_bodyB j))) in
  let wB0 := Velocity.w (Body.c_velocity (W (RevoluteJoint.m_bodyB j))) in
  let fixedRotation :=
    Math.eqb (RevoluteJoint.m_invIA j + RevoluteJoint.m_invIB j) 0 in
  let motorOn :=
    RevoluteJoint.m_enableMotor j
    && negb (RevoluteJoint.LimitState_eqb (RevoluteJoint.m_limitState j)
               RevoluteJoint.equalLimits)
    && negb fixedRotation in
  let maxImpulse := TimeStep.dt step * RevoluteJoint.m_maxMotorTorque j in
  let motorImpulse :=
    if motorOn then
      Math.clamp
        (RevoluteJoint.m_motorImpulse j
         + - RevoluteJoint.m_motorMass j
           * (wB0 - wA0 - RevoluteJoint.m_motorSpeed j))
        (- maxImpulse) maxImpulse
    else RevoluteJoint.m_motorImpulse j in
  let wA :=
    if motorOn then
      wA0 - RevoluteJoint.m_invIA j
            * (motorImpulse - RevoluteJoint.m_motorImpulse j)
    else wA0 in
  let wB :=
    if motorOn then
      wB0 + RevoluteJoint.m_invIB j
            * (motorImpulse - RevoluteJoint.m_motorImpulse j)
    else wB0 in
  let Cdot1 := RevoluteJoint.pointCdot j vA wA vB wB in
  let full :=
    Vec3.neg (Mat33.solve33 (RevoluteJoint.m_mass j)
                (Vec3.neo (Vec2.x Cdot1) (Vec2.y Cdot1) (wB - wA))) in
  let reduced :=
    Mat33.solve22 (RevoluteJoint.m_mass j)
      (Vec2.combine (-1) Cdot1 (Vec3.z (RevoluteJoint.m_impulse j))
         (Vec2.neo (Vec3.x (Mat33.ez (RevoluteJoint.m_mass j)))
                   (Vec3.y (Mat33.ez (RevoluteJoint.m_mass j))))) in
  let point := Mat33.solve22 (RevoluteJoint.m_mass j) (Vec2.neg Cdot1) in
  let x := Vec3.x (RevoluteJoint.m_impulse j) in
  let y := Vec3.y (RevoluteJoint.m_impulse j) in
  let z := Vec3.z (RevoluteJoint.m_impulse j) in
  let active :=
    RevoluteJoint.m_enableLimit j
    && negb (RevoluteJoint.LimitState_eqb (RevoluteJoint.m_limitState j)
               RevoluteJoint.inactiveLimit)
    && negb fixedRotation in
  let j' := fst (RevoluteJoint.solveVelocityConstraints step j W) in
  (active = true ->
     (RevoluteJoint.m_limitState j = RevoluteJoint.equalLimits ->
        RevoluteJoint.m_impulse j' = Vec3.add (RevoluteJoint.m_impulse j) full) /\
     (RevoluteJoint.m_limitState j = RevoluteJoint.atLowerLimit ->
        ~ z + Vec3.z full < 0 ->
        RevoluteJoint.m_impulse j' = Vec3.add (RevoluteJoint.m_impulse j) full) /\
     (RevoluteJoint.m_limitState j = RevoluteJoint.atLowerLimit ->
        z + Vec3.z full < 0 ->
        RevoluteJoint.m_impulse j' =
          Vec3.neo (x + Vec2.x reduced) (y + Vec2.y reduced) 0) /\
     (RevoluteJoint.m_limitState j = RevoluteJoint.atUpperLimit ->
        ~ z + Vec3.z full > 0 ->
        RevoluteJoint.m_impulse j' = Vec3.add (RevoluteJoint.m_impulse j) full) /\
     (RevoluteJoint.m_limitState j = RevoluteJoint.atUpperLimit ->
        z + Vec3.z full > 0 ->
        RevoluteJoint.m_impulse j' =
          Vec3.neo (x + Vec2.x reduced) (y + Vec2.y reduced) 0)) /\
  (active = false ->
     RevoluteJoint.m_impulse j' =
       Vec3.neo (x + Vec2.x point) (y + Vec2.y point) z) /\
  RevoluteJoint.m_motorImpulse j' = motorImpulse.
Proof.
  intros vA wA0 vB wB0 fixedRotation motorOn maxImpulse motorImpulse wA wB
         Cdot1 full reduced point x y z active j'.
  destruct (Revolute_solveVelocity_impulses step j W) as [Hmotor Himp].
  cbv zeta in Hmotor, Himp.
  rewrite solveMotor_cases in Hmotor, Himp.
  cbv zeta in Hmotor, Himp. cbn [fst snd] in Hmotor, Himp.
  fold vA wA0 vB wB0 fixedRotation motorOn maxImpulse motorImpulse
    in Hmotor, Himp.
  fold wA wB in Himp. fold Cdot1 active j' in Himp. fold j' in Hmotor.
  destruct (solveLimit_cases j Cdot1 (wB - wA))
    as [Heq [Hlo [Hlo' [Hup Hup']]]].
  fold full z in Heq, Hlo, Hlo', Hup, Hup'.
  split; [|split].
  - intro Hact. rewrite Hact in Himp. rewrite Himp.
    repeat split; intros Hst.
    + apply Heq; assumption.
    + intro Hn. apply Hlo; assumption.
    + intro Hn. rewrite (Hlo' Hst Hn). reflexivity.
    + intro Hn. apply Hup; assumption.
    + intro Hn. rewrite (Hup' Hst Hn). reflexivity.
  - intro Hact. rewrite Hact in Himp. exact Himp.
  - exact Hmotor.
Qed.

Lemma solveMotor_off (step : TimeStep.t) (j : RevoluteJoint.t)
    (fixedRotation : bool) (wA wB : R) :
  RevoluteJoint.m_enableMotor j = false ->
  RevoluteJoint.solveMotor step j fixedRotation wA wB
  = (RevoluteJoint.m_motorImpulse j, wA, wB).
Proof. intro Hoff. unfold RevoluteJoint.solveMotor. rewrite Hoff. reflexivity. Qed.

Lemma pointCdot_at_rest (j : RevoluteJoint.t) (wA wB : R) :
  RevoluteJoint.m_rA j = Vec2.zero -> RevoluteJoint.m_rB j = Vec2.zero ->
  RevoluteJoint.pointCdot j Vec2.zero wA Vec2.zero wB = Vec2.neo 0 0.
Proof.
  intros HA HB. unfold RevoluteJoint.pointCdot; cbv zeta. rewrite HA, HB.
  unfold Vec2.subCombine, Vec2.addCombine, Vec2.crossNumVec2, Vec2.zero; simpl.
  f_equal; ring.
Qed.

Lemma Example_K_solve33 (c : R) :
  Mat33.solve33 Example.K (Vec3.neo 0 0 c) = Vec3.neo 0 0 (c / 2).
Proof.
  unfold Mat33.solve33, Example.K, Vec3.dot, Vec3.cross; cbv zeta.
  cbn [Mat33.ex Mat33.ey Mat33.ez Vec3.x Vec3.y Vec3.z].
  rewrite MathFacts.neqb_true by lra.
  f_equal; field.
Qed.

(** C7, as the specification states it, fails in state [atLowerLimit]:
    with body 1 turning at -1 against body 0, the solver adds the
    solution of the 3-by-3 system, a limit impulse of 1/2, where the
    2-by-2 point-to-point block would leave the limit impulse at 0. *)
Lemma C7_counterexample :
  let j := Example.revolute RevoluteJoint.atLowerLimit 0 Example.K in
  let j' :=
    fst (RevoluteJoint.solveVelocityConstraints (Example.step true) j
           Example.spinning) in
  let full :=
    Vec3.neg (Mat33.solve33 (RevoluteJoint.m_mass j) (Vec3.neo 0 0 (-1 - 0))) in
  RevoluteJoint.m_enableLimit j = true /\
  RevoluteJoint.m_limitState j = RevoluteJoint.atLowerLimit /\
  RevoluteJoint.m_impulse j' = Vec3.add (RevoluteJoint.m_impulse j) full /\
  Vec3.z (RevoluteJoint.m_impulse j) = 0 /\
  Vec3.z (RevoluteJoint.m_impulse j') = 1 / 2.
Proof.
  intros j j' full.
  split; [reflexivity|]. split; [reflexivity|].
  assert (Hfull : full = Vec3.neo 0 0 (1 / 2)).
  { unfold full, j. cbn [Example.revolute RevoluteJoint.m_mass].
    rewrite Example_K_solve33. unfold Vec3.neg; simpl. f_equal; lra. }
  assert (Himp' : RevoluteJoint.m_impulse j'
                  = Vec3.add (RevoluteJoint.m_impulse j) full).
  { destruct (Revolute_solveVelocity_impulses (Example.step true) j
                Example.spinning) as [_ Himp].
    fold j' in Himp. rewrite Himp. clear Himp.
    rewrite solveMotor_off by reflexivity.
    cbn [fst snd].
    replace (RevoluteJoint.m_invIA j + RevoluteJoint.m_invIB j) with (1 + 1)
      by reflexivity.
    rewrite (MathFacts.eqb_false (1 + 1) 0) by lra.
    replace (RevoluteJoint.m_enableLimit j) with true by reflexivity.
    replace (RevoluteJoint.m_limitState j) with RevoluteJoint.atLowerLimit
      by reflexivity.
    cbn [RevoluteJoint.LimitState_eqb negb andb].
    replace (Velocity.v (Body.c_velocity (Example.spinning (RevoluteJoint.m_bodyA j))))
      with Vec2.zero by reflexivity.
    replace (Velocity.v (Body.c_velocity (Example.spinning (RevoluteJoint.m_bodyB j))))
      with Vec2.zero by reflexivity.
    replace (Velocity.w (Body.c_velocity (Example.spinning (RevoluteJoint.m_bodyA j))))
      with 0 by reflexivity.
    replace (Velocity.w (Body.c_velocity (Example.spinning (RevoluteJoint.m_bodyB j))))
      with (-1) by reflexivity.
    rewrite pointCdot_at_rest by reflexivity.
    destruct (solveLimit_cases j (Vec2.neo 0 0) (-1 - 0)) as [_ [Hlo _]].
    cbn [Vec2.x Vec2.y] in Hlo. fold full in Hlo.
    apply Hlo; [reflexivity|].
    rewrite Hfull. unfold j; simpl. lra. }
  split; [exact Himp'|]. split; [reflexivity|].
  rewrite Himp', Hfull. unfold j; simpl. lra.
Qed.

(** In state [equalLimits], with the motor off, body 1 turning at -1
    against body 0 gets the limit impulse 1/2 of the 3-by-3 system; and
    the motor of [Sample.motor], which asks for an impulse of 1, is held
    at the largest impulse [dt * 10] of the step. *)
Lemma C7_revolute_velocity_solver_witness :
  RevoluteJoint.m_impulse
    (fst (RevoluteJoint.solveVelocityConstraints (Example.step true)
            (Example.revolute RevoluteJoint.equalLimits 0 Example.K)
            Example.spinning))
  = Vec3.neo 0 0 (1 / 2) /\
  RevoluteJoint.m_motorImpulse
    (fst (RevoluteJoint.solveVelocityConstraints (Example.step true)
            Sample.motor Example.spinning))
  = 1 / 60 * 10.
Proof.
  split.
  - pose proof
      (proj1
         (C7_revolute_velocity_solver (Example.step true)
            (Example.revolute RevoluteJoint.equalLimits 0 Example.K)
            Example.spinning)) as Hfull.
    cbv zeta in Hfull.
    cbn [Example.revolute RevoluteJoint.m_enableMotor andb] in Hfull.
    replace (RevoluteJoint.m_invIA (Example.revolute RevoluteJoint.equalLimits 0 Example.K)
             + RevoluteJoint.m_invIB (Example.revolute RevoluteJoint.equalLimits 0 Example.K))
      with (1 + 1) in Hfull by reflexivity.
    rewrite (MathFacts.eqb_false (1 + 1) 0) in Hfull by lra.
    rewrite (proj1 (Hfull eq_refl) eq_refl).
    change (Velocity.v (Body.c_velocity (Example.spinning
              (RevoluteJoint.m_bodyA (Example.revolute RevoluteJoint.equalLimits 0 Example.K)))))
      with Vec2.zero.
    change (Velocity.v (Body.c_velocity (Example.spinning
              (RevoluteJoint.m_bodyB (Example.revolute RevoluteJoint.equalLimits 0 Example.K)))))
      with Vec2.zero.
    rewrite pointCdot_at_rest by reflexivity.
    cbn [Vec2.x Vec2.y Example.revolute RevoluteJoint.m_mass RevoluteJoint.m_impulse].
    rewrite Example_K_solve33.
    unfold Vec3.add, Vec3.neg; simpl. f_equal; lra.
  - pose proof
      (proj2 (proj2
         (C7_revolute_velocity_solver (Example.step true) Sample.motor
            Example.spinning))) as Hmotor.
    cbv zeta in Hmotor. rewrite Hmotor. clear Hmotor.
    cbn [Sample.motor RevoluteJoint.m_enableMotor RevoluteJoint.m_limitState
         RevoluteJoint.LimitState_eqb RevoluteJoint.m_invIA RevoluteJoint.m_invIB
         RevoluteJoint.m_motorImpulse RevoluteJoint.m_motorMass
         RevoluteJoint.m_motorSpeed RevoluteJoint.m_maxMotorTorque
         RevoluteJoint.m_bodyA RevoluteJoint.m_bodyB
         Example.step TimeStep.dt Example.spinning Example.body Nat.eqb
         Body.c_velocity Velocity.w].
    rewrite (MathFacts.eqb_false (1 + 1) 0) by lra.
    cbn [negb andb].
    unfold Math.clamp.
    rewrite MathFacts.ltb_false by lra.
    rewrite MathFacts.gtb_true by lra.
    reflexivity.
Defined.

(** ** The pulley joint: the check of the ratio *)

Section PulleyRatioCheck.

Import PulleyJoint.
Variables (EPSILON : R) (def : Def) (bodyA bodyB : nat)
          (groundA groundB anchorA anchorB : option Vec2.t) (W : World).

(** Without the checks compiled in, no assertion fails. *)
Lemma Pulley_new_unchecked (ratio : JsValue.t) :
  new EPSILON false def bodyA bodyB groundA groundB anchorA anchorB ratio W
  <> Throws AssertionError.
Proof.
  unfold new; cbv zeta. unfold common_assert, bind, finite, distance_opt.
  destruct (lengthA def), (lengthB def), anchorA, anchorB, groundA, groundB,
    ratio, (PulleyJoint.ratio def); simpl; discriminate.
Qed.

(** With the checks compiled in and both lengths given, a call that
    passes the ratio as an argument is checked on it. *)
Lemma Pulley_new_checked_argument (lA lB r : R) :
  lengthA def = JsValue.Num lA -> lengthB def = JsValue.Num lB ->
  (r > EPSILON ->
     exists j,
       new EPSILON true def bodyA bodyB groundA groundB anchorA anchorB
         (JsValue.Num r) W = Returns j /\ m_ratio j = r) /\
  (~ r > EPSILON ->
     new EPSILON true def bodyA bodyB groundA groundB anchorA anchorB
       (JsValue.Num r) W = Throws AssertionError).
Proof.
  intros HlA HlB. unfold new; cbv zeta. rewrite HlA, HlB.
  cbn [JsValue.isFinite finite bind common_assert JsValue.gtb].
  split; intro Hr.
  - rewrite (MathFacts.gtb_true _ _ Hr). cbn [bind].
    eexists; split; reflexivity.
  - rewrite (MathFacts.gtb_false _ _ Hr). reflexivity.
Qed.

(** With the checks compiled in and both lengths given, a call that
    leaves the ratio to the definition fails the assertion, whatever
    the ratio of the definition. *)
Lemma Pulley_new_checked_definition (lA lB : R) :
  lengthA def = JsValue.Num lA -> lengthB def = JsValue.Num lB ->
  new EPSILON true def bodyA bodyB groundA groundB anchorA anchorB
    JsValue.undefined W = Throws AssertionError.
Proof.
  intros HlA HlB. unfold new; cbv zeta. rewrite HlA, HlB. reflexivity.
Qed.

End PulleyRatioCheck.

(** C9.  The specification has a pulley joint constructed with a valid
    ratio never fail the assertion.  The code checks the constructor argument
    [ratio], not the ratio the joint takes: constructed from a definition
    alone, with the valid ratio 2 and the checks compiled in, the
    assertion fails; with the checks left out the same call returns the
    joint, whose ratio is 2. *)
Theorem C9_pulley_definition_ratio_fails_assertion :
  PulleyJoint.new Example.EPSILON true Example.pulleyDef 0 1
    None None None None JsValue.undefined (Example.world Vec2.zero 0)
  = Throws AssertionError /\
  exists j,
    PulleyJoint.new Example.EPSILON false Example.pulleyDef 0 1
      None None None None JsValue.undefined (Example.world Vec2.zero 0)
    = Returns j /\
    PulleyJoint.getRatio j = 2 /\ PulleyJoint.getRatio j > Example.EPSILON.
Proof.
  split.
  - reflexivity.
  - eexists. split; [reflexivity|].
    unfold PulleyJoint.getRatio, Example.EPSILON; simpl. split; lra.
Qed.

(** * Further properties *)

(** ** Two circles: symmetry and what is left alone *)

Lemma distanceSquared_sym (v w : Vec2.t) :
  Vec2.distanceSquared v w = Vec2.distanceSquared w v.
Proof. unfold Vec2.distanceSquared; cbv zeta. ring. Qed.

(** X1.  Whether two circles touch does not depend on which one comes
    first: [CollideCircles] leaves the same number of points for
    [(A, B)] and for [(B, A)], whatever the manifolds started as. *)
Theorem X1_CollideCircles_symmetric
    (manifold manifold' : Manifold.t) (circleA circleB : CircleShape.t)
    (xfA xfB : Transform.t) :
  Manifold.pointCount (CollideCircles manifold circleA xfA circleB xfB) =
  Manifold.pointCount (CollideCircles manifold' circleB xfB circleA xfA).
Proof.
  set (pA := Transform.mulVec2 xfA (CircleShape.m_p circleA)).
  set (pB := Transform.mulVec2 xfB (CircleShape.m_p circleB)).
  set (rA := CircleShape.m_radius circleA).
  set (rB := CircleShape.m_radius circleB).
  destruct (Rle_dec (Vec2.distanceSquared pB pA) ((rA + rB) * (rA + rB)))
    as [Hle | Hgt].
  - rewrite (CollideCircles_touching manifold circleA circleB xfA xfB Hle).
    rewrite (CollideCircles_touching manifold' circleB circleA xfB xfA).
    + reflexivity.
    + fold pA pB rA rB. rewrite distanceSquared_sym.
      replace ((rB + rA) * (rB + rA)) with ((rA + rB) * (rA + rB)) by ring.
      exact Hle.
  - apply Rnot_le_gt in Hgt.
    rewrite (CollideCircles_apart manifold circleA circleB xfA xfB Hgt).
    rewrite (CollideCircles_apart manifold' circleB circleA xfB xfA).
    + reflexivity.
    + fold pA pB rA rB. rewrite distanceSquared_sym.
      replace ((rB + rA) * (rB + rA)) with ((rA + rB) * (rA + rB)) by ring.
      exact Hgt.
Qed.

(** X2.  [CollideCircles] leaves at most one point, and never touches the
    accumulated impulses of the first manifold point nor the second
    manifold point. *)
Theorem X2_CollideCircles_frame
    (manifold : Manifold.t) (circleA circleB : CircleShape.t)
    (xfA xfB : Transform.t) :
  let manifold' := CollideCircles manifold circleA xfA circleB xfB in
  (Manifold.pointCount manifold' <= 1)%nat /\
  Manifold.normalImpulse (fst (Manifold.points manifold')) =
    Manifold.normalImpulse (fst (Manifold.points manifold)) /\
  Manifold.tangentImpulse (fst (Manifold.points manifold')) =
    Manifold.tangentImpulse (fst (Manifold.points manifold)) /\
  snd (Manifold.points manifold') = snd (Manifold.points manifold).
Proof.
  intro manifold'. subst manifold'.
  unfold CollideCircles; cbv zeta.
  destruct (Math.gtb _ _); simpl; repeat split; auto.
Qed.

(** ** Position solvers at rest *)

Lemma length_on_axis (a : R) : 0 <= a -> Vec2.length (Vec2.neo a 0) = a.
Proof.
  intro Ha. unfold Vec2.length; simpl.
  replace (a * a + 0 * 0) with (a * a) by ring.
  apply sqrt_square; exact Ha.
Qed.


Lemma clamp_inside_eq (num min max v : R) :
  min <= num <= max -> num = v -> Math.clamp num min max = v.
Proof. intros H <-. apply MathFacts.clamp_inside; exact H. Qed.

Lemma with_c_subMul_zero (m : R) (P : Vec2.t) (b : Body.t) :
  Vec2.x P = 0 -> Vec2.y P = 0 ->
  Body.with_c (fun c => Vec2.subMul c m P) b = b.
Proof.
  intros Hx Hy. destruct b as [aw xf sw im ii [[cx cy] a] v].
  unfold Body.with_c, Vec2.subMul; simpl. rewrite Hx, Hy.
  do 3 f_equal; ring.
Qed.

Lemma with_c_addMul_zero (m : R) (P : Vec2.t) (b : Body.t) :
  Vec2.x P = 0 -> Vec2.y P = 0 ->
  Body.with_c (fun c => Vec2.addMul c m P) b = b.
Proof.
  intros Hx Hy. destruct b as [aw xf sw im ii [[cx cy] a] v].
  unfold Body.with_c, Vec2.addMul; simpl. rewrite Hx, Hy.
  do 3 f_equal; ring.
Qed.

Lemma cross_zero_r (r P : Vec2.t) :
  Vec2.x P = 0 -> Vec2.y P = 0 -> Vec2.cross r P = 0.
Proof. intros Hx Hy. unfold Vec2.cross. rewrite Hx, Hy. ring. Qed.

(** Four writes that change nothing: two in-place writes that are the
    identity, and the two angles written back as read. *)
Lemma four_writes_fixed (W : World) (bA bB b : nat)
    (f g : Body.t -> Body.t) (aA aB : R) :
  (forall x, f x = x) -> (forall x, g x = x) ->
  aA = Position.a (Body.c_position (W bA)) ->
  aB = Position.a (Body.c_position (W bB)) ->
  update (update (update (update W bA f) bB g) bA (Body.set_a aA))
         bB (Body.set_a aB) b = W b.
Proof.
  intros Hf Hg -> ->. unfold update.
  destruct (Nat.eqb_spec b bB) as [-> | HneB];
    destruct (Nat.eqb_spec bB bA) as [-> | HneA];
    try destruct (Nat.eqb_spec b bA) as [-> | HneA'];
    rewrite ?Hf, ?Hg, ?set_a_same; try reflexivity.
  all: rewrite ?Hf, ?Hg, ?set_a_same; reflexivity.
Qed.

(** X7.  A rigid distance joint whose (clamped) position error is zero is
    left alone by [solvePositionConstraints]: no body changes, and the
    call reports the joint solved. *)
Theorem X7_distance_position_at_rest
    (Settings : Settings.t) (EPSILON : R) (step : TimeStep.t)
    (j : DistanceJoint.t) (W : World) :
  ~ DistanceJoint.m_frequencyHz j > 0 ->
  DistanceJoint.positionError Settings EPSILON j W = 0 ->
  0 < Settings.linearSlop Settings ->
  fst (DistanceJoint.solvePositionConstraints Settings EPSILON step j W) = true /\
  forall b,
    snd (DistanceJoint.solvePositionConstraints Settings EPSILON step j W) b
    = W b.
Proof.
  intros Hrigid HC Hslop.
  unfold DistanceJoint.solvePositionConstraints; cbv zeta.
  rewrite (MathFacts.gtb_false _ _ Hrigid). rewrite HC. cbn [fst snd].
  split.
  - unfold Math.abs. rewrite Rabs_R0. apply MathFacts.ltb_true; exact Hslop.
  - intro b. apply four_writes_fixed.
    + intro x. apply with_c_subMul_zero; unfold Vec2.mul; simpl; ring.
    + intro x. apply with_c_addMul_zero; unfold Vec2.mul; simpl; ring.
    + rewrite cross_zero_r by (unfold Vec2.mul; simpl; ring). ring.
    + rewrite cross_zero_r by (unfold Vec2.mul; simpl; ring). ring.
Qed.

Lemma Sample_positionError :
  DistanceJoint.positionError Example.Settings Example.EPSILON
    Sample.distance Sample.apart = 0.
Proof.
  unfold DistanceJoint.positionError; cbv zeta.
  replace (Vec2.sub _ _) with (Vec2.neo 3 0).
  - unfold Vec2_normalize; cbv zeta.
    rewrite length_on_axis by lra.
    unfold Example.EPSILON. rewrite MathFacts.ltb_false by lra.
    cbn [fst Sample.distance DistanceJoint.m_length Example.Settings
         Settings.maxLinearCorrection].
    apply clamp_inside_eq; lra.
  - unfold Vec2.sub, Vec2.add, Rot.mulSub; simpl. f_equal; ring.
Qed.

Lemma X7_distance_position_at_rest_witness :
  fst (DistanceJoint.solvePositionConstraints Example.Settings Example.EPSILON
         (Example.step true) Sample.distance Sample.apart) = true.
Proof.
  refine (proj1
    (X7_distance_position_at_rest Example.Settings Example.EPSILON
       (Example.step true) Sample.distance Sample.apart _ _ _)).
  - simpl; lra.
  - exact Sample_positionError.
  - simpl; lra.
Defined.

(** ** The distance joint: anchors and length *)

(** X8.  What [_setAnchors] does to the length of a distance joint: a
    positive [def.length] becomes the length; a negative one leaves the
    length; with no [def.length], the length is measured again between
    the two anchors when [def.anchorA] is given, and is left as it is when
    [def.anchorA] is not given, whichever other anchors are. *)
Theorem X8_distance_setAnchors_length
    (anchorA localAnchorA anchorB localAnchorB : option Vec2.t)
    (j : DistanceJoint.t) (W : World) :
  let def := DistanceJoint.mkAnchorsDef anchorA localAnchorA anchorB localAnchorB in
  (forall l, l > 0 ->
     exists j', DistanceJoint._setAnchors (def (JsValue.Num l)) j W = Returns j' /\
                DistanceJoint.getLength j' = l) /\
  (forall l, l < 0 ->
     exists j', DistanceJoint._setAnchors (def (JsValue.Num l)) j W = Returns j' /\
                DistanceJoint.getLength j' = DistanceJoint.getLength j) /\
  (anchorA <> None ->
     exists j', DistanceJoint._setAnchors (def JsValue.undefined) j W = Returns j' /\
                DistanceJoint.getLength j' =
                Vec2.distance (DistanceJoint.getAnchorA j' W)
                              (DistanceJoint.getAnchorB j' W)) /\
  (anchorA = None ->
     exists j', DistanceJoint._setAnchors (def JsValue.undefined) j W = Returns j' /\
                DistanceJoint.getLength j' = DistanceJoint.getLength j).
Proof.
  intro def. repeat split.
  - intros l Hl. unfold DistanceJoint._setAnchors; cbv zeta.
    cbn [def DistanceJoint.def_length JsValue.gtb].
    rewrite (MathFacts.gtb_true _ _ Hl).
    eexists; split; reflexivity.
  - intros l Hl. unfold DistanceJoint._setAnchors; cbv zeta.
    cbn [def DistanceJoint.def_length JsValue.gtb JsValue.ltb].
    rewrite MathFacts.gtb_false by lra.
    rewrite (MathFacts.ltb_true _ _ Hl).
    eexists; split; reflexivity.
  - intro Hsome. destruct anchorA as [a|]; [|contradiction].
    eexists; split; reflexivity.
  - intros ->. eexists; split; reflexivity.
Qed.

Lemma X8_distance_setAnchors_length_witness :
  exists j',
    DistanceJoint._setAnchors
      (DistanceJoint.mkAnchorsDef None None (Some (Vec2.neo 1 1)) None
         JsValue.undefined) Sample.distance Sample.apart = Returns j' /\
    DistanceJoint.getLength j' = DistanceJoint.getLength Sample.distance.
Proof.
  exact (proj2 (proj2 (proj2
    (X8_distance_setAnchors_length None None (Some (Vec2.neo 1 1)) None
       Sample.distance Sample.apart))) eq_refl).
Defined.

(** ** The revolute joint: motor and limit impulses *)

Section RevoluteImpulses.

Import RevoluteJoint.
Variables (step : TimeStep.t) (j : t).

Let maxImpulse := TimeStep.dt step * m_maxMotorTorque j.

(** The motor block keeps the motor impulse within the largest impulse
    the motor may give in a step. *)
Lemma solveMotor_bound (fixedRotation : bool) (wA wB : R) :
  0 <= maxImpulse ->
  - maxImpulse <= m_motorImpulse j <= maxImpulse
  \/ (m_enableMotor j = true /\ m_limitState j <> equalLimits
      /\ fixedRotation = false) ->
  - maxImpulse <= fst (fst (solveMotor step j fixedRotation wA wB))
    <= maxImpulse.
Proof.
  intros Hmax Hcase. unfold solveMotor; cbv zeta. fold maxImpulse.
  destruct (m_enableMotor j && negb (LimitState_eqb (m_limitState j) equalLimits)
            && Bool.eqb fixedRotation false) eqn:Hact.
  - cbn [fst]. apply MathFacts.clamp_bounds. lra.
  - cbn [fst]. destruct Hcase as [Hb | [Hen [Hst Hfr]]]; [exact Hb|].
    rewrite Hen, Hfr in Hact.
    destruct (m_limitState j); simpl in Hact; try discriminate.
    contradiction Hst; reflexivity.
Qed.

(** The limit block leaves a limit impulse that pushes away from the
    bound: not negative at the lower bound, not positive at the upper. *)
Lemma solveLimit_sign (C1 : Vec2.t) (C2 : R) :
  (m_limitState j = atLowerLimit ->
     0 <= Vec3.z (snd (solveLimit j C1 C2))) /\
  (m_limitState j = atUpperLimit ->
     Vec3.z (snd (solveLimit j C1 C2)) <= 0).
Proof.
  destruct (solveLimit_cases j C1 C2) as [_ [Hlo [Hlo' [Hup Hup']]]].
  cbv zeta in Hlo, Hlo', Hup, Hup'.
  set (full := Vec3.neg (Mat33.solve33 (m_mass j)
                (Vec3.neo (Vec2.x C1) (Vec2.y C1) C2))) in *.
  clearbody full.
  split; intro Hst.
  - destruct (Rlt_dec (Vec3.z (m_impulse j) + Vec3.z full) 0) as [Hneg | Hpos].
    + rewrite (Hlo' Hst Hneg). simpl. lra.
    + rewrite (Hlo Hst Hpos). simpl. lra.
  - destruct (Rlt_dec 0 (Vec3.z (m_impulse j) + Vec3.z full)) as [Hpos | Hneg].
    + rewrite (Hup' Hst Hpos). simpl. lra.
    + rewrite (Hup Hst Hneg). simpl. lra.
Qed.

End RevoluteImpulses.

(** X10.  When [dt * maxMotorTorque], as the code computes it, is not
    negative, [RevoluteJoint.solveVelocityConstraints] leaves the
    accumulated motor impulse between [- dt * maxMotorTorque] and
    [dt * maxMotorTorque]: always when the motor is driven (motor on,
    limit state not [equalLimits], a body rotating), and otherwise when
    it was within these bounds before. *)
Theorem X10_revolute_motor_impulse_bounded
    (step : TimeStep.t) (j : RevoluteJoint.t) (W : World) :
  let maxImpulse := TimeStep.dt step * RevoluteJoint.m_maxMotorTorque j in
  0 <= maxImpulse ->
  - maxImpulse <= RevoluteJoint.m_motorImpulse j <= maxImpulse
  \/ (RevoluteJoint.m_enableMotor j = true /\
      RevoluteJoint.m_limitState j <> RevoluteJoint.equalLimits /\
      RevoluteJoint.m_invIA j + RevoluteJoint.m_invIB j <> 0) ->
  let j' := fst (RevoluteJoint.solveVelocityConstraints step j W) in
  - maxImpulse <= RevoluteJoint.m_motorImpulse j' <= maxImpulse.
Proof.
  intros maxImpulse Hmax Hcase j'.
  destruct (Revolute_solveVelocity_impulses step j W) as [Hmotor _].
  fold j' in Hmotor. rewrite Hmotor.
  apply solveMotor_bound; [exact Hmax|].
  destruct Hcase as [Hin | [Hen [Hst Hrot]]]; [left; exact Hin|].
  right. repeat split; try assumption.
  apply MathFacts.eqb_false; exact Hrot.
Qed.

(** The motor of [Sample.motor] between a body at rest and one turning
    at -1 asks for an impulse of 1 and is held at [dt * 10 = 1/6]. *)
Lemma X10_revolute_motor_impulse_bounded_witness :
  let maxImpulse :=
    TimeStep.dt (Example.step true) * RevoluteJoint.m_maxMotorTorque Sample.motor in
  - maxImpulse
  <= RevoluteJoint.m_motorImpulse
       (fst (RevoluteJoint.solveVelocityConstraints (Example.step true)
               Sample.motor Example.spinning))
  <= maxImpulse.
Proof.
  apply (X10_revolute_motor_impulse_bounded (Example.step true) Sample.motor
           Example.spinning).
  - simpl; lra.
  - right. repeat split.
    + discriminate.
    + simpl; lra.
Defined.


(** X11.  With the limit at work (enabled, a body rotating),
    [RevoluteJoint.solveVelocityConstraints] leaves an accumulated limit
    impulse that is not negative in state [atLowerLimit] and not positive
    in state [atUpperLimit]. *)
Theorem X11_revolute_limit_impulse_sign
    (step : TimeStep.t) (j : RevoluteJoint.t) (W : World) :
  RevoluteJoint.m_enableLimit j = true ->
  RevoluteJoint.m_invIA j + RevoluteJoint.m_invIB j <> 0 ->
  let j' := fst (RevoluteJoint.solveVelocityConstraints step j W) in
  (RevoluteJoint.m_limitState j = RevoluteJoint.atLowerLimit ->
     0 <= Vec3.z (RevoluteJoint.m_impulse j')) /\
  (RevoluteJoint.m_limitState j = RevoluteJoint.atUpperLimit ->
     Vec3.z (RevoluteJoint.m_impulse j') <= 0).
Proof.
  intros Hen Hrot j'.
  destruct (Revolute_solveVelocity_impulses step j W) as [_ Himp].
  fold j' in Himp. cbv zeta in Himp.
  rewrite Hen, (MathFacts.eqb_false _ _ Hrot) in Himp.
  split; intro Hst; rewrite Hst in Himp; cbn [RevoluteJoint.LimitState_eqb negb andb Bool.eqb] in Himp;
    rewrite Himp; apply solveLimit_sign; exact Hst.
Qed.

Lemma X11_revolute_limit_impulse_sign_witness :
  0 <= Vec3.z (RevoluteJoint.m_impulse
                 (fst (RevoluteJoint.solveVelocityConstraints (Example.step true)
                         (Example.revolute RevoluteJoint.atLowerLimit 0 Example.K)
                         Example.spinning))).
Proof.
  refine (proj1
    (X11_revolute_limit_impulse_sign (Example.step true)
       (Example.revolute RevoluteJoint.atLowerLimit 0 Example.K)
       Example.spinning _ _) _).
  - reflexivity.
  - simpl; lra.
  - reflexivity.
Defined.

(** ** The revolute joint: the limit state, the position solver at rest *)

(** X12.  With the limit enabled, a body that can rotate and bounds at
    least [2 * angularSlop] apart, [RevoluteJoint.initVelocityConstraints]
    reads the limit state off the joint angle of the solver's positions:
    [atLowerLimit] when the angle is at or below the lower bound (whatever
    the upper bound), else [atUpperLimit] when it is at or above the upper
    bound, else [inactiveLimit]; and with the limit disabled or no body
    able to rotate the state is [inactiveLimit]. *)
Theorem X12_revolute_limit_state_of_angle
    (Settings : Settings.t) (step : TimeStep.t)
    (j : RevoluteJoint.t) (W : World) :
  let bA := W (RevoluteJoint.m_bodyA j) in
  let bB := W (RevoluteJoint.m_bodyB j) in
  let angle := Position.a (Body.c_position bB) - Position.a (Body.c_position bA)
               - RevoluteJoint.m_referenceAngle j in
  let st := RevoluteJoint.m_limitState
              (fst (RevoluteJoint.initVelocityConstraints Settings step j W)) in
  (RevoluteJoint.m_enableLimit j = false \/ Body.m_invI bA + Body.m_invI bB = 0 ->
     st = RevoluteJoint.inactiveLimit) /\
  (RevoluteJoint.m_enableLimit j = true ->
   Body.m_invI bA + Body.m_invI bB <> 0 ->
   ~ Rabs (RevoluteJoint.m_upperAngle j - RevoluteJoint.m_lowerAngle j)
     < 2 * Settings.angularSlop Settings ->
     (angle <= RevoluteJoint.m_lowerAngle j -> st = RevoluteJoint.atLowerLimit) /\
     (RevoluteJoint.m_lowerAngle j < angle ->
      RevoluteJoint.m_upperAngle j <= angle -> st = RevoluteJoint.atUpperLimit) /\
     (RevoluteJoint.m_lowerAngle j < angle < RevoluteJoint.m_upperAngle j ->
      st = RevoluteJoint.inactiveLimit)).
Proof.
  intros bA bB angle st. subst st.
  rewrite initVelocityConstraints_limitState.
  fold bA bB. unfold RevoluteJoint.limitState_of; cbv zeta. fold angle.
  split.
  - intros [Hoff | Hfixed].
    + rewrite Hoff. reflexivity.
    + rewrite (MathFacts.eqb_true _ _ Hfixed).
      destruct (RevoluteJoint.m_enableLimit j); reflexivity.
  - intros Hen Hrot Hband.
    rewrite Hen, (MathFacts.eqb_false _ _ Hrot). cbn [andb Bool.eqb].
    unfold Math.abs. rewrite (MathFacts.ltb_false _ _ Hband).
    repeat split.
    + intro Hlow. rewrite MathFacts.leb_true by exact Hlow. reflexivity.
    + intros Hlow Hup. rewrite MathFacts.leb_false by lra.
      rewrite MathFacts.geb_true by lra. reflexivity.
    + intros [Hlow Hup]. rewrite MathFacts.leb_false by lra.
      rewrite MathFacts.geb_false by lra. reflexivity.
Qed.

Lemma X12_revolute_limit_state_of_angle_witness :
  RevoluteJoint.m_limitState
    (fst (RevoluteJoint.initVelocityConstraints Example.Settings
            (Example.step true)
            (Example.revolute RevoluteJoint.atLowerLimit 0 Example.K)
            Example.spinning))
  = RevoluteJoint.inactiveLimit.
Proof.
  pose proof PI_4 as Hpi. pose proof PI_RGT_0 as Hpi0.
  refine (proj2 (proj2 (proj2
    (X12_revolute_limit_state_of_angle Example.Settings (Example.step true)
       (Example.revolute RevoluteJoint.atLowerLimit 0 Example.K)
       Example.spinning) _ _ _)) _).
  - reflexivity.
  - simpl; lra.
  - simpl. rewrite (Rabs_right (1 - -1)) by lra. lra.
  - simpl; lra.
Defined.

Lemma clamp_at_upper (num lo hi : R) :
  lo <= hi -> hi <= num -> Math.clamp num lo hi = hi.
Proof.
  intros Hlh Hn. unfold Math.clamp. rewrite MathFacts.ltb_false by lra.
  destruct (Rgt_dec num hi) as [Hgt | Hle].
  - rewrite (MathFacts.gtb_true _ _ Hgt). reflexivity.
  - rewrite (MathFacts.gtb_false _ _ Hle). lra.
Qed.

Lemma clamp_at_lower (num lo hi : R) :
  lo <= hi -> num <= lo -> Math.clamp num lo hi = lo.
Proof.
  intros Hlh Hn. unfold Math.clamp.
  destruct (Rlt_dec num lo) as [Hlt | Hge].
  - rewrite (MathFacts.ltb_true _ _ Hlt). reflexivity.
  - rewrite (MathFacts.ltb_false _ _ Hge).
    rewrite MathFacts.gtb_false by lra. lra.
Qed.

Section RevoluteAtRest.

Import RevoluteJoint.
Variables (Settings : Settings.t) (j : t).

(** The joint angle asks for no correction from the limit: the limit is
    out of use, or the angle is within [angularSlop] of the bound the
    limit is at, or on the bound of equal limits. *)
Let no_correction (angle : R) : Prop :=
  m_enableLimit j = true -> m_invIA j + m_invIB j <> 0 ->
  match m_limitState j with
  | inactiveLimit => True
  | atLowerLimit => m_lowerAngle j - Settings.angularSlop Settings <= angle
  | atUpperLimit => angle <= m_upperAngle j + Settings.angularSlop Settings
  | equalLimits => angle = m_lowerAngle j
  end.

Lemma Revolute_angular_at_rest (aA aB : R) :
  0 <= Settings.angularSlop Settings ->
  0 <= Settings.maxAngularCorrection Settings ->
  no_correction (aB - aA - m_referenceAngle j) ->
  exists err,
    solveAngularLimit Settings j aA aB = (aA, aB, err) /\
    err <= Settings.angularSlop Settings.
Proof.
  intros Hslop Hmax Hrest. unfold solveAngularLimit; cbv zeta.
  destruct (m_enableLimit j) eqn:Hen; cbn [andb];
    [| exists 0; split; [reflexivity | exact Hslop]].
  destruct (Req_dec_T (m_invIA j + m_invIB j) 0) as [Hfix | Hrot].
  { rewrite (MathFacts.eqb_true _ _ Hfix).
    rewrite Bool.andb_false_r. exists 0; split; [reflexivity | exact Hslop]. }
  rewrite (MathFacts.eqb_false _ _ Hrot).
  specialize (Hrest eq_refl Hrot).
  unfold angularCorrection.
  destruct (m_limitState j); cbn [LimitState_eqb negb andb Bool.eqb]; cbv zeta.
  - exists 0; split; [reflexivity | exact Hslop].
  - exists (- (aB - aA - m_referenceAngle j - m_lowerAngle j)). split; [| lra].
    replace (Math.clamp _ _ _) with 0.
    + do 2 f_equal; ring.
    + symmetry. apply clamp_at_upper; lra.
  - exists (aB - aA - m_referenceAngle j - m_upperAngle j). split; [| lra].
    replace (Math.clamp _ _ _) with 0.
    + do 2 f_equal; ring.
    + symmetry. apply clamp_at_lower; lra.
  - exists (Math.abs 0). split.
    + rewrite Hrest.
      replace (Math.clamp _ _ _) with 0.
      * do 2 f_equal; ring.
      * symmetry. apply clamp_inside_eq; lra.
    + unfold Math.abs. rewrite Rabs_R0. exact Hslop.
Qed.

End RevoluteAtRest.

(** X13.  A revolute joint whose two anchors coincide in the solver's
    positions, and whose angle asks for no limit correction (limit out of
    use, or the angle within [angularSlop] of the bound the limit is at,
    or on the bound of equal limits), is left alone by
    [solvePositionConstraints]: no body changes and the call reports the
    joint solved. *)
Theorem X13_revolute_position_at_rest
    (Settings : Settings.t) (step : TimeStep.t)
    (j : RevoluteJoint.t) (W : World) :
  let pA := Body.c_position (W (RevoluteJoint.m_bodyA j)) in
  let pB := Body.c_position (W (RevoluteJoint.m_bodyB j)) in
  let rA := Rot.mulVec2 (Rot.neo (Position.a pA))
              (Vec2.sub (RevoluteJoint.m_localAnchorA j)
                        (RevoluteJoint.m_localCenterA j)) in
  let rB := Rot.mulVec2 (Rot.neo (Position.a pB))
              (Vec2.sub (RevoluteJoint.m_localAnchorB j)
                        (RevoluteJoint.m_localCenterB j)) in
  let angle := Position.a pB - Position.a pA - RevoluteJoint.m_referenceAngle j in
  0 <= Settings.linearSlop Settings ->
  0 <= Settings.angularSlop Settings ->
  0 <= Settings.maxAngularCorrection Settings ->
  Vec2.add (Position.c pB) rB = Vec2.add (Position.c pA) rA ->
  (RevoluteJoint.m_enableLimit j = true ->
   RevoluteJoint.m_invIA j + RevoluteJoint.m_invIB j <> 0 ->
   match RevoluteJoint.m_limitState j with
   | RevoluteJoint.inactiveLimit => True
   | RevoluteJoint.atLowerLimit =>
       RevoluteJoint.m_lowerAngle j - Settings.angularSlop Settings <= angle
   | RevoluteJoint.atUpperLimit =>
       angle <= RevoluteJoint.m_upperAngle j + Settings.angularSlop Settings
   | RevoluteJoint.equalLimits => angle = RevoluteJoint.m_lowerAngle j
   end) ->
  fst (RevoluteJoint.solvePositionConstraints Settings step j W) = true /\
  forall b,
    snd (RevoluteJoint.solvePositionConstraints Settings step j W) b = W b.
Proof.
  intros pA pB rA rB angle Hlin Hang Hmax Hanchor Hrest.
  destruct (Revolute_angular_at_rest Settings j (Position.a pA) (Position.a pB)
              Hang Hmax Hrest) as [err [Hsolve Herr]].
  unfold RevoluteJoint.solvePositionConstraints; cbv zeta.
  fold pA pB. rewrite Hsolve. fold rA rB.
  assert (HC : Vec2.subCombine
                 (Vec2.addCombine Vec2.zero 1 (Position.c pB) 1 rB)
                 1 (Position.c pA) 1 rA = Vec2.neo 0 0).
  { unfold Vec2.subCombine, Vec2.addCombine, Vec2.zero. cbn [Vec2.x Vec2.y].
    apply (f_equal Vec2.x) in Hanchor as Hx.
    apply (f_equal Vec2.y) in Hanchor as Hy.
    unfold Vec2.add in Hx, Hy. cbn [Vec2.x Vec2.y] in Hx, Hy.
    f_equal; lra. }
  rewrite HC. cbn [fst snd].
  split.
  - apply andb_true_intro. split.
    + apply MathFacts.leb_true. unfold Vec2.length. cbn [Vec2.x Vec2.y].
      replace (0 * 0 + 0 * 0) with 0 by ring. rewrite sqrt_0. exact Hlin.
    + apply MathFacts.leb_true. exact Herr.
  - intro b. apply four_writes_fixed.
    + intro x. apply with_c_subMul_zero;
        unfold Vec2.neg, Mat22.solve; cbn [Vec2.x Vec2.y]; ring.
    + intro x. apply with_c_addMul_zero;
        unfold Vec2.neg, Mat22.solve; cbn [Vec2.x Vec2.y]; ring.
    + rewrite cross_zero_r
        by (unfold Vec2.neg, Mat22.solve; cbn [Vec2.x Vec2.y]; ring).
      fold pA. ring.
    + rewrite cross_zero_r
        by (unfold Vec2.neg, Mat22.solve; cbn [Vec2.x Vec2.y]; ring).
      fold pB. ring.
Qed.

Lemma X13_revolute_position_at_rest_witness :
  fst (RevoluteJoint.solvePositionConstraints Example.Settings (Example.step true)
         (Example.revolute RevoluteJoint.atLowerLimit 0 Example.K)
         Example.spinning) = true.
Proof.
  pose proof PI_RGT_0 as Hpi0.
  refine (proj1
    (X13_revolute_position_at_rest Example.Settings (Example.step true)
       (Example.revolute RevoluteJoint.atLowerLimit 0 Example.K)
       Example.spinning _ _ _ _ _)).
  - simpl; lra.
  - simpl; lra.
  - simpl; lra.
  - reflexivity.
  - intros _ _. simpl. lra.
Defined.

(** ** The pulley joint *)

(** A pulley axis is zero when the segment is not longer than ten
    slops. *)
Lemma Pulley_axis_short (Settings : Settings.t) (u : Vec2.t) :
  Vec2.length u <= 10 * Settings.linearSlop Settings ->
  PulleyJoint.axis Settings u = Vec2.neo 0 0.
Proof.
  intro Hlen. unfold PulleyJoint.axis; cbv zeta.
  rewrite MathFacts.gtb_false by lra. reflexivity.
Qed.


Lemma mul_zero_vector (a : R) :
  Vec2.x (Vec2.mul a Vec2.zero) = 0 /\ Vec2.y (Vec2.mul a Vec2.zero) = 0.
Proof. unfold Vec2.mul, Vec2.zero; simpl. split; ring. Qed.

(** X17.  The position solver of a pulley between two distinct bodies
    does not move a body whose segment, measured from the ground anchor
    to the body's centre plus the stored arm, is at most
    [10 * linearSlop] long: its axis is zero, and so is its correction. *)
Theorem X17_pulley_short_segment_not_corrected
    (Settings : Settings.t) (step : TimeStep.t)
    (j : PulleyJoint.t) (W : World) :
  PulleyJoint.m_bodyA j <> PulleyJoint.m_bodyB j ->
  0 <= Settings.linearSlop Settings ->
  let W' := snd (PulleyJoint.solvePositionConstraints Settings step j W) in
  let cA := Position.c (Body.c_position (W (PulleyJoint.m_bodyA j))) in
  let cB := Position.c (Body.c_position (W (PulleyJoint.m_bodyB j))) in
  (Vec2.length (Vec2.sub (Vec2.add cA (PulleyJoint.m_rA j))
                  (PulleyJoint.m_groundAnchorA j))
     <= 10 * Settings.linearSlop Settings ->
   W' (PulleyJoint.m_bodyA j) = W (PulleyJoint.m_bodyA j)) /\
  (Vec2.length (Vec2.sub (Vec2.add cB (PulleyJoint.m_rB j))
                  (PulleyJoint.m_groundAnchorB j))
     <= 10 * Settings.linearSlop Settings ->
   W' (PulleyJoint.m_bodyB j) = W (PulleyJoint.m_bodyB j)).
Proof.
  intros Hne Hslop W' cA cB. subst W'.
  unfold PulleyJoint.solvePositionConstraints; cbv zeta. cbn [snd].
  fold cA cB.
  split; intro Hshort.
  - rewrite four_writes_A by exact Hne.
    rewrite (Pulley_axis_short Settings _ Hshort).
    rewrite with_c_addMul_zero by apply mul_zero_vector.
    rewrite cross_zero_r by apply mul_zero_vector.
    replace (_ + _ * 0) with
      (Position.a (Body.c_position (W (PulleyJoint.m_bodyA j)))) by ring.
    apply set_a_same.
  - rewrite four_writes_B by exact Hne.
    rewrite (Pulley_axis_short Settings _ Hshort).
    rewrite with_c_addMul_zero by apply mul_zero_vector.
    rewrite cross_zero_r by apply mul_zero_vector.
    replace (_ + _ * 0) with
      (Position.a (Body.c_position (W (PulleyJoint.m_bodyB j)))) by ring.
    apply set_a_same.
Qed.

(** X18.  A pulley whose rope has its length (position error zero) is
    left alone by [solvePositionConstraints]: no body changes, and the
    call reports the joint solved. *)
Theorem X18_pulley_position_at_rest
    (Settings : Settings.t) (step : TimeStep.t)
    (j : PulleyJoint.t) (W : World) :
  PulleyJoint.positionError j W = 0 ->
  0 < Settings.linearSlop Settings ->
  fst (PulleyJoint.solvePositionConstraints Settings step j W) = true /\
  forall b,
    snd (PulleyJoint.solvePositionConstraints Settings step j W) b = W b.
Proof.
  intros HC Hslop.
  unfold PulleyJoint.solvePositionConstraints; cbv zeta.
  rewrite HC. cbn [fst snd].
  split.
  - unfold Math.abs. rewrite Rabs_R0. apply MathFacts.ltb_true; exact Hslop.
  - intro b. apply four_writes_fixed.
    + intro x. apply with_c_addMul_zero; unfold Vec2.mul; simpl; ring.
    + intro x. apply with_c_addMul_zero; unfold Vec2.mul; simpl; ring.
    + rewrite cross_zero_r by (unfold Vec2.mul; simpl; ring). ring.
    + rewrite cross_zero_r by (unfold Vec2.mul; simpl; ring). ring.
Qed.

Lemma X17_pulley_short_segment_not_corrected_witness :
  snd (PulleyJoint.solvePositionConstraints Example.Settings (Example.step true)
         Sample.slack (Example.world Vec2.zero 0)) 0%nat
  = Example.world Vec2.zero 0 0%nat.
Proof.
  refine (proj1
    (X17_pulley_short_segment_not_corrected Example.Settings (Example.step true)
       Sample.slack (Example.world Vec2.zero 0) _ _) _).
  - discriminate.
  - simpl; lra.
  - unfold Vec2.length; simpl.
    replace ((0 + 0 - 0) * (0 + 0 - 0) + (0 + 0 - 0) * (0 + 0 - 0)) with 0 by ring.
    rewrite sqrt_0. lra.
Defined.

Lemma Sample_taut_positionError :
  PulleyJoint.positionError Sample.taut (Example.world Vec2.zero 0) = 0.
Proof.
  assert (Hu : Vec2.sub (Vec2.add Vec2.zero Vec2.zero) (Vec2.neo 0 (-10))
               = Vec2.neo 0 10)
    by (unfold Vec2.sub, Vec2.add; simpl; f_equal; ring).
  unfold PulleyJoint.positionError; cbv zeta. simpl.
  rewrite !Hu, length_0_10. ring.
Qed.

Lemma X18_pulley_position_at_rest_witness :
  fst (PulleyJoint.solvePositionConstraints Example.Settings (Example.step true)
         Sample.taut (Example.world Vec2.zero 0)) = true.
Proof.
  refine (proj1
    (X18_pulley_position_at_rest Example.Settings (Example.step true)
       Sample.taut (Example.world Vec2.zero 0) _ _)).
  - exact Sample_taut_positionError.
  - simpl; lra.
Defined.

(** ** The weld joint *)

(** X20.  With [step.warmStarting], [WeldJoint.initVelocityConstraints]
    multiplies the accumulated impulse by [step.dtRatio] and applies
    exactly the scaled impulse, linear and angular, to the working
    velocities of its two (distinct) bodies; without it the accumulated
    impulse is set to zero and no body changes. *)
Theorem X20_weld_warm_start
    (step : TimeStep.t) (j : WeldJoint.t) (W : World) :
  WeldJoint.m_bodyA j <> WeldJoint.m_bodyB j ->
  let j' := fst (WeldJoint.initVelocityConstraints step j W) in
  let W' := snd (WeldJoint.initVelocityConstraints step j W) in
  (TimeStep.warmStarting step = true ->
     WeldJoint.m_impulse j' =
       Vec3.mul (TimeStep.dtRatio step) (WeldJoint.m_impulse j) /\
     let P := Vec2.neo (Vec3.x (WeldJoint.m_impulse j'))
                       (Vec3.y (WeldJoint.m_impulse j')) in
     let L := Vec3.z (WeldJoint.m_impulse j') in
     transfers W W' (WeldJoint.m_bodyA j) (WeldJoint.m_bodyB j)
       (WeldJoint.m_rA j') (Vec2.neg P) (- L) (WeldJoint.m_rB j') P L) /\
  (TimeStep.warmStarting step = false ->
     WeldJoint.m_impulse j' = Vec3.zero /\ forall b, W' b = W b).
Proof.
  intros Hne j' W'. subst j' W'.
  unfold WeldJoint.initVelocityConstraints; cbv zeta.
  destruct (WeldJoint.mass_of step j _ _ _ _ _) as [[M g] bias].
  split; intro Hw; rewrite Hw.
  - cbn [fst snd WeldJoint.m_impulse WeldJoint.m_rA WeldJoint.m_rB
         Vec3.x Vec3.y Vec3.z Vec3.mul].
    split; [reflexivity|].
    unfold transfers.
    rewrite four_writes_A, four_writes_B by assumption.
    split; [|split; [|intros b HA HB; apply four_writes_other; assumption]].
    + apply subMul_is_applyImpulse; ring.
    + apply addMul_is_applyImpulse; ring.
  - cbn [fst snd WeldJoint.m_impulse].
    split; [reflexivity|].
    intro b; apply write_back_w.
Qed.

Lemma X20_weld_warm_start_witness :
  WeldJoint.m_impulse
    (fst (WeldJoint.initVelocityConstraints (Example.step true)
            Sample.weld_loaded Sample.apart))
  = Vec3.mul (TimeStep.dtRatio (Example.step true))
      (WeldJoint.m_impulse Sample.weld_loaded).
Proof.
  refine (proj1 (proj1
    (X20_weld_warm_start (Example.step true) Sample.weld_loaded Sample.apart _)
    _)).
  - discriminate.
  - reflexivity.
Defined.

Lemma solve22_zero (m : Mat33.t) :
  Mat33.solve22 m (Vec2.neo 0 0) = Vec2.neo 0 0.
Proof.
  unfold Mat33.solve22; cbv zeta. cbn [Vec2.x Vec2.y]. f_equal; ring.
Qed.

Lemma solve33_zero (m : Mat33.t) :
  Mat33.solve33 m (Vec3.neo 0 0 0) = Vec3.neo 0 0 0.
Proof.
  unfold Mat33.solve33, Vec3.dot, Vec3.cross; cbv zeta.
  cbn [Vec3.x Vec3.y Vec3.z]. f_equal; ring.
Qed.

(** X21.  A weld joint whose two anchors coincide in the solver's
    positions is left alone by [solvePositionConstraints], which reports
    it solved, when it is soft ([frequencyHz > 0]), whatever the angle
    between the bodies; and when it is rigid and the angle between the
    bodies is the reference angle. *)
Theorem X21_weld_position_at_rest
    (Settings : Settings.t) (step : TimeStep.t)
    (j : WeldJoint.t) (W : World) :
  let pA := Body.c_position (W (WeldJoint.m_bodyA j)) in
  let pB := Body.c_position (W (WeldJoint.m_bodyB j)) in
  let rA := Rot.mulVec2 (Rot.neo (Position.a pA))
              (Vec2.sub (WeldJoint.m_localAnchorA j)
                        (WeldJoint.m_localCenterA j)) in
  let rB := Rot.mulVec2 (Rot.neo (Position.a pB))
              (Vec2.sub (WeldJoint.m_localAnchorB j)
                        (WeldJoint.m_localCenterB j)) in
  0 <= Settings.linearSlop Settings ->
  0 <= Settings.angularSlop Settings ->
  Vec2.add (Position.c pB) rB = Vec2.add (Position.c pA) rA ->
  WeldJoint.m_frequencyHz j > 0
  \/ Position.a pB - Position.a pA - WeldJoint.m_referenceAngle j = 0 ->
  fst (WeldJoint.solvePositionConstraints Settings step j W) = true /\
  forall b,
    snd (WeldJoint.solvePositionConstraints Settings step j W) b = W b.
Proof.
  intros pA pB rA rB Hlin Hang Hanchor Hcase.
  unfold WeldJoint.solvePositionConstraints; cbv zeta.
  fold pA pB. fold rA rB.
  assert (HC : Vec2.subCombine
                 (Vec2.addCombine Vec2.zero 1 (Position.c pB) 1 rB)
                 1 (Position.c pA) 1 rA = Vec2.neo 0 0).
  { unfold Vec2.subCombine, Vec2.addCombine, Vec2.zero. cbn [Vec2.x Vec2.y].
    apply (f_equal Vec2.x) in Hanchor as Hx.
    apply (f_equal Vec2.y) in Hanchor as Hy.
    unfold Vec2.add in Hx, Hy. cbn [Vec2.x Vec2.y] in Hx, Hy.
    f_equal; lra. }
  rewrite HC.
  assert (Hlen : Math.leb (Vec2.length (Vec2.neo 0 0))
                   (Settings.linearSlop Settings) = true).
  { apply MathFacts.leb_true. unfold Vec2.length. cbn [Vec2.x Vec2.y].
    replace (0 * 0 + 0 * 0) with 0 by ring. rewrite sqrt_0. exact Hlin. }
  rewrite Hlen, solve22_zero.
  destruct (Rgt_dec (WeldJoint.m_frequencyHz j) 0) as [Hsoft | Hrigid].
  - rewrite (MathFacts.gtb_true _ _ Hsoft). cbn [fst snd].
    split.
    + rewrite (MathFacts.leb_true _ _ Hang). reflexivity.
    + intro b. apply four_writes_fixed.
      * intro x. apply with_c_subMul_zero; unfold Vec2.neg; cbn [Vec2.x Vec2.y]; ring.
      * intro x. apply with_c_addMul_zero; unfold Vec2.neg; cbn [Vec2.x Vec2.y]; ring.
      * rewrite cross_zero_r by (unfold Vec2.neg; cbn [Vec2.x Vec2.y]; ring).
        fold pA. ring.
      * rewrite cross_zero_r by (unfold Vec2.neg; cbn [Vec2.x Vec2.y]; ring).
        fold pB. ring.
  - rewrite (MathFacts.gtb_false _ _ Hrigid).
    destruct Hcase as [Hsoft | HC2]; [contradiction|].
    rewrite HC2. cbn [Vec2.x Vec2.y]. rewrite solve33_zero.
    assert (Himp :
      (if Math.gtb (Vec3.z (Mat33.ez
             (WeldJoint.K_of (WeldJoint.m_invMassA j) (WeldJoint.m_invMassB j)
                (WeldJoint.m_invIA j) (WeldJoint.m_invIB j) rA rB))) 0
       then Vec3.neg (Vec3.neo 0 0 0)
       else Vec3.neo (Vec2.x (Vec2.neg (Vec2.neo 0 0)))
                     (Vec2.y (Vec2.neg (Vec2.neo 0 0))) 0)
      = Vec3.neo 0 0 0).
    { destruct (Math.gtb _ 0); unfold Vec3.neg, Vec2.neg;
        cbn [Vec2.x Vec2.y Vec3.x Vec3.y Vec3.z]; f_equal; ring. }
    rewrite Himp. cbn [fst snd Vec3.x Vec3.y Vec3.z].
    split.
    + unfold Math.abs. rewrite Rabs_R0.
      rewrite (MathFacts.leb_true _ _ Hang). reflexivity.
    + intro b. apply four_writes_fixed.
      * intro x. apply with_c_subMul_zero; reflexivity.
      * intro x. apply with_c_addMul_zero; reflexivity.
      * rewrite cross_zero_r by reflexivity. fold pA. ring.
      * rewrite cross_zero_r by reflexivity. fold pB. ring.
Qed.

Lemma X21_weld_position_at_rest_witness :
  fst (WeldJoint.solvePositionConstraints Example.Settings (Example.step true)
         Sample.weld_loaded (Example.world Vec2.zero 0)) = true.
Proof.
  pose proof PI_RGT_0 as Hpi0.
  refine (proj1
    (X21_weld_position_at_rest Example.Settings (Example.step true)
       Sample.weld_loaded (Example.world Vec2.zero 0) _ _ _ _)).
  - simpl; lra.
  - simpl; lra.
  - reflexivity.
  - right. simpl. ring.
Defined.

(** ** What the velocity solvers leave alone *)

(** The four writes of a velocity iteration with opposite impulses. *)
Lemma four_writes_opposite (W : World) (bA bB : nat) (mA mB : R)
    (P : Vec2.t) (wA' wB' : R) :
  bA <> bB ->
  opposite_impulses W
    (update (update (update (update W bA
       (Body.with_v (fun vA => Vec2.subMul vA mA P))) bB
       (Body.with_v (fun vB => Vec2.addMul vB mB P))) bA
       (Body.set_w wA')) bB (Body.set_w wB'))
    bA bB mA mB.
Proof.
  intro Hne. unfold opposite_impulses.
  split; [intros b HA HB; apply four_writes_other; assumption|].
  split.
  - intro b. unfold update.
    destruct (Nat.eqb_spec b bB) as [-> | HB];
      destruct (Nat.eqb_spec bB bA) as [E | HBA];
      try destruct (Nat.eqb_spec b bA) as [-> | HA];
      repeat split; reflexivity.
  - exists P. rewrite four_writes_A, four_writes_B by exact Hne.
    split; reflexivity.
Qed.

(** X22.  A velocity iteration of a distance, a revolute or a weld joint
    between two distinct bodies changes nothing but the working
    velocities of its two bodies (no other body, no position, mass or
    transform), and changes the two linear velocities by one impulse [P],
    taken from body A and given to body B: [vA' = vA - mA * P] and
    [vB' = vB + mB * P] for the inverse masses [mA], [mB] the joint
    holds. *)
Theorem X22_velocity_solvers_opposite_impulses
    (step : TimeStep.t) (W : World)
    (dj : DistanceJoint.t) (rj : RevoluteJoint.t) (wj : WeldJoint.t) :
  DistanceJoint.m_bodyA dj <> DistanceJoint.m_bodyB dj ->
  RevoluteJoint.m_bodyA rj <> RevoluteJoint.m_bodyB rj ->
  WeldJoint.m_bodyA wj <> WeldJoint.m_bodyB wj ->
  opposite_impulses W (snd (DistanceJoint.solveVelocityConstraints step dj W))
    (DistanceJoint.m_bodyA dj) (DistanceJoint.m_bodyB dj)
    (DistanceJoint.m_invMassA dj) (DistanceJoint.m_invMassB dj) /\
  opposite_impulses W (snd (RevoluteJoint.solveVelocityConstraints step rj W))
    (RevoluteJoint.m_bodyA rj) (RevoluteJoint.m_bodyB rj)
    (RevoluteJoint.m_invMassA rj) (RevoluteJoint.m_invMassB rj) /\
  opposite_impulses W (snd (WeldJoint.solveVelocityConstraints step wj W))
    (WeldJoint.m_bodyA wj) (WeldJoint.m_bodyB wj)
    (WeldJoint.m_invMassA wj) (WeldJoint.m_invMassB wj).
Proof.
  intros Hd Hr Hw. split; [|split].
  - unfold DistanceJoint.solveVelocityConstraints; cbv zeta. cbn [snd].
    apply four_writes_opposite; exact Hd.
  - unfold RevoluteJoint.solveVelocityConstraints; cbv zeta.
    destruct (RevoluteJoint.solveMotor step rj _ _ _) as [[mi wA1] wB1].
    destruct (RevoluteJoint.m_enableLimit rj && _ && _).
    + destruct (RevoluteJoint.solveLimit rj _ _) as [imp acc]. cbn [snd].
      apply four_writes_opposite; exact Hr.
    + cbn [snd]. apply four_writes_opposite; exact Hr.
  - unfold WeldJoint.solveVelocityConstraints; cbv zeta.
    destruct (Math.gtb (WeldJoint.m_frequencyHz wj) 0); cbn [snd];
      apply four_writes_opposite; exact Hw.
Qed.

Lemma X22_velocity_solvers_opposite_impulses_witness :
  opposite_impulses Sample.apart
    (snd (RevoluteJoint.solveVelocityConstraints (Example.step true)
            Sample.motor Sample.apart))
    0 1 1 1.
Proof.
  refine (proj1 (proj2
    (X22_velocity_solvers_opposite_impulses (Example.step true) Sample.apart
       Sample.distance Sample.motor Sample.weld_loaded _ _ _))).
  - discriminate.
  - discriminate.
  - discriminate.
Defined.


(** ** The revolute joint: motor setters, construction *)

(** X23.  [enableMotor], [setMotorSpeed] and [setMaxMotorTorque] of a
    revolute joint store their argument and wake both bodies every time,
    also when the argument is the value the joint has; they leave the
    accumulated impulses and the limit as they are. *)
Theorem X23_revolute_motor_setters
    (j : RevoluteJoint.t) (W : World) (flag : bool) (speed torque : R) :
  let kept (j' : RevoluteJoint.t) (W' : World) : Prop :=
    RevoluteJoint.m_impulse j' = RevoluteJoint.m_impulse j /\
    RevoluteJoint.m_motorImpulse j' = RevoluteJoint.m_motorImpulse j /\
    RevoluteJoint.m_enableLimit j' = RevoluteJoint.m_enableLimit j /\
    RevoluteJoint.m_lowerAngle j' = RevoluteJoint.m_lowerAngle j /\
    RevoluteJoint.m_upperAngle j' = RevoluteJoint.m_upperAngle j /\
    Body.m_awakeFlag (W' (RevoluteJoint.m_bodyA j)) = true /\
    Body.m_awakeFlag (W' (RevoluteJoint.m_bodyB j)) = true in
  (let (j', W') := RevoluteJoint.enableMotor flag j W in
   RevoluteJoint.isMotorEnabled j' = flag /\
   RevoluteJoint.getMotorSpeed j' = RevoluteJoint.getMotorSpeed j /\
   RevoluteJoint.getMaxMotorTorque j' = RevoluteJoint.getMaxMotorTorque j /\
   kept j' W') /\
  (let (j', W') := RevoluteJoint.setMotorSpeed speed j W in
   RevoluteJoint.getMotorSpeed j' = speed /\
   RevoluteJoint.isMotorEnabled j' = RevoluteJoint.isMotorEnabled j /\
   RevoluteJoint.getMaxMotorTorque j' = RevoluteJoint.getMaxMotorTorque j /\
   kept j' W') /\
  (let (j', W') := RevoluteJoint.setMaxMotorTorque torque j W in
   RevoluteJoint.getMaxMotorTorque j' = torque /\
   RevoluteJoint.isMotorEnabled j' = RevoluteJoint.isMotorEnabled j /\
   RevoluteJoint.getMotorSpeed j' = RevoluteJoint.getMotorSpeed j /\
   kept j' W').
Proof.
  cbv zeta.
  unfold RevoluteJoint.enableMotor, RevoluteJoint.setMotorSpeed,
    RevoluteJoint.setMaxMotorTorque; cbv zeta.
  repeat split;
    solve [ apply awake_after_wake_both; left; reflexivity
          | apply awake_after_wake_both; right; reflexivity ].
Qed.

(** X24.  A revolute joint constructed at a world [anchor] holds as
    local anchors that point mapped into the frame of each body, zero
    accumulated impulses and the limit state [inactiveLimit].  With no
    finite [referenceAngle] in its definition its joint angle is 0 (the
    angle between the bodies less itself); with a finite one it is the
    angle between the bodies less that reference. *)
Theorem X24_revolute_new_at_anchor
    (def : RevoluteJoint.Def) (bodyA bodyB : nat) (anchor : Vec2.t) (W : World) :
  let j := RevoluteJoint.new def bodyA bodyB (Some anchor) W in
  RevoluteJoint.m_localAnchorA j = Body.getLocalPoint (W bodyA) anchor /\
  RevoluteJoint.m_localAnchorB j = Body.getLocalPoint (W bodyB) anchor /\
  (JsValue.isFinite (RevoluteJoint.referenceAngle def) = false ->
     RevoluteJoint.getReferenceAngle j =
       Body.getAngle (W bodyB) - Body.getAngle (W bodyA) /\
     RevoluteJoint.getJointAngle j W = 0) /\
  (forall a, RevoluteJoint.referenceAngle def = JsValue.Num a ->
     RevoluteJoint.getReferenceAngle j = a /\
     RevoluteJoint.getJointAngle j W =
       Body.getAngle (W bodyB) - Body.getAngle (W bodyA) - a) /\
  RevoluteJoint.m_impulse j = Vec3.zero /\
  RevoluteJoint.m_motorImpulse j = 0 /\
  RevoluteJoint.m_limitState j = RevoluteJoint.inactiveLimit.
Proof.
  intro j. subst j.
  unfold RevoluteJoint.getJointAngle, RevoluteJoint.getReferenceAngle,
    RevoluteJoint.new; cbv zeta.
  cbn [RevoluteJoint.m_bodyA RevoluteJoint.m_bodyB RevoluteJoint.m_localAnchorA
       RevoluteJoint.m_localAnchorB RevoluteJoint.m_referenceAngle
       RevoluteJoint.m_impulse RevoluteJoint.m_motorImpulse
       RevoluteJoint.m_limitState].
  split; [reflexivity|]. split; [reflexivity|].
  split.
  { intro Hnone. unfold Body.getAngle.
    destruct (RevoluteJoint.referenceAngle def); try discriminate;
      (split; [reflexivity | ring]). }
  split.
  { intros a Ha. rewrite Ha. unfold Body.getAngle. split; reflexivity. }
  repeat split.
Qed.

Lemma X24_revolute_new_at_anchor_witness :
  RevoluteJoint.getJointAngle
    (RevoluteJoint.new
       (RevoluteJoint.mkDef None None None None None None None None
          JsValue.undefined)
       0 1 (Some (Vec2.neo 1 2)) Sample.apart)
    Sample.apart
  = 0.
Proof.
  refine (proj2 (proj1 (proj2 (proj2
    (X24_revolute_new_at_anchor
       (RevoluteJoint.mkDef None None None None None None None None
          JsValue.undefined)
       0 1 (Vec2.neo 1 2) Sample.apart))) _)).
  reflexivity.
Defined.


(** ** The pulley joint: construction *)

(** X25.  A pulley joint constructed from the two ground anchors, the
    two world anchors and a ratio above [EPSILON], with no finite lengths
    in its definition, holds the ground anchors given, as local anchors
    the world anchors mapped into the frame of each body, as lengths the
    distance of each world anchor to its ground anchor, the ratio given,
    the constant [lengthA + ratio * lengthB] and a zero impulse. *)
Theorem X25_pulley_new_lengths
    (EPSILON : R) (ASSERT : bool) (def : PulleyJoint.Def) (bodyA bodyB : nat)
    (groundA groundB anchorA anchorB : Vec2.t) (ratio : R) (W : World) :
  JsValue.isFinite (PulleyJoint.lengthA def) = false ->
  JsValue.isFinite (PulleyJoint.lengthB def) = false ->
  ratio > EPSILON ->
  exists j,
    PulleyJoint.new EPSILON ASSERT def bodyA bodyB
      (Some groundA) (Some groundB) (Some anchorA) (Some anchorB)
      (JsValue.Num ratio) W = Returns j /\
    PulleyJoint.m_groundAnchorA j = groundA /\
    PulleyJoint.m_groundAnchorB j = groundB /\
    PulleyJoint.m_localAnchorA j = Body.getLocalPoint (W bodyA) anchorA /\
    PulleyJoint.m_localAnchorB j = Body.getLocalPoint (W bodyB) anchorB /\
    PulleyJoint.getLengthA j = Vec2.distance anchorA groundA /\
    PulleyJoint.getLengthB j = Vec2.distance anchorB groundB /\
    PulleyJoint.getRatio j = ratio /\
    PulleyJoint.m_constant j =
      PulleyJoint.getLengthA j + ratio * PulleyJoint.getLengthB j /\
    PulleyJoint.m_impulse j = 0.
Proof.
  intros HlA HlB Hratio.
  unfold PulleyJoint.new; cbv zeta. rewrite HlA, HlB.
  cbn [PulleyJoint.distance_opt bind JsValue.isFinite PulleyJoint.finite
       JsValue.gtb].
  rewrite (MathFacts.gtb_true _ _ Hratio).
  assert (Hassert : common_assert ASSERT true = Returns tt)
    by (destruct ASSERT; reflexivity).
  rewrite Hassert. cbn [bind].
  eexists. split; [reflexivity|].
  repeat split.
Qed.

Lemma X25_pulley_new_lengths_witness :
  exists j,
    PulleyJoint.new Example.EPSILON true
      (PulleyJoint.mkDef None None None None
         JsValue.undefined JsValue.undefined JsValue.undefined)
      0 1 (Some (Vec2.neo 0 (-10))) (Some (Vec2.neo 3 (-10)))
      (Some (Vec2.neo 0 0)) (Some (Vec2.neo 3 0)) (JsValue.Num 2)
      Sample.apart = Returns j /\
    PulleyJoint.getRatio j = 2.
Proof.
  destruct (X25_pulley_new_lengths Example.EPSILON true
              (PulleyJoint.mkDef None None None None
                 JsValue.undefined JsValue.undefined JsValue.undefined)
              0 1 (Vec2.neo 0 (-10)) (Vec2.neo 3 (-10))
              (Vec2.neo 0 0) (Vec2.neo 3 0) 2 Sample.apart
              eq_refl eq_refl
              ltac:(unfold Example.EPSILON; lra))
    as [j [Hnew [_ [_ [_ [_ [_ [_ [Hratio _]]]]]]]]].
  exists j. split; assumption.
Defined.


(** ** What the position solvers leave alone *)

(** The four writes of a position iteration with opposite impulses. *)
Lemma four_writes_opposite_c (W : World) (bA bB : nat) (mA mB : R)
    (P : Vec2.t) (aA' aB' : R) :
  bA <> bB ->
  opposite_corrections W
    (update (update (update (update W bA
       (Body.with_c (fun cA => Vec2.subMul cA mA P))) bB
       (Body.with_c (fun cB => Vec2.addMul cB mB P))) bA
       (Body.set_a aA')) bB (Body.set_a aB'))
    bA bB mA mB.
Proof.
  intro Hne. unfold opposite_corrections.
  split; [intros b HA HB; apply four_writes_other; assumption|].
  split.
  - intro b. unfold update.
    destruct (Nat.eqb_spec b bB) as [-> | HB];
      destruct (Nat.eqb_spec bB bA) as [E | HBA];
      try destruct (Nat.eqb_spec b bA) as [-> | HA];
      repeat split; reflexivity.
  - exists P. rewrite four_writes_A, four_writes_B by exact Hne.
    split; reflexivity.
Qed.

(** X26.  A position iteration of a rigid distance joint, of a revolute
    joint and of a weld joint between two distinct bodies changes nothing
    but the working positions of its two bodies (no other body, no
    velocity, mass or transform), and moves the two centres by one
    impulse [P], taken from body A and given to body B:
    [cA' = cA - mA * P] and [cB' = cB + mB * P] for the inverse masses
    [mA], [mB] the joint holds. *)
Theorem X26_position_solvers_opposite_corrections
    (Settings : Settings.t) (EPSILON : R) (step : TimeStep.t) (W : World)
    (dj : DistanceJoint.t) (rj : RevoluteJoint.t) (wj : WeldJoint.t) :
  DistanceJoint.m_bodyA dj <> DistanceJoint.m_bodyB dj ->
  RevoluteJoint.m_bodyA rj <> RevoluteJoint.m_bodyB rj ->
  WeldJoint.m_bodyA wj <> WeldJoint.m_bodyB wj ->
  (~ DistanceJoint.m_frequencyHz dj > 0 ->
   opposite_corrections W
     (snd (DistanceJoint.solvePositionConstraints Settings EPSILON step dj W))
     (DistanceJoint.m_bodyA dj) (DistanceJoint.m_bodyB dj)
     (DistanceJoint.m_invMassA dj) (DistanceJoint.m_invMassB dj)) /\
  opposite_corrections W
    (snd (RevoluteJoint.solvePositionConstraints Settings step rj W))
    (RevoluteJoint.m_bodyA rj) (RevoluteJoint.m_bodyB rj)
    (RevoluteJoint.m_invMassA rj) (RevoluteJoint.m_invMassB rj) /\
  opposite_corrections W
    (snd (WeldJoint.solvePositionConstraints Settings step wj W))
    (WeldJoint.m_bodyA wj) (WeldJoint.m_bodyB wj)
    (WeldJoint.m_invMassA wj) (WeldJoint.m_invMassB wj).
Proof.
  intros Hd Hr Hw. split; [|split].
  - intro Hrigid.
    unfold DistanceJoint.solvePositionConstraints; cbv zeta.
    rewrite (MathFacts.gtb_false _ _ Hrigid). cbn [snd].
    apply four_writes_opposite_c; exact Hd.
  - unfold RevoluteJoint.solvePositionConstraints; cbv zeta.
    destruct (RevoluteJoint.solveAngularLimit Settings rj _ _) as [[aA aB] err].
    cbn [snd]. apply four_writes_opposite_c; exact Hr.
  - unfold WeldJoint.solvePositionConstraints; cbv zeta.
    destruct (Math.gtb (WeldJoint.m_frequencyHz wj) 0); cbn [snd];
      apply four_writes_opposite_c; exact Hw.
Qed.

Lemma X26_position_solvers_opposite_corrections_witness :
  opposite_corrections Sample.apart
    (snd (RevoluteJoint.solvePositionConstraints Example.Settings
            (Example.step true) Sample.motor Sample.apart))
    0 1 1 1.
Proof.
  refine (proj1 (proj2
    (X26_position_solvers_opposite_corrections Example.Settings Example.EPSILON
       (Example.step true) Sample.apart
       Sample.distance Sample.motor Sample.weld_loaded _ _ _))).
  - discriminate.
  - discriminate.
  - discriminate.
Defined.
